(** * Document analysis engine: a shallow embedding and its properties

    The development follows [utils/document_processor.py] and
    [utils/nlp_models.py], with the text clean-up of
    [utils/file_handler.py] and the text handling of
    [utils/export_utils.py].  A Python [str] is a list of Unicode code
    points; a Python [dict] keyed by strings is a [gmap string _]; the
    module-level random generator is an explicit tape of draws; Python
    exceptions are the [Raise] outcome of a small error monad. *)

From Stdlib Require Import ZArith QArith Qround Qpower Lia Lqa String Ascii DecimalString.
From stdpp Require Import gmap strings list sorting.

Local Open Scope bool_scope.
Local Open Scope list_scope.

(** ** Code points and strings *)

Abbreviation char := N (only parsing).
Abbreviation str := (list N) (only parsing).

(** An ASCII literal of the source, as code points. *)
Definition lit (s : string) : str :=
  N_of_ascii <$> list_ascii_of_string s.

Definition NL : N := 10%N.            (* "\n" *)
Definition BULLET : N := 8226%N.      (* U+2022, the glyph of the source *)

Definition in_range (lo hi c : N) : bool := ((lo <=? c) && (c <=? hi))%N.

(** [str.isspace] on one code point; the set is also the [\s] of [re] on
    [str] patterns and what [str.strip] removes. *)
Definition is_space (c : N) : bool :=
  in_range 9 13 c || in_range 28 32 c || (c =? 133)%N || (c =? 160)%N ||
  (c =? 5760)%N || in_range 8192 8202 c || (c =? 8232)%N || (c =? 8233)%N ||
  (c =? 8239)%N || (c =? 8287)%N || (c =? 12288)%N.

(** First code points of the runs of ten decimal digits: category Nd of
    Unicode 14.0, the database of CPython 3.11 (a later interpreter has
    the tables of a later Unicode).  The mathematical digits
    U+1D7CE..U+1D7FF are five runs in a row. *)
Definition nd_starts : list N :=
  [ 0x30; 0x660; 0x6F0; 0x7C0; 0x966; 0x9E6; 0xA66; 0xAE6; 0xB66; 0xBE6;
    0xC66; 0xCE6; 0xD66; 0xDE6; 0xE50; 0xED0; 0xF20; 0x1040; 0x1090; 0x17E0;
    0x1810; 0x1946; 0x19D0; 0x1A80; 0x1A90; 0x1B50; 0x1BB0; 0x1C40; 0x1C50;
    0xA620; 0xA8D0; 0xA900; 0xA9D0; 0xA9F0; 0xAA50; 0xABF0; 0xFF10; 0x104A0;
    0x10D30; 0x11066; 0x110F0; 0x11136; 0x111D0; 0x112F0; 0x11450; 0x114D0;
    0x11650; 0x116C0; 0x11730; 0x118E0; 0x11950; 0x11C50; 0x11D50; 0x11DA0;
    0x16A60; 0x16AC0; 0x16B50; 0x1E140; 0x1E2F0; 0x1E950; 0x1FBF0 ]%N.

(** [\d] of [re] on [str] patterns: any Unicode decimal digit. *)
Definition is_digit (c : N) : bool :=
  existsb (fun b => in_range b (b + 9) c) nd_starts ||
  in_range 0x1D7CE 0x1D7FF c.

Definition in_ranges (table : list (N * N)) (c : N) : bool :=
  existsb (fun '(lo, hi) => in_range lo hi c) table.

(** The one-to-one lower-case mappings of Unicode 14.0, in runs:
    [(lo, hi, step, to)] sends [lo], [lo + step], ... up to [hi] to
    [to], [to + step], ... *)
Definition lower_runs : list (N * N * N * N) :=
  [ (0x41, 0x5A, 1, 0x61); (0xC0, 0xD6, 1, 0xE0); (0xD8, 0xDE, 1, 0xF8);
    (0x100, 0x12E, 2, 0x101); (0x132, 0x136, 2, 0x133); (0x139, 0x147, 2,
    0x13A); (0x14A, 0x176, 2, 0x14B); (0x178, 0x178, 1, 0xFF); (0x179,
    0x17D, 2, 0x17A); (0x181, 0x181, 1, 0x253); (0x182, 0x184, 2, 0x183);
    (0x186, 0x186, 1, 0x254); (0x187, 0x187, 1, 0x188); (0x189, 0x18A, 1,
    0x256); (0x18B, 0x18B, 1, 0x18C); (0x18E, 0x18E, 1, 0x1DD); (0x18F,
    0x18F, 1, 0x259); (0x190, 0x190, 1, 0x25B); (0x191, 0x191, 1, 0x192);
    (0x193, 0x193, 1, 0x260); (0x194, 0x194, 1, 0x263); (0x196, 0x196, 1,
    0x269); (0x197, 0x197, 1, 0x268); (0x198, 0x198, 1, 0x199); (0x19C,
    0x19C, 1, 0x26F); (0x19D, 0x19D, 1, 0x272); (0x19F, 0x19F, 1, 0x275);
    (0x1A0, 0x1A4, 2, 0x1A1); (0x1A6, 0x1A6, 1, 0x280); (0x1A7, 0x1A7, 1,
    0x1A8); (0x1A9, 0x1A9, 1, 0x283); (0x1AC, 0x1AC, 1, 0x1AD); (0x1AE,
    0x1AE, 1, 0x288); (0x1AF, 0x1AF, 1, 0x1B0); (0x1B1, 0x1B2, 1, 0x28A);
    (0x1B3, 0x1B5, 2, 0x1B4); (0x1B7, 0x1B7, 1, 0x292); (0x1B8, 0x1B8, 1,
    0x1B9); (0x1BC, 0x1BC, 1, 0x1BD); (0x1C4, 0x1C4, 1, 0x1C6); (0x1C5,
    0x1C5, 1, 0x1C6); (0x1C7, 0x1C7, 1, 0x1C9); (0x1C8, 0x1C8, 1, 0x1C9);
    (0x1CA, 0x1CA, 1, 0x1CC); (0x1CB, 0x1DB, 2, 0x1CC); (0x1DE, 0x1EE, 2,
    0x1DF); (0x1F1, 0x1F1, 1, 0x1F3); (0x1F2, 0x1F4, 2, 0x1F3); (0x1F6,
    0x1F6, 1, 0x195); (0x1F7, 0x1F7, 1, 0x1BF); (0x1F8, 0x21E, 2, 0x1F9);
    (0x220, 0x220, 1, 0x19E); (0x222, 0x232, 2, 0x223); (0x23A, 0x23A, 1,
    0x2C65); (0x23B, 0x23B, 1, 0x23C); (0x23D, 0x23D, 1, 0x19A); (0x23E,
    0x23E, 1, 0x2C66); (0x241, 0x241, 1, 0x242); (0x243, 0x243, 1, 0x180);
    (0x244, 0x244, 1, 0x289); (0x245, 0x245, 1, 0x28C); (0x246, 0x24E, 2,
    0x247); (0x370, 0x372, 2, 0x371); (0x376, 0x376, 1, 0x377); (0x37F,
    0x37F, 1, 0x3F3); (0x386, 0x386, 1, 0x3AC); (0x388, 0x38A, 1, 0x3AD);
    (0x38C, 0x38C, 1, 0x3CC); (0x38E, 0x38F, 1, 0x3CD); (0x391, 0x3A1, 1,
    0x3B1); (0x3A3, 0x3AB, 1, 0x3C3); (0x3CF, 0x3CF, 1, 0x3D7); (0x3D8,
    0x3EE, 2, 0x3D9); (0x3F4, 0x3F4, 1, 0x3B8); (0x3F7, 0x3F7, 1, 0x3F8);
    (0x3F9, 0x3F9, 1, 0x3F2); (0x3FA, 0x3FA, 1, 0x3FB); (0x3FD, 0x3FF, 1,
    0x37B); (0x400, 0x40F, 1, 0x450); (0x410, 0x42F, 1, 0x430); (0x460,
    0x480, 2, 0x461); (0x48A, 0x4BE, 2, 0x48B); (0x4C0, 0x4C0, 1, 0x4CF);
    (0x4C1, 0x4CD, 2, 0x4C2); (0x4D0, 0x52E, 2, 0x4D1); (0x531, 0x556, 1,
    0x561); (0x10A0, 0x10C5, 1, 0x2D00); (0x10C7, 0x10C7, 1, 0x2D27);
    (0x10CD, 0x10CD, 1, 0x2D2D); (0x13A0, 0x13EF, 1, 0xAB70); (0x13F0,
    0x13F5, 1, 0x13F8); (0x1C90, 0x1CBA, 1, 0x10D0); (0x1CBD, 0x1CBF, 1,
    0x10FD); (0x1E00, 0x1E94, 2, 0x1E01); (0x1E9E, 0x1E9E, 1, 0xDF);
    (0x1EA0, 0x1EFE, 2, 0x1EA1); (0x1F08, 0x1F0F, 1, 0x1F00); (0x1F18,
    0x1F1D, 1, 0x1F10); (0x1F28, 0x1F2F, 1, 0x1F20); (0x1F38, 0x1F3F, 1,
    0x1F30); (0x1F48, 0x1F4D, 1, 0x1F40); (0x1F59, 0x1F5F, 2, 0x1F51);
    (0x1F68, 0x1F6F, 1, 0x1F60); (0x1F88, 0x1F8F, 1, 0x1F80); (0x1F98,
    0x1F9F, 1, 0x1F90); (0x1FA8, 0x1FAF, 1, 0x1FA0); (0x1FB8, 0x1FB9, 1,
    0x1FB0); (0x1FBA, 0x1FBB, 1, 0x1F70); (0x1FBC, 0x1FBC, 1, 0x1FB3);
    (0x1FC8, 0x1FCB, 1, 0x1F72); (0x1FCC, 0x1FCC, 1, 0x1FC3); (0x1FD8,
    0x1FD9, 1, 0x1FD0); (0x1FDA, 0x1FDB, 1, 0x1F76); (0x1FE8, 0x1FE9, 1,
    0x1FE0); (0x1FEA, 0x1FEB, 1, 0x1F7A); (0x1FEC, 0x1FEC, 1, 0x1FE5);
    (0x1FF8, 0x1FF9, 1, 0x1F78); (0x1FFA, 0x1FFB, 1, 0x1F7C); (0x1FFC,
    0x1FFC, 1, 0x1FF3); (0x2126, 0x2126, 1, 0x3C9); (0x212A, 0x212A, 1,
    0x6B); (0x212B, 0x212B, 1, 0xE5); (0x2132, 0x2132, 1, 0x214E); (0x2160,
    0x216F, 1, 0x2170); (0x2183, 0x2183, 1, 0x2184); (0x24B6, 0x24CF, 1,
    0x24D0); (0x2C00, 0x2C2F, 1, 0x2C30); (0x2C60, 0x2C60, 1, 0x2C61);
    (0x2C62, 0x2C62, 1, 0x26B); (0x2C63, 0x2C63, 1, 0x1D7D); (0x2C64,
    0x2C64, 1, 0x27D); (0x2C67, 0x2C6B, 2, 0x2C68); (0x2C6D, 0x2C6D, 1,
    0x251); (0x2C6E, 0x2C6E, 1, 0x271); (0x2C6F, 0x2C6F, 1, 0x250); (0x2C70,
    0x2C70, 1, 0x252); (0x2C72, 0x2C72, 1, 0x2C73); (0x2C75, 0x2C75, 1,
    0x2C76); (0x2C7E, 0x2C7F, 1, 0x23F); (0x2C80, 0x2CE2, 2, 0x2C81);
    (0x2CEB, 0x2CED, 2, 0x2CEC); (0x2CF2, 0x2CF2, 1, 0x2CF3); (0xA640,
    0xA66C, 2, 0xA641); (0xA680, 0xA69A, 2, 0xA681); (0xA722, 0xA72E, 2,
    0xA723); (0xA732, 0xA76E, 2, 0xA733); (0xA779, 0xA77B, 2, 0xA77A);
    (0xA77D, 0xA77D, 1, 0x1D79); (0xA77E, 0xA786, 2, 0xA77F); (0xA78B,
    0xA78B, 1, 0xA78C); (0xA78D, 0xA78D, 1, 0x265); (0xA790, 0xA792, 2,
    0xA791); (0xA796, 0xA7A8, 2, 0xA797); (0xA7AA, 0xA7AA, 1, 0x266);
    (0xA7AB, 0xA7AB, 1, 0x25C); (0xA7AC, 0xA7AC, 1, 0x261); (0xA7AD, 0xA7AD,
    1, 0x26C); (0xA7AE, 0xA7AE, 1, 0x26A); (0xA7B0, 0xA7B0, 1, 0x29E);
    (0xA7B1, 0xA7B1, 1, 0x287); (0xA7B2, 0xA7B2, 1, 0x29D); (0xA7B3, 0xA7B3,
    1, 0xAB53); (0xA7B4, 0xA7C2, 2, 0xA7B5); (0xA7C4, 0xA7C4, 1, 0xA794);
    (0xA7C5, 0xA7C5, 1, 0x282); (0xA7C6, 0xA7C6, 1, 0x1D8E); (0xA7C7,
    0xA7C9, 2, 0xA7C8); (0xA7D0, 0xA7D0, 1, 0xA7D1); (0xA7D6, 0xA7D8, 2,
    0xA7D7); (0xA7F5, 0xA7F5, 1, 0xA7F6); (0xFF21, 0xFF3A, 1, 0xFF41);
    (0x10400, 0x10427, 1, 0x10428); (0x104B0, 0x104D3, 1, 0x104D8);
    (0x10570, 0x1057A, 1, 0x10597); (0x1057C, 0x1058A, 1, 0x105A3);
    (0x1058C, 0x10592, 1, 0x105B3); (0x10594, 0x10595, 1, 0x105BB);
    (0x10C80, 0x10CB2, 1, 0x10CC0); (0x118A0, 0x118BF, 1, 0x118C0);
    (0x16E40, 0x16E5F, 1, 0x16E60); (0x1E900, 0x1E921, 1, 0x1E922) ]%N.

(** The code points with the property Cased. *)
Definition cased_ranges : list (N * N) :=
  [ (0x41, 0x5A); (0x61, 0x7A); (0xAA, 0xAA); (0xB5, 0xB5); (0xBA, 0xBA);
    (0xC0, 0xD6); (0xD8, 0xF6); (0xF8, 0x1BA); (0x1BC, 0x1BF); (0x1C4,
    0x293); (0x295, 0x2B8); (0x2C0, 0x2C1); (0x2E0, 0x2E4); (0x345, 0x345);
    (0x370, 0x373); (0x376, 0x377); (0x37A, 0x37D); (0x37F, 0x37F); (0x386,
    0x386); (0x388, 0x38A); (0x38C, 0x38C); (0x38E, 0x3A1); (0x3A3, 0x3F5);
    (0x3F7, 0x481); (0x48A, 0x52F); (0x531, 0x556); (0x560, 0x588); (0x10A0,
    0x10C5); (0x10C7, 0x10C7); (0x10CD, 0x10CD); (0x10D0, 0x10FA); (0x10FD,
    0x10FF); (0x13A0, 0x13F5); (0x13F8, 0x13FD); (0x1C80, 0x1C88); (0x1C90,
    0x1CBA); (0x1CBD, 0x1CBF); (0x1D00, 0x1DBF); (0x1E00, 0x1F15); (0x1F18,
    0x1F1D); (0x1F20, 0x1F45); (0x1F48, 0x1F4D); (0x1F50, 0x1F57); (0x1F59,
    0x1F59); (0x1F5B, 0x1F5B); (0x1F5D, 0x1F5D); (0x1F5F, 0x1F7D); (0x1F80,
    0x1FB4); (0x1FB6, 0x1FBC); (0x1FBE, 0x1FBE); (0x1FC2, 0x1FC4); (0x1FC6,
    0x1FCC); (0x1FD0, 0x1FD3); (0x1FD6, 0x1FDB); (0x1FE0, 0x1FEC); (0x1FF2,
    0x1FF4); (0x1FF6, 0x1FFC); (0x2071, 0x2071); (0x207F, 0x207F); (0x2090,
    0x209C); (0x2102, 0x2102); (0x2107, 0x2107); (0x210A, 0x2113); (0x2115,
    0x2115); (0x2119, 0x211D); (0x2124, 0x2124); (0x2126, 0x2126); (0x2128,
    0x2128); (0x212A, 0x212D); (0x212F, 0x2134); (0x2139, 0x2139); (0x213C,
    0x213F); (0x2145, 0x2149); (0x214E, 0x214E); (0x2160, 0x217F); (0x2183,
    0x2184); (0x24B6, 0x24E9); (0x2C00, 0x2CE4); (0x2CEB, 0x2CEE); (0x2CF2,
    0x2CF3); (0x2D00, 0x2D25); (0x2D27, 0x2D27); (0x2D2D, 0x2D2D); (0xA640,
    0xA66D); (0xA680, 0xA69D); (0xA722, 0xA787); (0xA78B, 0xA78E); (0xA790,
    0xA7CA); (0xA7D0, 0xA7D1); (0xA7D3, 0xA7D3); (0xA7D5, 0xA7D9); (0xA7F5,
    0xA7F6); (0xA7F8, 0xA7FA); (0xAB30, 0xAB5A); (0xAB5C, 0xAB68); (0xAB70,
    0xABBF); (0xFB00, 0xFB06); (0xFB13, 0xFB17); (0xFF21, 0xFF3A); (0xFF41,
    0xFF5A); (0x10400, 0x1044F); (0x104B0, 0x104D3); (0x104D8, 0x104FB);
    (0x10570, 0x1057A); (0x1057C, 0x1058A); (0x1058C, 0x10592); (0x10594,
    0x10595); (0x10597, 0x105A1); (0x105A3, 0x105B1); (0x105B3, 0x105B9);
    (0x105BB, 0x105BC); (0x10780, 0x10780); (0x10783, 0x10785); (0x10787,
    0x107B0); (0x107B2, 0x107BA); (0x10C80, 0x10CB2); (0x10CC0, 0x10CF2);
    (0x118A0, 0x118DF); (0x16E40, 0x16E7F); (0x1D400, 0x1D454); (0x1D456,
    0x1D49C); (0x1D49E, 0x1D49F); (0x1D4A2, 0x1D4A2); (0x1D4A5, 0x1D4A6);
    (0x1D4A9, 0x1D4AC); (0x1D4AE, 0x1D4B9); (0x1D4BB, 0x1D4BB); (0x1D4BD,
    0x1D4C3); (0x1D4C5, 0x1D505); (0x1D507, 0x1D50A); (0x1D50D, 0x1D514);
    (0x1D516, 0x1D51C); (0x1D51E, 0x1D539); (0x1D53B, 0x1D53E); (0x1D540,
    0x1D544); (0x1D546, 0x1D546); (0x1D54A, 0x1D550); (0x1D552, 0x1D6A5);
    (0x1D6A8, 0x1D6C0); (0x1D6C2, 0x1D6DA); (0x1D6DC, 0x1D6FA); (0x1D6FC,
    0x1D714); (0x1D716, 0x1D734); (0x1D736, 0x1D74E); (0x1D750, 0x1D76E);
    (0x1D770, 0x1D788); (0x1D78A, 0x1D7A8); (0x1D7AA, 0x1D7C2); (0x1D7C4,
    0x1D7CB); (0x1DF00, 0x1DF09); (0x1DF0B, 0x1DF1E); (0x1E900, 0x1E943);
    (0x1F130, 0x1F149); (0x1F150, 0x1F169); (0x1F170, 0x1F189) ]%N.

(** The code points with the property Case_Ignorable. *)
Definition case_ignorable_ranges : list (N * N) :=
  [ (0x27, 0x27); (0x2E, 0x2E); (0x3A, 0x3A); (0x5E, 0x5E); (0x60, 0x60);
    (0xA8, 0xA8); (0xAD, 0xAD); (0xAF, 0xAF); (0xB4, 0xB4); (0xB7, 0xB8);
    (0x2B0, 0x36F); (0x374, 0x375); (0x37A, 0x37A); (0x384, 0x385); (0x387,
    0x387); (0x483, 0x489); (0x559, 0x559); (0x55F, 0x55F); (0x591, 0x5BD);
    (0x5BF, 0x5BF); (0x5C1, 0x5C2); (0x5C4, 0x5C5); (0x5C7, 0x5C7); (0x5F4,
    0x5F4); (0x600, 0x605); (0x610, 0x61A); (0x61C, 0x61C); (0x640, 0x640);
    (0x64B, 0x65F); (0x670, 0x670); (0x6D6, 0x6DD); (0x6DF, 0x6E8); (0x6EA,
    0x6ED); (0x70F, 0x70F); (0x711, 0x711); (0x730, 0x74A); (0x7A6, 0x7B0);
    (0x7EB, 0x7F5); (0x7FA, 0x7FA); (0x7FD, 0x7FD); (0x816, 0x82D); (0x859,
    0x85B); (0x888, 0x888); (0x890, 0x891); (0x898, 0x89F); (0x8C9, 0x902);
    (0x93A, 0x93A); (0x93C, 0x93C); (0x941, 0x948); (0x94D, 0x94D); (0x951,
    0x957); (0x962, 0x963); (0x971, 0x971); (0x981, 0x981); (0x9BC, 0x9BC);
    (0x9C1, 0x9C4); (0x9CD, 0x9CD); (0x9E2, 0x9E3); (0x9FE, 0x9FE); (0xA01,
    0xA02); (0xA3C, 0xA3C); (0xA41, 0xA42); (0xA47, 0xA48); (0xA4B, 0xA4D);
    (0xA51, 0xA51); (0xA70, 0xA71); (0xA75, 0xA75); (0xA81, 0xA82); (0xABC,
    0xABC); (0xAC1, 0xAC5); (0xAC7, 0xAC8); (0xACD, 0xACD); (0xAE2, 0xAE3);
    (0xAFA, 0xAFF); (0xB01, 0xB01); (0xB3C, 0xB3C); (0xB3F, 0xB3F); (0xB41,
    0xB44); (0xB4D, 0xB4D); (0xB55, 0xB56); (0xB62, 0xB63); (0xB82, 0xB82);
    (0xBC0, 0xBC0); (0xBCD, 0xBCD); (0xC00, 0xC00); (0xC04, 0xC04); (0xC3C,
    0xC3C); (0xC3E, 0xC40); (0xC46, 0xC48); (0xC4A, 0xC4D); (0xC55, 0xC56);
    (0xC62, 0xC63); (0xC81, 0xC81); (0xCBC, 0xCBC); (0xCBF, 0xCBF); (0xCC6,
    0xCC6); (0xCCC, 0xCCD); (0xCE2, 0xCE3); (0xD00, 0xD01); (0xD3B, 0xD3C);
    (0xD41, 0xD44); (0xD4D, 0xD4D); (0xD62, 0xD63); (0xD81, 0xD81); (0xDCA,
    0xDCA); (0xDD2, 0xDD4); (0xDD6, 0xDD6); (0xE31, 0xE31); (0xE34, 0xE3A);
    (0xE46, 0xE4E); (0xEB1, 0xEB1); (0xEB4, 0xEBC); (0xEC6, 0xEC6); (0xEC8,
    0xECD); (0xF18, 0xF19); (0xF35, 0xF35); (0xF37, 0xF37); (0xF39, 0xF39);
    (0xF71, 0xF7E); (0xF80, 0xF84); (0xF86, 0xF87); (0xF8D, 0xF97); (0xF99,
    0xFBC); (0xFC6, 0xFC6); (0x102D, 0x1030); (0x1032, 0x1037); (0x1039,
    0x103A); (0x103D, 0x103E); (0x1058, 0x1059); (0x105E, 0x1060); (0x1071,
    0x1074); (0x1082, 0x1082); (0x1085, 0x1086); (0x108D, 0x108D); (0x109D,
    0x109D); (0x10FC, 0x10FC); (0x135D, 0x135F); (0x1712, 0x1714); (0x1732,
    0x1733); (0x1752, 0x1753); (0x1772, 0x1773); (0x17B4, 0x17B5); (0x17B7,
    0x17BD); (0x17C6, 0x17C6); (0x17C9, 0x17D3); (0x17D7, 0x17D7); (0x17DD,
    0x17DD); (0x180B, 0x180F); (0x1843, 0x1843); (0x1885, 0x1886); (0x18A9,
    0x18A9); (0x1920, 0x1922); (0x1927, 0x1928); (0x1932, 0x1932); (0x1939,
    0x193B); (0x1A17, 0x1A18); (0x1A1B, 0x1A1B); (0x1A56, 0x1A56); (0x1A58,
    0x1A5E); (0x1A60, 0x1A60); (0x1A62, 0x1A62); (0x1A65, 0x1A6C); (0x1A73,
    0x1A7C); (0x1A7F, 0x1A7F); (0x1AA7, 0x1AA7); (0x1AB0, 0x1ACE); (0x1B00,
    0x1B03); (0x1B34, 0x1B34); (0x1B36, 0x1B3A); (0x1B3C, 0x1B3C); (0x1B42,
    0x1B42); (0x1B6B, 0x1B73); (0x1B80, 0x1B81); (0x1BA2, 0x1BA5); (0x1BA8,
    0x1BA9); (0x1BAB, 0x1BAD); (0x1BE6, 0x1BE6); (0x1BE8, 0x1BE9); (0x1BED,
    0x1BED); (0x1BEF, 0x1BF1); (0x1C2C, 0x1C33); (0x1C36, 0x1C37); (0x1C78,
    0x1C7D); (0x1CD0, 0x1CD2); (0x1CD4, 0x1CE0); (0x1CE2, 0x1CE8); (0x1CED,
    0x1CED); (0x1CF4, 0x1CF4); (0x1CF8, 0x1CF9); (0x1D2C, 0x1D6A); (0x1D78,
    0x1D78); (0x1D9B, 0x1DFF); (0x1FBD, 0x1FBD); (0x1FBF, 0x1FC1); (0x1FCD,
    0x1FCF); (0x1FDD, 0x1FDF); (0x1FED, 0x1FEF); (0x1FFD, 0x1FFE); (0x200B,
    0x200F); (0x2018, 0x2019); (0x2024, 0x2024); (0x2027, 0x2027); (0x202A,
    0x202E); (0x2060, 0x2064); (0x2066, 0x206F); (0x2071, 0x2071); (0x207F,
    0x207F); (0x2090, 0x209C); (0x20D0, 0x20F0); (0x2C7C, 0x2C7D); (0x2CEF,
    0x2CF1); (0x2D6F, 0x2D6F); (0x2D7F, 0x2D7F); (0x2DE0, 0x2DFF); (0x2E2F,
    0x2E2F); (0x3005, 0x3005); (0x302A, 0x302D); (0x3031, 0x3035); (0x303B,
    0x303B); (0x3099, 0x309E); (0x30FC, 0x30FE); (0xA015, 0xA015); (0xA4F8,
    0xA4FD); (0xA60C, 0xA60C); (0xA66F, 0xA672); (0xA674, 0xA67D); (0xA67F,
    0xA67F); (0xA69C, 0xA69F); (0xA6F0, 0xA6F1); (0xA700, 0xA721); (0xA770,
    0xA770); (0xA788, 0xA78A); (0xA7F2, 0xA7F4); (0xA7F8, 0xA7F9); (0xA802,
    0xA802); (0xA806, 0xA806); (0xA80B, 0xA80B); (0xA825, 0xA826); (0xA82C,
    0xA82C); (0xA8C4, 0xA8C5); (0xA8E0, 0xA8F1); (0xA8FF, 0xA8FF); (0xA926,
    0xA92D); (0xA947, 0xA951); (0xA980, 0xA982); (0xA9B3, 0xA9B3); (0xA9B6,
    0xA9B9); (0xA9BC, 0xA9BD); (0xA9CF, 0xA9CF); (0xA9E5, 0xA9E6); (0xAA29,
    0xAA2E); (0xAA31, 0xAA32); (0xAA35, 0xAA36); (0xAA43, 0xAA43); (0xAA4C,
    0xAA4C); (0xAA70, 0xAA70); (0xAA7C, 0xAA7C); (0xAAB0, 0xAAB0); (0xAAB2,
    0xAAB4); (0xAAB7, 0xAAB8); (0xAABE, 0xAABF); (0xAAC1, 0xAAC1); (0xAADD,
    0xAADD); (0xAAEC, 0xAAED); (0xAAF3, 0xAAF4); (0xAAF6, 0xAAF6); (0xAB5B,
    0xAB5F); (0xAB69, 0xAB6B); (0xABE5, 0xABE5); (0xABE8, 0xABE8); (0xABED,
    0xABED); (0xFB1E, 0xFB1E); (0xFBB2, 0xFBC2); (0xFE00, 0xFE0F); (0xFE13,
    0xFE13); (0xFE20, 0xFE2F); (0xFE52, 0xFE52); (0xFE55, 0xFE55); (0xFEFF,
    0xFEFF); (0xFF07, 0xFF07); (0xFF0E, 0xFF0E); (0xFF1A, 0xFF1A); (0xFF3E,
    0xFF3E); (0xFF40, 0xFF40); (0xFF70, 0xFF70); (0xFF9E, 0xFF9F); (0xFFE3,
    0xFFE3); (0xFFF9, 0xFFFB); (0x101FD, 0x101FD); (0x102E0, 0x102E0);
    (0x10376, 0x1037A); (0x10780, 0x10785); (0x10787, 0x107B0); (0x107B2,
    0x107BA); (0x10A01, 0x10A03); (0x10A05, 0x10A06); (0x10A0C, 0x10A0F);
    (0x10A38, 0x10A3A); (0x10A3F, 0x10A3F); (0x10AE5, 0x10AE6); (0x10D24,
    0x10D27); (0x10EAB, 0x10EAC); (0x10F46, 0x10F50); (0x10F82, 0x10F85);
    (0x11001, 0x11001); (0x11038, 0x11046); (0x11070, 0x11070); (0x11073,
    0x11074); (0x1107F, 0x11081); (0x110B3, 0x110B6); (0x110B9, 0x110BA);
    (0x110BD, 0x110BD); (0x110C2, 0x110C2); (0x110CD, 0x110CD); (0x11100,
    0x11102); (0x11127, 0x1112B); (0x1112D, 0x11134); (0x11173, 0x11173);
    (0x11180, 0x11181); (0x111B6, 0x111BE); (0x111C9, 0x111CC); (0x111CF,
    0x111CF); (0x1122F, 0x11231); (0x11234, 0x11234); (0x11236, 0x11237);
    (0x1123E, 0x1123E); (0x112DF, 0x112DF); (0x112E3, 0x112EA); (0x11300,
    0x11301); (0x1133B, 0x1133C); (0x11340, 0x11340); (0x11366, 0x1136C);
    (0x11370, 0x11374); (0x11438, 0x1143F); (0x11442, 0x11444); (0x11446,
    0x11446); (0x1145E, 0x1145E); (0x114B3, 0x114B8); (0x114BA, 0x114BA);
    (0x114BF, 0x114C0); (0x114C2, 0x114C3); (0x115B2, 0x115B5); (0x115BC,
    0x115BD); (0x115BF, 0x115C0); (0x115DC, 0x115DD); (0x11633, 0x1163A);
    (0x1163D, 0x1163D); (0x1163F, 0x11640); (0x116AB, 0x116AB); (0x116AD,
    0x116AD); (0x116B0, 0x116B5); (0x116B7, 0x116B7); (0x1171D, 0x1171F);
    (0x11722, 0x11725); (0x11727, 0x1172B); (0x1182F, 0x11837); (0x11839,
    0x1183A); (0x1193B, 0x1193C); (0x1193E, 0x1193E); (0x11943, 0x11943);
    (0x119D4, 0x119D7); (0x119DA, 0x119DB); (0x119E0, 0x119E0); (0x11A01,
    0x11A0A); (0x11A33, 0x11A38); (0x11A3B, 0x11A3E); (0x11A47, 0x11A47);
    (0x11A51, 0x11A56); (0x11A59, 0x11A5B); (0x11A8A, 0x11A96); (0x11A98,
    0x11A99); (0x11C30, 0x11C36); (0x11C38, 0x11C3D); (0x11C3F, 0x11C3F);
    (0x11C92, 0x11CA7); (0x11CAA, 0x11CB0); (0x11CB2, 0x11CB3); (0x11CB5,
    0x11CB6); (0x11D31, 0x11D36); (0x11D3A, 0x11D3A); (0x11D3C, 0x11D3D);
    (0x11D3F, 0x11D45); (0x11D47, 0x11D47); (0x11D90, 0x11D91); (0x11D95,
    0x11D95); (0x11D97, 0x11D97); (0x11EF3, 0x11EF4); (0x13430, 0x13438);
    (0x16AF0, 0x16AF4); (0x16B30, 0x16B36); (0x16B40, 0x16B43); (0x16F4F,
    0x16F4F); (0x16F8F, 0x16F9F); (0x16FE0, 0x16FE1); (0x16FE3, 0x16FE4);
    (0x1AFF0, 0x1AFF3); (0x1AFF5, 0x1AFFB); (0x1AFFD, 0x1AFFE); (0x1BC9D,
    0x1BC9E); (0x1BCA0, 0x1BCA3); (0x1CF00, 0x1CF2D); (0x1CF30, 0x1CF46);
    (0x1D167, 0x1D169); (0x1D173, 0x1D182); (0x1D185, 0x1D18B); (0x1D1AA,
    0x1D1AD); (0x1D242, 0x1D244); (0x1DA00, 0x1DA36); (0x1DA3B, 0x1DA6C);
    (0x1DA75, 0x1DA75); (0x1DA84, 0x1DA84); (0x1DA9B, 0x1DA9F); (0x1DAA1,
    0x1DAAF); (0x1E000, 0x1E006); (0x1E008, 0x1E018); (0x1E01B, 0x1E021);
    (0x1E023, 0x1E024); (0x1E026, 0x1E02A); (0x1E130, 0x1E13D); (0x1E2AE,
    0x1E2AE); (0x1E2EC, 0x1E2EF); (0x1E8D0, 0x1E8D6); (0x1E944, 0x1E94B);
    (0x1F3FB, 0x1F3FF); (0xE0001, 0xE0001); (0xE0020, 0xE007F); (0xE0100,
    0xE01EF) ]%N.

Definition is_cased (c : N) : bool := in_ranges cased_ranges c.
Definition is_case_ignorable (c : N) : bool := in_ranges case_ignorable_ranges c.

(** The lower-case mapping of one code point, outside the two special
    cases of [lower_scan]. *)
Definition lower_char (c : N) : N :=
  match List.find (fun '(lo, hi, step, _) =>
                     in_range lo hi c && ((c - lo) mod step =? 0)%N)
                  lower_runs with
  | Some (lo, _, _, to) => (to + (c - lo))%N
  | None => c
  end.

Fixpoint skip_case_ignorable (s : str) : str :=
  match s with
  | c :: s' => if is_case_ignorable c then skip_case_ignorable s' else s
  | [] => []
  end.

(** A capital sigma is in final position when a cased letter comes
    before it and none after it, case-ignorable characters set aside;
    [before] is what precedes the sigma, nearest character first. *)
Definition final_sigma (before after : str) : bool :=
  match skip_case_ignorable before with
  | c :: _ =>
      is_cased c &&
      match skip_case_ignorable after with
      | c' :: _ => negb (is_cased c')
      | [] => true
      end
  | [] => false
  end.

(** [str.lower]: U+03A3 becomes the final or the medial small sigma, U+0130
    becomes "i" and a combining dot, every other code point has its
    one-to-one mapping. *)
Fixpoint lower_scan (before s : str) : str :=
  match s with
  | [] => []
  | c :: s' =>
      (if (c =? 0x3A3)%N then [if final_sigma before s' then 0x3C2 else 0x3C3]%N
       else if (c =? 0x130)%N then [0x69; 0x307]%N
       else [lower_char c]) ++ lower_scan (c :: before) s'
  end.

Definition lower (s : str) : str := lower_scan [] s.

Fixpoint lstrip (s : str) : str :=
  match s with
  | c :: s' => if is_space c then lstrip s' else s
  | [] => []
  end.

Definition rstrip (s : str) : str := rev (lstrip (rev s)).

Definition strip (s : str) : str := rstrip (lstrip s).

(** [" ".join(l)] and friends. *)
Fixpoint join (sep : str) (l : list str) : str :=
  match l with
  | [] => []
  | [x] => x
  | x :: l' => x ++ sep ++ join sep l'
  end.

Fixpoint starts_with (p s : str) : bool :=
  match p, s with
  | [], _ => true
  | a :: p', b :: s' => (a =? b)%N && starts_with p' s'
  | _ :: _, [] => false
  end.

(** [needle in hay] on strings. *)
Fixpoint str_in (needle hay : str) : bool :=
  starts_with needle hay ||
  match hay with
  | [] => false
  | _ :: hay' => str_in needle hay'
  end.

(** [b] is a literal contiguous part of [t]. *)
Definition substring (b t : str) : Prop :=
  exists pre post, t = pre ++ b ++ post.

(** ** The fragment of [re] the sources use

    Quantifiers are greedy and backtrack as in [re]; [Star] and [Plus]
    range over one-character classes, which is all the patterns need. *)

Inductive regex :=
| Eps
| Chr (c : N)
| Cls (p : N -> bool)
| Str (s : str)
| Seq (r1 r2 : regex)
| Alt (r1 r2 : regex)
| Star (p : N -> bool)
| Plus (p : N -> bool)
| Opt (r : regex)
| Bol
| Behind (p : N -> bool).

Fixpoint Cat (l : list regex) : regex :=
  match l with
  | [] => Eps
  | [r] => r
  | r :: l' => Seq r (Cat l')
  end.

Definition one_of (cs : str) (c : N) : bool := existsb (N.eqb c) cs.

Fixpoint drop_prefix (p s : str) : option str :=
  match p, s with
  | [], _ => Some s
  | a :: p', b :: s' => if (a =? b)%N then drop_prefix p' s' else None
  | _ :: _, [] => None
  end.

Definition last_or (prev : option N) (s : str) : option N :=
  match rev s with c :: _ => Some c | [] => prev end.

(** Greedy [x*]: take the longest run first, give one back at a time. *)
Fixpoint star_greedy (p : N -> bool) (k : option N -> str -> option str)
    (prev : option N) (s : str) : option str :=
  match s with
  | c :: s' =>
      if p c then
        match star_greedy p k (Some c) s' with
        | Some rest => Some rest
        | None => k prev s
        end
      else k prev s
  | [] => k prev s
  end.

(** [rmatch r prev s k]: match [r] at the head of [s], [prev] being the
    character before it, then continue with [k]; the result is what is
    left of [s] after the whole match. *)
Fixpoint rmatch (r : regex) (prev : option N) (s : str)
    (k : option N -> str -> option str) : option str :=
  match r with
  | Eps => k prev s
  | Chr c =>
      match s with
      | x :: s' => if (x =? c)%N then k (Some x) s' else None
      | [] => None
      end
  | Cls p =>
      match s with
      | x :: s' => if p x then k (Some x) s' else None
      | [] => None
      end
  | Str w =>
      match drop_prefix w s with
      | Some s' => k (last_or prev w) s'
      | None => None
      end
  | Seq r1 r2 => rmatch r1 prev s (fun prev' s' => rmatch r2 prev' s' k)
  | Alt r1 r2 =>
      match rmatch r1 prev s k with
      | Some rest => Some rest
      | None => rmatch r2 prev s k
      end
  | Star p => star_greedy p k prev s
  | Plus p =>
      match s with
      | x :: s' => if p x then star_greedy p k (Some x) s' else None
      | [] => None
      end
  | Opt r1 =>
      match rmatch r1 prev s k with
      | Some rest => Some rest
      | None => k prev s
      end
  | Bol => match prev with None => k prev s | Some _ => None end
  | Behind p =>
      match prev with
      | Some c => if p c then k prev s else None
      | None => None
      end
  end.

(** Length of the match of [r] at the head of [s], if there is one. *)
Definition match_len (r : regex) (prev : option N) (s : str) : option nat :=
  match rmatch r prev s (fun _ rest => Some rest) with
  | Some rest => Some (length s - length rest)
  | None => None
  end.

(** [re.match(r, s)] in a condition. *)
Definition re_match (r : regex) (s : str) : bool :=
  match match_len r None s with Some _ => true | None => false end.

(** [re.search(r, s)] in a condition: the leftmost position that matches. *)
Fixpoint search_from (r : regex) (prev : option N) (s : str) : bool :=
  match match_len r prev s with
  | Some _ => true
  | None =>
      match s with
      | [] => false
      | c :: s' => search_from r (Some c) s'
      end
  end.

Definition re_search (r : regex) (s : str) : bool := search_from r None s.

Definition cons_head (c : N) (l : list str) : list str :=
  match l with
  | p :: ps => (c :: p) :: ps
  | [] => [[c]]
  end.

(** [re.split]: scan left to right; a match of positive length closes
    the current piece and the scan resumes after it ([skip] counts the
    characters of the match still to be passed).  None of the patterns
    of the sources matches the empty string. *)
Fixpoint split_scan (r : regex) (prev : option N) (s : str) (skip : nat)
    : list str :=
  match s with
  | [] => [[]]
  | c :: s' =>
      match skip with
      | S n => split_scan r (Some c) s' n
      | O =>
          match match_len r prev s with
          | Some (S m) => [] :: split_scan r (Some c) s' m
          | _ => cons_head c (split_scan r (Some c) s' 0)
          end
      end
  end.

Definition re_split (r : regex) (s : str) : list str := split_scan r None s 0.

(** [re.sub(r, repl, s)], scanning as [re.split] does. *)
Fixpoint sub_scan (r : regex) (repl : str) (prev : option N) (s : str)
    (skip : nat) : str :=
  match s with
  | [] => []
  | c :: s' =>
      match skip with
      | S n => sub_scan r repl (Some c) s' n
      | O =>
          match match_len r prev s with
          | Some (S m) => repl ++ sub_scan r repl (Some c) s' m
          | _ => c :: sub_scan r repl (Some c) s' 0
          end
      end
  end.

Definition re_sub (r : regex) (repl s : str) : str := sub_scan r repl None s 0.

(** The patterns of [document_processor.py]. *)

(* r'\n\s*\n' *)
Definition PARAGRAPH_SEP : regex := Cat [Chr NL; Star is_space; Chr NL].
(* r'(?<=[.!?])\s+' *)
Definition SENTENCE_SEP : regex := Cat [Behind (one_of (lit ".!?")); Plus is_space].
(* r'^\s*\d+[\.\)]' *)
Definition NUMBERED : regex :=
  Cat [Bol; Star is_space; Plus is_digit; Cls (one_of (lit ".)"))].
(* r'^\s*[•\-\*]' *)
Definition BULLETED : regex :=
  Cat [Bol; Star is_space; Cls (one_of (BULLET :: lit "-*"))].
(* r'^\s*[•\-\*\d+[\.\)]]\s*': one class, closed by the first "]", then a
   literal "]" *)
Definition LEADING_MARKER : regex :=
  Cat [Bol; Star is_space;
       Cls (fun c => one_of (BULLET :: lit "-*") c || is_digit c ||
                     one_of (lit "+[.)") c);
       Chr 93; Star is_space].
(* r'\d+(\.\d+)?%' *)
Definition PERCENTAGE : regex :=
  Cat [Plus is_digit; Opt (Seq (Chr 46) (Plus is_digit)); Chr 37].
(* r'\$\d+' *)
Definition MONEY : regex := Cat [Chr 36; Plus is_digit].
(* r'\d{4}' *)
Definition YEAR : regex :=
  Cat [Cls is_digit; Cls is_digit; Cls is_digit; Cls is_digit].
(* r'\d+\s*(million|billion|trillion)' *)
Definition LARGE_NUMBER : regex :=
  Cat [Plus is_digit; Star is_space;
       Alt (Str (lit "million")) (Alt (Str (lit "billion")) (Str (lit "trillion")))].
(* r'\d+%|\d+\.\d+%' *)
Definition PERCENT_STAT : regex :=
  Alt (Cat [Plus is_digit; Chr 37])
      (Cat [Plus is_digit; Chr 46; Plus is_digit; Chr 37]).

Definition paragraphs_of (text : str) : list str := re_split PARAGRAPH_SEP text.
Definition sentences_of (para : str) : list str := re_split SENTENCE_SEP para.

(** ** The processed document *)

(** An entity found by [MockNLPModel._extract_mock_entities]. *)
Record entity := {
  ent_text : str;
  ent_start : nat;
  ent_end : nat;
  ent_type : string
}.

(** The dictionary [MockNLPModel.__call__] returns. *)
Record nlp_doc := {
  doc_text : str;
  doc_sentences : list str;
  doc_language : string;
  doc_tokens : list str;
  doc_entities : list entity
}.

(** What [process_document] stores under ["doc"] or under ["chunks"]. *)
Inductive analysed :=
| Whole (d : nlp_doc)
| Chunks (ds : list nlp_doc).

Record processed_doc := {
  pd_analysed : analysed;
  pd_text : str;
  pd_language : string
}.

(** ** Bullet extraction ([extract_bullet_points]) *)

Definition indicators : list str :=
  lit <$>
  [ "important"; "significant"; "key"; "main"; "primary";
    "essential"; "crucial"; "critical"; "fundamental";
    "therefore"; "thus"; "hence"; "accordingly"; "consequently";
    "as a result"; "in conclusion"; "to summarize";
    "must"; "should"; "shall"; "will"; "required";
    "noteworthy"; "notably"; "particularly"; "especially"; "specifically";
    "primarily"; "chiefly"; "mainly"; "predominantly"; "principally";
    "significantly"; "markedly"; "substantially"; "considerably";
    "undoubtedly"; "unquestionably"; "indisputably"; "indubitably";
    "evidently"; "obviously"; "plainly"; "patently"; "manifestly";
    "firstly"; "secondly"; "thirdly"; "finally"; "lastly";
    "in summary"; "in brief"; "in short"; "overall" ]%string.

Definition topic_sentence_indicators : list str :=
  lit <$>
  [ "this"; "these"; "such"; "the"; "our"; "their"; "we"; "they";
    "according"; "research"; "study"; "analysis"; "evidence"; "data";
    "report"; "survey"; "investigation"; "findings"; "results" ]%string.

(** [any(w in s for w in words)] *)
Definition any_in (words : list str) (s : str) : bool :=
  existsb (fun w => str_in w s) words.

(** [if b not in bullets: bullets.append(b)] *)
Definition append_new (bullets : list str) (b : str) : list str :=
  if bool_decide (b ∈ bullets) then bullets else bullets ++ [b].

(** Phase 1, the body of the loop over the sentences of a paragraph. *)
Definition phase1_sentence (bullets : list str) (sentence : str) : list str :=
  if length (strip sentence) <? 15 then bullets
  else if any_in indicators (lower sentence) ||
          re_match NUMBERED sentence || re_match BULLETED sentence
  then
    let clean_sentence := strip (re_sub LEADING_MARKER [] sentence) in
    match clean_sentence with
    | [] => bullets
    | _ :: _ => append_new bullets clean_sentence
    end
  else bullets.

Definition phase1_paragraph (bullets : list str) (para : str) : list str :=
  if length (strip para) <? 20 then bullets
  else foldl phase1_sentence bullets (sentences_of para).

Definition phase1 (paragraphs : list str) (bullets : list str) : list str :=
  foldl phase1_paragraph bullets paragraphs.

(** Phase 2, the loop over [sentences[1:]]. *)
Definition phase2_sentence (bullets : list str) (sentence : str) : list str :=
  if length (strip sentence) <? 15 then bullets
  else if any_in topic_sentence_indicators (lower sentence)
  then append_new bullets sentence
  else bullets.

Definition phase2_paragraph (bullets : list str) (para : str) : list str :=
  if length (strip para) <? 20 then bullets
  else
    let sentences := sentences_of para in
    let bullets1 :=
      match sentences with
      | first :: _ => if 15 <? length first then append_new bullets first
                      else bullets
      | [] => bullets
      end in
    foldl phase2_sentence bullets1 (drop 1 sentences).

Definition phase2 (paragraphs : list str) (bullets : list str) : list str :=
  if length bullets <? 15 then foldl phase2_paragraph bullets paragraphs
  else bullets.

Definition phase3_sentence (bullets : list str) (sentence : str) : list str :=
  if re_search PERCENTAGE sentence || re_search MONEY sentence ||
     re_search YEAR sentence || re_search LARGE_NUMBER (lower sentence)
  then append_new bullets sentence
  else bullets.

Definition phase3 (paragraphs : list str) (bullets : list str) : list str :=
  foldl (fun bs para => foldl phase3_sentence bs (sentences_of para))
        bullets paragraphs.

Definition QUESTION_MARK : N := 63%N.

Definition phase4_sentence (bullets : list str) (sentence : str) : list str :=
  if str_in [QUESTION_MARK] sentence && (20 <? length sentence)
  then append_new bullets sentence
  else bullets.

Definition phase4 (paragraphs : list str) (bullets : list str) : list str :=
  foldl (fun bs para => foldl phase4_sentence bs (sentences_of para))
        bullets paragraphs.

(** The accumulator [bullets] after the four phases. *)
Definition collect_bullets (text : str) : list str :=
  let paragraphs := paragraphs_of text in
  phase4 paragraphs (phase3 paragraphs (phase2 paragraphs (phase1 paragraphs []))).

Inductive category :=
| Conclusion | Example_ | KeyPoint | Statistic | Question
| Introduction | Summary | Point.

Definition prefix_of_category (c : category) : str :=
  lit match c with
      | Conclusion => "Conclusion: "
      | Example_ => "Example: "
      | KeyPoint => "Key Point: "
      | Statistic => "Statistic: "
      | Question => "Question: "
      | Introduction => "Introduction: "
      | Summary => "Summary: "
      | Point => "Point: "
      end.

(** The [if]/[elif] chain choosing the prefix of bullet [i] out of [n].
    [i < n * 0.2] and [i > n * 0.8] compare an integer with a float
    product; [n * 0.2] and [n * 0.8] round to the integer [n/5] and
    [4n/5] whenever these are integers, so the comparisons are those of
    the exact values. *)
Definition categorize (n i : nat) (bullet : str) : category :=
  let bullet_lower := lower bullet in
  if any_in (lit <$> ["therefore"; "thus"; "hence"; "result"; "consequently"]%string)
            bullet_lower then Conclusion
  else if any_in (lit <$> ["example"; "instance"; "illustrate"; "case"]%string)
                 bullet_lower then Example_
  else if any_in (lit <$> ["important"; "crucial"; "critical"; "essential"]%string)
                 bullet_lower then KeyPoint
  else if re_search PERCENT_STAT bullet then Statistic
  else if str_in [QUESTION_MARK] bullet then Question
  else if 5 * i <? n then Introduction
  else if 4 * n <? 5 * i then Summary
  else Point.

(** The pairs (category, bullet) in accumulation order. *)
Definition categorized_bullets (text : str) : list (category * str) :=
  let bullets := collect_bullets text in
  imap (fun i bullet => (categorize (length bullets) i bullet, bullet)) bullets.

Definition render_bullet (cb : category * str) : str :=
  prefix_of_category (fst cb) ++ snd cb.

Definition extract_bullet_points (pd : processed_doc) (language : string)
    : list str :=
  let enhanced_bullets := render_bullet <$> (categorized_bullets (pd_text pd)) in
  take 20 enhanced_bullets.

(** Removing the category prefix of a rendered bullet: the first of the
    eight prefixes the string starts with is dropped. *)
Definition all_categories : list category :=
  [Conclusion; Example_; KeyPoint; Statistic; Question; Introduction; Summary; Point].

Fixpoint strip_first_prefix (ps : list str) (s : str) : str :=
  match ps with
  | [] => s
  | p :: ps' =>
      match drop_prefix p s with
      | Some rest => rest
      | None => strip_first_prefix ps' s
      end
  end.

Definition strip_category_prefix (s : str) : str :=
  strip_first_prefix (prefix_of_category <$> all_categories) s.


(** ** Binary64 arithmetic

    A Python [float] is the rational it denotes.  [fl] rounds a
    rational to the nearest binary64 number, ties to even; the exponent
    range is left unbounded, the magnitudes met here (between [2^-53]
    and a few tens) being far from overflow and from the subnormals. *)

(** Nearest integer to [n / d] for [0 < d], ties to even. *)
Definition rne (n d : Z) : Z :=
  let q := (n / d)%Z in
  let r := (n mod d)%Z in
  if (2 * r <? d)%Z then q
  else if (d <? 2 * r)%Z then (q + 1)%Z
  else if Z.even q then q else (q + 1)%Z.

Definition pow2 (e : Z) : Q := (2 ^ e)%Q.

(** The exponent [e] with [2^e <= x < 2^(e+1)], for [0 < x]. *)
Definition floor_log2 (x : Q) : Z :=
  let d := (Z.log2 (Qnum x) - Z.log2 (Zpos (Qden x)))%Z in
  if Qle_bool (pow2 d) x then d else (d - 1)%Z.

Definition rne_Q (x : Q) : Z := rne (Qnum x) (Zpos (Qden x)).

Definition fl_pos (x : Q) : Q :=
  let ulp := pow2 (floor_log2 x - 52) in
  (inject_Z (rne_Q (x / ulp)) * ulp)%Q.

Definition fl (x : Q) : Q :=
  match Qnum x with
  | Z0 => 0%Q
  | Zpos _ => fl_pos x
  | Zneg _ => (- fl_pos (- x))%Q
  end.

Definition float_of_Z (n : Z) : Q := fl (inject_Z n).
Definition fadd (x y : Q) : Q := fl (x + y).
Definition fmul (x y : Q) : Q := fl (x * y).
Definition fdiv (x y : Q) : Q := fl (x / y).

(** [int(x)] on a float: truncation towards zero. *)
Definition int_of_float (x : Q) : Z :=
  if Qle_bool 0 x then Qfloor x else (- Qfloor (- x))%Z.

(** Decimal digits of a natural number. *)
Definition decimal (n : N) : str :=
  lit (NilZero.string_of_uint (N.to_uint n)).

(** [f"{x:.2f}"]: the exact value rounded to two decimals, ties to even. *)
Definition format_2f (x : Q) : str :=
  let n := rne (Z.abs (Qnum x) * 100) (Zpos (Qden x)) in
  let body := decimal (Z.to_N (n / 100)) ++ lit "." ++
              decimal (Z.to_N ((n mod 100) / 10)) ++
              decimal (Z.to_N (n mod 10)) in
  if (Qnum x <? 0)%Z then lit "-" ++ body else body.

(** ** Effects: the random generator and exceptions *)

(** The state of [random]: the tape of the 53-bit integers it will
    draw next, and how many were drawn. *)
Record rng := { tape : nat -> N; drawn : nat }.

Inductive outcome (A : Type) :=
| Return (a : A)
| Raise (exn : string).
Arguments Return {A} a.
Arguments Raise {A} exn.

Definition M (A : Type) : Type := rng -> outcome A * rng.

Definition ret {A} (a : A) : M A := fun g => (Return a, g).
Definition raise {A} (exn : string) : M A := fun g => (Raise exn, g).

Definition bind {A B} (m : M A) (f : A -> M B) : M B :=
  fun g =>
    match m g with
    | (Return a, g') => f a g'
    | (Raise exn, g') => (Raise exn, g')
    end.

(** [try: body / except Exception: handler] *)
Definition try_except {A} (body handler : M A) : M A :=
  fun g =>
    match body g with
    | (Return a, g') => (Return a, g')
    | (Raise _, g') => handler g'
    end.

Notation "'let*' x ':=' m 'in' k" := (bind m (fun x => k))
  (at level 10, x name, m at level 100, k at level 200).

(** [d[key]] on a dictionary. *)
Definition getitem {V} (d : gmap string V) (key : string) : M V :=
  match d !! key with
  | Some v => ret v
  | None => raise "KeyError"
  end.

(** [for x in l: acc = f(acc, x)] *)
Fixpoint for_each {A B} (l : list B) (acc : A) (f : A -> B -> M A) : M A :=
  match l with
  | [] => ret acc
  | x :: l' => let* acc' := f acc x in for_each l' acc' f
  end.

(** [random.random()]: the next draw [k], as the float [k / 2^53]. *)
Definition random_random : M Q :=
  fun g =>
    let k := (tape g (drawn g) mod 2 ^ 53)%N in
    (Return (Qmake (Z.of_N k) (2 ^ 53)), {| tape := tape g; drawn := S (drawn g) |}).

(** ** The mock pipelines ([nlp_models.py]) *)

Record MockTransformerPipeline := {
  task : string;
  language : string
}.

Definition get_transformer_model (task language : string)
    : MockTransformerPipeline :=
  {| task := task; language := language |}.

(** The keyword arguments the callers pass. *)
Record kwargs := {
  kw_max_length : option nat;
  kw_min_length : option nat;
  kw_candidate_labels : option (list string)
}.

(** An element of a list a pipeline returns: a dictionary, with or
    without the key ["summary_text"], or something else. *)
Inductive item :=
| IDict (summary_text : option str)
| IOther.

(** The loosely shaped results of a pipeline. *)
Inductive pyresult :=
| RList (l : list item)
| RClassification (labels : option (list string)) (scores : option (list Q))
    (sequence : str)
| RError (message : str)
| RText (s : str).

Definition ELLIPSIS : str := lit "...".
Definition SPACE : str := lit " ".

Definition transitions : list str :=
  lit <$> ["Additionally, "; "Furthermore, "; "Moreover, "; "In addition, "; "Also, "]%string.

(** [l[i]] for an index in range. *)
Definition at_index (l : list str) (i : nat) : str := nth i l [].

(** The loop that pads the summary up to [min_length]. *)
Fixpoint additional_text (summary additional : str) (min_length : nat)
    (remaining : list str) : str :=
  match remaining with
  | [] => additional
  | s :: rest =>
      if length (summary ++ SPACE ++ additional) <? min_length
      then additional_text summary (additional ++ SPACE ++ s) min_length rest
      else additional
  end.

Definition _generate_summary (text : str) (max_length min_length : nat) : pyresult :=
  let sentences := sentences_of text in
  let n := length sentences in
  let summary_sentences :=
    if 10 <? n then
      [ at_index sentences 0;
        if 1 <? n then at_index sentences 1 else [];
        at_index sentences (n / 4);
        at_index sentences (n / 2);
        at_index sentences ((3 * n) / 4);
        if 2 <? n then at_index sentences (n - 2) else [];
        if 1 <? n then at_index sentences (n - 1) else [] ]
    else if 5 <? n then
      [ at_index sentences 0;
        if 1 <? n then at_index sentences 1 else [];
        at_index sentences (n / 2);
        if 2 <? n then at_index sentences (n - 2) else [];
        if 1 <? n then at_index sentences (n - 1) else [] ]
    else sentences in
  let filtered_sentences :=
    List.filter (fun s => negb (bool_decide (strip s = []))) summary_sentences in
  let m := length filtered_sentences in
  let summary :=
    if 2 <? m then
      let enhanced_sentences :=
        [at_index filtered_sentences 0] ++
        imap (fun i sentence =>
                at_index transitions (i mod length transitions) ++ lstrip sentence)
             (take (m - 2) (drop 1 filtered_sentences)) ++
        [lit "Finally, " ++ lstrip (at_index filtered_sentences (m - 1))] in
      join SPACE enhanced_sentences
    else join SPACE filtered_sentences in
  let summary :=
    if (length summary <? min_length) && (min_length <? length text) then
      let remaining_sentences :=
        List.filter (fun s => negb (bool_decide (s ∈ filtered_sentences))) sentences in
      summary ++ additional_text summary [] min_length remaining_sentences
    else summary in
  let summary :=
    if max_length <? length summary then take max_length summary ++ ELLIPSIS
    else summary in
  RList [IDict (Some summary)].

Definition _translate_text (self : MockTransformerPipeline) (text : str) : pyresult :=
  RText (if 100 <? length text
         then lit "[Translated from " ++ lit (language self) ++
              lit " to English]: " ++ take 100 text ++ ELLIPSIS
         else text).


(** The keyword table of [_classify_text], in the order of the source. *)
Definition keyword_categories : list (string * list str) :=
  [ ("Complaint"%string,
       lit <$> ["issue"; "problem"; "complaint"; "dissatisfied"; "disappointed";
                "poor"; "bad"; "terrible"]%string);
    ("Request"%string,
       lit <$> ["please"; "request"; "kindly"; "could you"; "would you";
                "need"; "want"; "asking"]%string);
    ("Update/Notification"%string,
       lit <$> ["update"; "notify"; "inform"; "announce"; "notice";
                "advisory"; "bulletin"; "information"]%string);
    ("Appreciation"%string,
       lit <$> ["thank"; "appreciate"; "grateful"; "excellent"; "good";
                "well done"; "pleased"; "happy"]%string) ].

Definition default_candidate_labels : list string :=
  ["Complaint"; "Request"; "Update/Notification"; "Appreciation"]%string.

(** [scores[category] += 1] on a [defaultdict(int)]. *)
Definition increment (scores : gmap string Z) (category : string) : gmap string Z :=
  <[category := (default 0 (scores !! category) + 1)%Z]> scores.

(** The loops counting the keywords present in [text_lower]. *)
Definition count_keywords (text_lower : str) : gmap string Z :=
  foldl (fun scores '(category, keywords) =>
           foldl (fun scores keyword =>
                    if str_in keyword text_lower then increment scores category
                    else scores)
                 scores keywords)
        ∅ keyword_categories.

(** [1 + int(random.random() * 9)] *)
Definition random_score : M Z :=
  let* r := random_random in
  ret (1 + int_of_float (fmul r (float_of_Z 9)))%Z.

(** [scores[category] = 1 + int(random.random() * 9)] *)
Definition assign_random (scores : gmap string Z) (category : string)
    : M (gmap string Z) :=
  let* v := random_score in ret (<[category := v]> scores).

(** [if not scores: for category in candidate_labels: ...] *)
Definition fallback_scores (scores : gmap string Z) (candidate_labels : list string)
    : M (gmap string Z) :=
  if bool_decide (scores = ∅) then for_each candidate_labels scores assign_random
  else ret scores.

(** The dictionary [scores] when the labels are sorted. *)
Definition final_scores (text : str) (candidate_labels : list string)
    : M (gmap string Z) :=
  fallback_scores (count_keywords (lower text)) candidate_labels.

(** [sorted(l, key=key, reverse=True)]: the sort is stable, so among
    equal keys the order of [l] is kept, also with [reverse=True]. *)
Fixpoint insert_desc (key : string -> Z) (x : string) (l : list string)
    : list string :=
  match l with
  | [] => [x]
  | y :: l' =>
      if (key x <? key y)%Z then y :: insert_desc key x l' else x :: l
  end.

Fixpoint sorted_desc (key : string -> Z) (l : list string) : list string :=
  match l with
  | [] => []
  | x :: l' => insert_desc key x (sorted_desc key l')
  end.

(** [scores.get(label, 0.1)] as a float: a count or the literal [0.1]. *)
Definition weight (scores : gmap string Z) (label : string) : Q :=
  match scores !! label with
  | Some n => float_of_Z n
  | None => fl (1 # 10)
  end.

(** [sum(...)] of floats: additions from the integer [0], left to right. *)
Definition float_sum (l : list Q) : Q := foldl fadd 0%Q l.

(** [x / y] on floats. *)
Definition float_div (x y : Q) : M Q :=
  if Qeq_bool y 0 then raise "ZeroDivisionError" else ret (fdiv x y).

(** [[f(x) for x in l]] *)
Fixpoint list_comprehension {A B} (f : A -> M B) (l : list A) : M (list B) :=
  match l with
  | [] => ret []
  | x :: l' =>
      let* y := f x in
      let* ys := list_comprehension f l' in
      ret (y :: ys)
  end.

Definition _classify_text (text : str) (kw : kwargs) : M pyresult :=
  let candidate_labels := default default_candidate_labels (kw_candidate_labels kw) in
  let* scores := final_scores text candidate_labels in
  let ordered_labels :=
    sorted_desc (fun label => default 0%Z (scores !! label)) candidate_labels in
  let total := float_sum (weight scores <$> ordered_labels) in
  let* normalized_scores :=
    list_comprehension (fun label => float_div (weight scores label) total)
                       ordered_labels in
  ret (RClassification (Some ordered_labels) (Some normalized_scores)
         (if 100 <? length text then take 100 text ++ ELLIPSIS else text)).

(** [MockTransformerPipeline.__call__] *)
Definition pipeline_call (self : MockTransformerPipeline) (text : str) (kw : kwargs)
    : M pyresult :=
  if String.eqb (task self) "summarization" then
    ret (_generate_summary text (default 300 (kw_max_length kw))
                                (default 150 (kw_min_length kw)))
  else if String.eqb (task self) "zero-shot-classification" then
    _classify_text text kw
  else if String.eqb (task self) "translation" then
    ret (_translate_text self text)
  else ret (RError (lit "Unsupported task: " ++ lit (task self))).

(** ** Summaries ([get_summary]) *)

Definition summary_kwargs (max_length min_length : nat) : kwargs :=
  {| kw_max_length := Some max_length; kw_min_length := Some min_length;
     kw_candidate_labels := None |}.

(** The shape test on the result and [result[0].get('summary_text', d)]. *)
Definition summary_text_or (result : pyresult) (d : str) : str :=
  match result with
  | RList (IDict (Some s) :: _) => s
  | _ => d
  end.

Section Summarizer.
(** The summarization model: any callable that returns or raises. *)
Variable summarizer : str -> kwargs -> M pyresult.

(** The [try] of the loop over the paragraphs. *)
Definition summarize_paragraph (max_length min_length : nat) (para : str) : M str :=
  try_except
    (let* result := summarizer para (summary_kwargs (max_length / 2) (min_length / 2)) in
     ret (summary_text_or result (take 100 para ++ ELLIPSIS)))
    (ret (take 100 para ++ ELLIPSIS)).

Definition paragraph_summaries (max_length min_length : nat) (paragraphs : list str)
    : M (list str) :=
  for_each paragraphs []
    (fun summaries para =>
       if 200 <? length (strip para) then
         let* para_summary := summarize_paragraph max_length min_length para in
         ret (summaries ++ [para_summary])
       else ret summaries).

Definition combine_summaries (max_length min_length : nat) (summaries : list str)
    : M str :=
  let combined_summary := join SPACE summaries in
  if 1000 <? length combined_summary then
    try_except
      (let* result := summarizer combined_summary (summary_kwargs max_length min_length) in
       ret (summary_text_or result (take 200 combined_summary ++ ELLIPSIS)))
      (ret combined_summary)
  else ret combined_summary.

(** The extractive fallback of the short path. *)
Definition first_sentences (text : str) : str :=
  join SPACE (take 3 (sentences_of text)) ++ ELLIPSIS.

Definition summarize_directly (max_length min_length : nat) (text : str) : M str :=
  try_except
    (let* result := summarizer text (summary_kwargs max_length min_length) in
     ret (summary_text_or result (take 150 text ++ ELLIPSIS)))
    (ret (first_sentences text)).

Definition get_summary_with (pd : processed_doc) (language : string) : M str :=
  let text := pd_text pd in
  let text_length := length text in
  let max_length := min 150 (text_length / 4) in
  let min_length := min 30 (max_length / 2) in
  if 1000 <? text_length then
    let paragraphs := paragraphs_of text in
    let* summaries := paragraph_summaries max_length min_length paragraphs in
    match summaries with
    | _ :: _ :: _ => combine_summaries max_length min_length summaries
    | [summary] => ret summary
    | [] => ret (take max_length text ++ ELLIPSIS)
    end
  else summarize_directly max_length min_length text.
End Summarizer.

Definition get_summary (pd : processed_doc) (language : string) : M str :=
  get_summary_with (pipeline_call (get_transformer_model "summarization" language))
                   pd language.


(** ** Intent classification ([classify_intent]) *)

Definition categories : list string :=
  ["Complaint"; "Request"; "Update/Notification"; "Appreciation"]%string.

(** [categories[0]] *)
Definition first_category : string := nth 0 categories EmptyString.

Definition classify_kwargs : kwargs :=
  {| kw_max_length := None; kw_min_length := None;
     kw_candidate_labels := Some categories |}.

Inductive confidence := High | Medium | Low.

(** [score > 0.8], [score > 0.6], else low; [0.8] and [0.6] are the
    floats of these literals. *)
Definition confidence_level (score : Q) : confidence :=
  if negb (Qle_bool score (fl (8 # 10))) then High
  else if negb (Qle_bool score (fl (6 # 10))) then Medium
  else Low.

Definition confidence_phrases (c : confidence) : str :=
  lit match c with
      | High => "with high confidence"
      | Medium => "with moderate confidence"
      | Low => "with low confidence"
      end.

Definition confidence_explanations (c : confidence) : str :=
  lit match c with
      | High => "The confidence level is high, suggesting strong indicators of this intent in the text."
      | Medium => "The moderate confidence level indicates some clear indicators of this intent, though some aspects may be ambiguous."
      | Low => "The low confidence level suggests the intent classification is tentative, as the text may contain mixed signals or limited clear indicators."
      end.

(** [explanations]: for each intent its ["main"] text and its ["details"]. *)
Definition explanations : gmap string (str * list str) :=
  list_to_map
  [ ("Complaint"%string,
     (lit "The document contains expressions of dissatisfaction or descriptions of problems that need to be addressed.",
      lit <$>
      [ "The text includes language that indicates dissatisfaction, frustration, or concerns.";
        "There may be descriptions of issues, problems, or negative experiences.";
        "The author appears to be seeking resolution, correction, or acknowledgment of a problem.";
        "The document likely uses words with negative connotations to describe a situation or experience.";
        "There may be explicit requests for corrective action or compensation." ]%string));
    ("Request"%string,
     (lit "The document is primarily asking for information, action, or consideration of a specific matter.",
      lit <$>
      [ "The text contains explicit requests for action, information, or assistance.";
        "There is a clear expectation of a response or action from the recipient.";
        "The language is typically polite and formal, using phrases like 'kindly', 'please', or 'would you'.";
        "The document specifies what is being requested and often includes timeframes or deadlines.";
        "There may be references to previous communications or established processes." ]%string));
    ("Update/Notification"%string,
     (lit "The document provides information, updates, or notifications about policies, procedures, or events.",
      lit <$>
      [ "The text focuses on delivering information rather than requesting action.";
        "There are statements of fact, announcements, or updates on specific topics.";
        "The document may include dates, times, locations, or other specific details about events or changes.";
        "The language is generally neutral and informative, rather than persuasive or emotional.";
        "There may be references to attachments, additional resources, or follow-up communications." ]%string));
    ("Appreciation"%string,
     (lit "The document expresses gratitude, acknowledgment, or positive feedback.",
      lit <$>
      [ "The text contains expressions of thanks, gratitude, or appreciation.";
        "There are positive descriptions of actions, services, or assistance received.";
        "The document may acknowledge specific individuals, teams, or organizations.";
        "The language is warm, appreciative, and uses positive adjectives.";
        "There may be mentions of the positive impact of the actions being acknowledged." ]%string)) ].

(** [intent_keywords], the table of the explanation. *)
Definition intent_keywords : gmap string (list str) :=
  list_to_map
  [ ("Complaint"%string,
     lit <$> ["issue"; "problem"; "concerned"; "dissatisfied"; "disappointed";
              "fix"; "resolve"; "failing"]%string);
    ("Request"%string,
     lit <$> ["please"; "request"; "kindly"; "would you"; "could you";
              "need"; "require"; "provide"]%string);
    ("Update/Notification"%string,
     lit <$> ["inform"; "announce"; "update"; "notification"; "advise";
              "reminder"; "schedule"; "upcoming"]%string);
    ("Appreciation"%string,
     lit <$> ["thank"; "appreciate"; "grateful"; "excellent"; "outstanding";
              "wonderful"; "helpful"; "generous"]%string) ].

(** [[word for word in keywords if word in text_sample]] *)
Definition found_keywords (keywords : list str) (text : str) : list str :=
  let text_sample := lower (take 2000 text) in
  List.filter (fun word => str_in word text_sample) keywords.

(** ["\nKeywords detected: " + ", ".join(found_keywords[:5])] *)
Definition keywords_line (found : list str) : str :=
  NL :: lit "Keywords detected: " ++ join (lit ", ") (take 5 found).

(** The parts of the explanation, joined: [entry] is
    [explanations[intent]], [keywords] is [intent_keywords[intent]]. *)
Definition explanation_text (entry : str * list str) (keywords : list str)
    (score : Q) (text : str) : str :=
  let level := confidence_level score in
  let confidence_phrase := confidence_phrases level in
  let explanation_parts :=
    [ fst entry ++ lit " The document has been classified " ++ confidence_phrase ++
      lit " (" ++ format_2f score ++ lit ")."; NL :: lit "Detailed analysis:" ] ++
    ((fun detail => NL :: BULLET :: lit " " ++ detail) <$> snd entry) in
  let found := found_keywords keywords text in
  let explanation_parts :=
    match found with
    | [] => explanation_parts
    | _ :: _ => explanation_parts ++ [keywords_line found]
    end in
  let explanation_parts :=
    explanation_parts ++ [NL :: confidence_explanations level] in
  concat explanation_parts.

Section Classifier.
(** The classification model: any callable that returns or raises. *)
Variable classifier : str -> kwargs -> M pyresult.

(** The [try] of [classify_intent]: the top label and its score. *)
Definition top_intent (sample_text : str) : M (string * Q) :=
  try_except
    (let* result := classifier sample_text classify_kwargs in
     match result with
     | RClassification (Some labels) (Some scores) _ =>
         ret (match labels with l :: _ => l | [] => first_category end,
              match scores with x :: _ => x | [] => 1 # 2 end)
     | _ => ret (first_category, 1 # 2)
     end)
    (ret (first_category, 1 # 2)).

Definition explain (intent : string) (score : Q) (text : str) : M str :=
  let* entry := getitem explanations intent in
  let* keywords := getitem intent_keywords intent in
  ret (explanation_text entry keywords score text).

Definition classify_intent_with (pd : processed_doc) (language : string)
    : M (string * str) :=
  let text := pd_text pd in
  let sample_text := take 1000 text in
  let* top := top_intent sample_text in
  let* explanation := explain (fst top) (snd top) text in
  ret (fst top, explanation).
End Classifier.

Definition classify_intent (pd : processed_doc) (language : string)
    : M (string * str) :=
  classify_intent_with
    (pipeline_call (get_transformer_model "zero-shot-classification" language))
    pd language.

(** ** Entity annotation ([MockNLPModel], [process_document]) *)

Definition entity_patterns : gmap string (list (string * string)) :=
  list_to_map
  [ ("English",
     [ ("\b[A-Z][a-z]+ [A-Z][a-z]+\b", "PERSON");
       ("\b[A-Z][a-z]+ \d+\b", "DATE");
       ("\b\d+ [A-Z][a-z]+ (Street|Road|Avenue)\b", "LOCATION");
       ("\b[A-Z][A-Za-z]+ (Corporation|Inc|Ltd)\b", "ORG") ]);
    ("Hindi",
     [ ("\b[A-Z][a-z]+ [A-Z][a-z]+\b", "PERSON"); ("\b\d+ [A-Za-z]+\b", "DATE") ]);
    ("Marathi",
     [ ("\b[A-Z][a-z]+ [A-Z][a-z]+\b", "PERSON"); ("\b\d+ [A-Za-z]+\b", "DATE") ]);
    ("Tamil",
     [ ("\b[A-Z][a-z]+ [A-Z][a-z]+\b", "PERSON"); ("\b\d+ [A-Za-z]+\b", "DATE") ])
  ]%string.

(** [text.split()] *)
Fixpoint split_whitespace (s : str) (word : str) : list str :=
  match s with
  | [] => match word with [] => [] | _ => [word] end
  | c :: s' =>
      if is_space c then
        match word with
        | [] => split_whitespace s' []
        | _ => word :: split_whitespace s' []
        end
      else split_whitespace s' (word ++ [c])
  end.

(** [text[i:i + size] for i in range(0, len(text), size)] *)
Fixpoint chunks_of (fuel size : nat) (s : str) : list str :=
  match fuel, s with
  | S fuel', _ :: _ => take size s :: chunks_of fuel' size (drop size s)
  | _, _ => []
  end.

Section Entities.
(** [re.finditer] on the entity patterns, which use the word boundary
    of [re]: the spans (start, end) of the matches in the text. *)
Variable finditer : string -> str -> list (nat * nat).

Definition _extract_mock_entities (language : string) (text : str) : list entity :=
  let patterns :=
    default (default [] (entity_patterns !! "English"%string))
            (entity_patterns !! language) in
  flat_map
    (fun '(pattern, entity_type) =>
       (fun '(start, stop) =>
          {| ent_text := take (stop - start) (drop start text);
             ent_start := start; ent_end := stop; ent_type := entity_type |})
       <$> finditer pattern text)
    patterns.

(** [MockNLPModel(language)(text)] *)
Definition nlp (language : string) (text : str) : nlp_doc :=
  {| doc_text := text;
     doc_sentences := sentences_of text;
     doc_language := language;
     doc_tokens := split_whitespace text [];
     doc_entities := _extract_mock_entities language text |}.

Definition max_chunk_size : nat := N.to_nat 100000.

Definition process_document (text : str) (language : string) : processed_doc :=
  if length text <=? max_chunk_size then
    {| pd_analysed := Whole (nlp language text);
       pd_text := text; pd_language := language |}
  else
    {| pd_analysed := Chunks (nlp language <$> chunks_of (length text) max_chunk_size text);
       pd_text := text; pd_language := language |}.
End Entities.


(** ** The cache of models ([load_model_for_language]) *)

(** A [MockNLPModel] holds its language and nothing else. *)
Record MockNLPModel := { model_language : string }.

(** [load_model_for_language], the dictionary [_loaded_models] being
    passed in and out. *)
Definition load_model_for_language (language : string)
    (loaded : gmap string MockNLPModel) : MockNLPModel * gmap string MockNLPModel :=
  match loaded !! language with
  | Some nlp => (nlp, loaded)
  | None =>
      let nlp := {| model_language := language |} in
      (nlp, <[language := nlp]> loaded)
  end.

(** Every model of the cache is stored under its own language. *)
Definition cache_ok (loaded : gmap string MockNLPModel) : Prop :=
  forall language nlp, loaded !! language = Some nlp -> model_language nlp = language.

(** ** The PDF report ([export_utils.py]) *)

(** [s.replace(c, repl)] for a one-character [c]. *)
Definition replace_char (c : N) (repl : str) (s : str) : str :=
  flat_map (fun x => if (x =? c)%N then repl else [x]) s.

(** The dictionary [replacements], in insertion order. *)
Definition replacements : list (N * str) :=
  [ (0x2022, lit "-"); (0x2192, lit "->"); (0x2190, lit "<-");
    (0x2713, lit "v"); (0x2717, lit "x"); (0x2019, lit "'");
    (0x2018, lit "'"); (0x201C, [34]); (0x201D, [34]);
    (0x2026, lit "..."); (0x2014, lit "-"); (0x2013, lit "-");
    (0xB4, lit "'"); (96, lit "'") ]%N.

(** [s.encode('latin-1', 'replace').decode('latin-1')]: a code point
    Latin-1 does not have becomes a question mark. *)
Definition latin1_replace (s : str) : str :=
  (fun c => if (c <=? 255)%N then c else QUESTION_MARK) <$> s.

Definition _clean_text_for_pdf (text : option str) : str :=
  match text with
  | None => []
  | Some text =>
      latin1_replace
        (foldl (fun text '(char, replacement) => replace_char char replacement text)
               text replacements)
  end.

(** [s.split(sep, 1)] when [sep] occurs in [s]: what is before and what
    is after its first occurrence. *)
Fixpoint split_once (sep s : str) : option (str * str) :=
  match drop_prefix sep s with
  | Some rest => Some ([], rest)
  | None =>
      match s with
      | [] => None
      | c :: s' =>
          match split_once sep s' with
          | Some (head, rest) => Some (c :: head, rest)
          | None => None
          end
      end
  end.

Definition report_prefixes : list str :=
  lit <$> [ "Key Point"; "Conclusion"; "Example"; "Statistic";
            "Question"; "Introduction"; "Summary"; "Point" ]%string.

(** The value of [item_text] that [chapter_body] hands to
    [textwrap.wrap], for one item of a list of bullet points. *)
Definition item_text (item : str) : str :=
  let item_text := _clean_text_for_pdf (Some item) in
  match split_once (lit ": ") item_text with
  | Some (head, rest) =>
      if bool_decide (head ∈ report_prefixes) then rest else item_text
  | None => item_text
  end.

(** A code point the cleaning leaves as it is. *)
Definition plain_latin1 (c : N) : Prop :=
  (c <= 255)%N /\ c <> 96%N /\ c <> 180%N.

(** The names [chapter_body] looks for, by category. *)
Definition name_of_category (c : category) : str :=
  lit match c with
      | Conclusion => "Conclusion"
      | Example_ => "Example"
      | KeyPoint => "Key Point"
      | Statistic => "Statistic"
      | Question => "Question"
      | Introduction => "Introduction"
      | Summary => "Summary"
      | Point => "Point"
      end.

(** ** Text clean-up ([file_handler.clean_text]) *)

(* r'\s+' *)
Definition WHITESPACE : regex := Plus is_space.

Definition SP : N := 32%N.            (* one space *)

(** [file_handler.clean_text] *)
Definition clean_text (text : str) : str :=
  let text := re_sub WHITESPACE [SP] text in
  let text := re_sub PARAGRAPH_SEP [NL; NL] text in
  strip text.

(** What [re.sub(r'\s+', ' ', _)] comes to: each maximal run of
    whitespace becomes one space; [in_run] tells that the character
    before was whitespace. *)
Fixpoint collapse (in_run : bool) (s : str) : str :=
  match s with
  | [] => []
  | c :: s' =>
      if is_space c then
        if in_run then collapse true s' else SP :: collapse true s'
      else c :: collapse false s'
  end.

(** Whitespace of [s] is made of single spaces only. *)
Fixpoint single_spaced (prev_space : bool) (s : str) : bool :=
  match s with
  | [] => true
  | c :: s' =>
      if is_space c then (c =? SP)%N && negb prev_space && single_spaced true s'
      else single_spaced false s'
  end.

Fixpoint run (p : N -> bool) (s : str) : nat :=
  match s with
  | c :: s' => if p c then S (run p s') else 0
  | [] => 0
  end.


(** ** Sample inputs *)

(** A processed document holding [text]; the entry points read nothing
    else of it. *)
Definition document (text : str) : processed_doc :=
  {| pd_analysed := Chunks []; pd_text := text; pd_language := "English" |}.

(** A generator whose draws are all zero. *)
Definition zero_rng : rng := {| tape := fun _ => 0%N; drawn := 0 |}.

(** A model that always raises. *)
Definition failing_model : str -> kwargs -> M pyresult :=
  fun _ _ => raise "RuntimeError".

(** One paragraph of 1200 characters. *)
Definition long_paragraph : str :=
  concat (replicate 60 (lit "This is a sentence. ")).


(** Six paragraphs of 180 characters. *)
Definition short_paragraphs : str :=
  join [NL; NL] (replicate 6 (concat (replicate 9 (lit "This is a sentence. ")))).

Definition budget_text : str :=
  lit "The budget grew by 12% in 2023. Why did the committee approve the plan?".

Definition important_text : str :=
  lit "This is an important decision for the council.".

Definition council_text : str :=
  lit "The council met on Monday. They discussed the new road.".


(** ** Notions used in the statements *)

(** A pattern anchored by [^] matches nowhere but at the start. *)
Definition anchored (r : regex) : Prop :=
  forall c s, match_len r (Some c) s = None.

(** What every phase of the extraction keeps: no bullet twice, every
    bullet a part of the document. *)
Definition bullets_ok (text : str) (bullets : list str) : Prop :=
  NoDup bullets /\ Forall (fun b => substring b text) bullets.

(** The computation returns a value, from every state. *)
Definition returns {A} (m : M A) : Prop :=
  forall g, exists a g', m g = (Return a, g').

(** [a] comes before [b] in [l]. *)
Definition before (a b : string) (l : list string) : Prop :=
  exists l1 l2 l3, l = l1 ++ a :: l2 ++ b :: l3.

Definition descending (key : string -> Z) (l : list string) : Prop :=
  StronglySorted (fun a b => (key b <= key a)%Z) l.

Definition positive_scores (scores : gmap string Z) : Prop :=
  forall label n, scores !! label = Some n -> (1 <= n)%Z.

(** No keyword of any category occurs in the lower-cased sample. *)
Definition no_keyword (text_lower : str) : Prop :=
  forall category keywords keyword,
    (category, keywords) ∈ keyword_categories ->
    keyword ∈ keywords ->
    ~ substring keyword text_lower.

Definition CAPITAL_K : N := 75%N.

(** The summarization pipeline of the repository, as [get_summary]
    obtains it. *)
Definition mock_summarizer (language : string) : str -> kwargs -> M pyresult :=
  pipeline_call (get_transformer_model "summarization" language).

(** What a step of a phase does to the accumulator of bullets. *)

(** [f] leaves the accumulator alone or appends one new string that
    satisfies [Q]. *)
Definition appends (Q : str -> Prop) {A} (f : list str -> A -> list str) : Prop :=
  forall bs x, f bs x = bs \/ exists b, Q b /\ f bs x = append_new bs b.

(** What a step that [appends] keeps. *)
Definition kept_by_appending (Q : str -> Prop) (P : list str -> Prop) : Prop :=
  forall bs b, Q b -> P bs -> P (append_new bs b).

(** [.], [!] or [?] *)
Definition terminator (c : N) : bool := one_of (lit ".!?") c.

(** A terminator directly followed by white space occurs in [s], the
    character before [s] being [prev]. *)
Fixpoint has_boundary (prev : option N) (s : str) : bool :=
  match s with
  | [] => false
  | c :: s' =>
      match prev with
      | Some t => terminator t && is_space c
      | None => false
      end || has_boundary (Some c) s'
  end.

(** How many of the [keywords] occur in [text_lower]. *)
Definition matches (keywords : list str) (text_lower : str) : nat :=
  length (List.filter (fun keyword => str_in keyword text_lower) keywords).


(** * Properties *)

(** ** The model on small inputs *)

Example paragraphs_of_example :
  paragraphs_of (lit "a" ++ [NL; NL; NL] ++ lit "b" ++ [NL; 32%N; NL] ++ lit "  c" ++
                 [NL] ++ lit " d" ++ [NL; NL]) =
  [lit "a"; lit "b"; lit "  c" ++ [NL] ++ lit " d"; []].
Proof. reflexivity. Qed.

Example sentences_of_example :
  sentences_of (lit "Hi.  Yo! " ++ [NL] ++ lit " ok? end. ") =
  [lit "Hi."; lit "Yo!"; lit "ok?"; lit "end."; []].
Proof. reflexivity. Qed.

Example numbered_marker_is_a_sentence :
  sentences_of (lit "1. Apples are red fruit.") = [lit "1."; lit "Apples are red fruit."].
Proof. reflexivity. Qed.

Example leading_marker_needs_a_bracket :
  re_sub LEADING_MARKER [] (lit "  1] abc") = lit "abc" /\
  re_sub LEADING_MARKER [] (lit "1) abc") = lit "1) abc".
Proof. split; reflexivity. Qed.

Example fl_tenth : (fl (1 # 10) == 3602879701896397 # 2 ^ 55)%Q.
Proof. vm_compute. reflexivity. Qed.

Example format_2f_examples :
  format_2f (1 # 2) = lit "0.50" /\ format_2f (1 # 8) = lit "0.12" /\
  format_2f (fl (3 # 1) / fl (33 # 10))%Q = lit "0.91".
Proof. vm_compute. repeat split. Qed.

Example request_example :
  exists explanation,
    classify_intent
      (document (lit "Please provide the requested documents by Friday. Kindly respond at your earliest convenience."))
      "English" zero_rng = (Return ("Request"%string, explanation), zero_rng) /\
    str_in (lit "Keywords detected: please") explanation = true.
Proof. eexists. split; vm_compute; reflexivity. Qed.

(** ** Binary64 rounding is monotone and idempotent *)

Section Rounding.
Local Open Scope Z_scope.

Lemma rne_spec n d : 0 < d ->
  let q := rne n d in
  2 * n - d <= 2 * q * d <= 2 * n + d /\
  (2 * q * d = 2 * n + d -> Z.even q = true) /\
  (2 * q * d = 2 * n - d -> Z.even q = true).
Proof.
  intros Hd. unfold rne.
  pose proof (Z.div_mod n d ltac:(lia)) as Hdm.
  pose proof (Z.mod_pos_bound n d Hd) as Hm.
  set (q := n / d) in *. set (r := n mod d) in *.
  destruct (Z.ltb_spec (2 * r) d).
  - cbn zeta. repeat split; try nia.
  - destruct (Z.ltb_spec d (2 * r)).
    + cbn zeta. repeat split; try nia.
    + assert (d = 2 * r) by lia.
      destruct (Z.even q) eqn:He; cbn zeta.
      * repeat split; try nia. auto.
      * repeat split; try nia.
        intros _. rewrite Z.even_add, He. reflexivity.
Qed.

Lemma rne_mono n1 d1 n2 d2 : 0 < d1 -> 0 < d2 ->
  n1 * d2 <= n2 * d1 -> rne n1 d1 <= rne n2 d2.
Proof.
  intros H1 H2 Hle.
  destruct (rne_spec n1 d1 H1) as [[_ Hu] [He1 _]].
  destruct (rne_spec n2 d2 H2) as [[Hl _] [_ He2]].
  set (q1 := rne n1 d1) in *. set (q2 := rne n2 d2) in *.
  destruct (Z_le_gt_dec q1 q2) as [|Hgt]; [assumption|exfalso].
  (* q1 >= q2 + 1 *)
  assert (Hq : q1 = q2 + 1).
  { assert (2 * q1 * d1 * d2 <= (2 * n1 + d1) * d2) by nia.
    assert ((2 * n2 - d2) * d1 <= 2 * q2 * d2 * d1) by nia.
    assert (2 * (q1 - q2) * (d1 * d2) <= 2 * (d1 * d2)) by nia.
    assert (0 < d1 * d2) by nia. nia. }
  assert (E1 : 2 * q1 * d1 = 2 * n1 + d1).
  { assert (2 * q1 * d1 * d2 <= (2 * n1 + d1) * d2) by nia.
    assert ((2 * n2 - d2) * d1 <= 2 * q2 * d2 * d1) by nia.
    assert (0 < d1 * d2) by nia. nia. }
  assert (E2 : 2 * q2 * d2 = 2 * n2 - d2).
  { assert (2 * q1 * d1 * d2 <= (2 * n1 + d1) * d2) by nia.
    assert ((2 * n2 - d2) * d1 <= 2 * q2 * d2 * d1) by nia.
    assert (0 < d1 * d2) by nia. nia. }
  specialize (He1 E1). specialize (He2 E2).
  rewrite Hq, Z.even_add, He2 in He1. discriminate.
Qed.

Lemma rne_exact n d : 0 < d -> rne (n * d) d = n.
Proof.
  intros Hd. unfold rne. rewrite Z.div_mul, Z.mod_mul by lia.
  destruct (Z.ltb_spec (2 * 0) d); [reflexivity | lia].
Qed.

Local Open Scope Q_scope.

Lemma pow2_pos e : 0 < pow2 e.
Proof. apply Qpower_0_lt. reflexivity. Qed.

Lemma pow2_le e1 e2 : (e1 <= e2)%Z -> pow2 e1 <= pow2 e2.
Proof. intros H. apply Qpower_le_compat_l; [assumption | discriminate]. Qed.

Lemma pow2_lt e1 e2 : (e1 < e2)%Z -> pow2 e1 < pow2 e2.
Proof. intros H. apply Qpower_lt_compat_l; [assumption | reflexivity]. Qed.

Lemma pow2_plus a b : pow2 (a + b) == pow2 a * pow2 b.
Proof. apply Qpower_plus. discriminate. Qed.

Lemma pow2_Z n : (0 <= n)%Z -> pow2 n == inject_Z (2 ^ n).
Proof. intros H. unfold pow2. rewrite Zpower_Qpower by assumption. reflexivity. Qed.

Lemma Qnum_pos x : 0 < x <-> (0 < Qnum x)%Z.
Proof. unfold Qlt. simpl. lia. Qed.

Lemma Q_as_fraction x : x * inject_Z (Zpos (Qden x)) == inject_Z (Qnum x).
Proof. destruct x as [a b]. unfold Qeq, Qmult, inject_Z. simpl. lia. Qed.

Lemma floor_log2_spec x : 0 < x ->
  pow2 (floor_log2 x) <= x < pow2 (floor_log2 x + 1).
Proof.
  intros Hx. apply Qnum_pos in Hx as Ha.
  pose proof (Q_as_fraction x) as Hfrac.
  pose proof (Z.log2_spec (Qnum x) Ha) as [Ha1 Ha2].
  pose proof (Z.log2_spec (Zpos (Qden x)) ltac:(lia)) as [Hb1 Hb2].
  pose proof (Z.log2_nonneg (Qnum x)) as Hla.
  pose proof (Z.log2_nonneg (Zpos (Qden x))) as Hlb.
  set (la := Z.log2 (Qnum x)) in *. set (lb := Z.log2 (Zpos (Qden x))) in *.
  rewrite Zle_Qle, <- pow2_Z in Ha1, Hb1 by lia.
  rewrite Zlt_Qlt, <- Z.add_1_r, <- pow2_Z in Ha2, Hb2 by lia.
  set (A := inject_Z (Qnum x)) in *. set (B := inject_Z (Zpos (Qden x))) in *.
  unfold floor_log2. fold la lb.
  pose proof (pow2_pos lb) as Hplb. pose proof (pow2_pos (lb + 1)) as Hplb1.
  destruct (Qle_bool (pow2 (la - lb)) x) eqn:Hc.
  - apply Qle_bool_iff in Hc. split; [assumption|].
    assert (E : pow2 (la - lb + 1) * pow2 lb == pow2 (la + 1)).
    { rewrite <- pow2_plus. f_equiv. lia. }
    pose proof (pow2_pos (la - lb + 1)). nra.
  - assert (Hlt : x < pow2 (la - lb)).
    { apply Qnot_le_lt. intros H. apply Qle_bool_iff in H. congruence. }
    replace (la - lb - 1 + 1)%Z with (la - lb)%Z by lia.
    split; [|assumption].
    assert (E : pow2 (la - lb - 1) * pow2 (lb + 1) == pow2 la).
    { rewrite <- pow2_plus. f_equiv. lia. }
    pose proof (pow2_pos (la - lb - 1)). nra.
Qed.

Lemma floor_log2_unique x e : 0 < x ->
  pow2 e <= x < pow2 (e + 1) -> floor_log2 x = e.
Proof.
  intros Hx [H1 H2]. destruct (floor_log2_spec x Hx) as [H3 H4].
  set (e' := floor_log2 x) in *.
  destruct (Z.lt_trichotomy e' e) as [Hlt | [Heq | Hgt]]; [exfalso|assumption|exfalso].
  - pose proof (pow2_le (e' + 1) e ltac:(lia)). lra.
  - pose proof (pow2_le (e + 1) e' ltac:(lia)). lra.
Qed.

Lemma floor_log2_mono x y : 0 < x -> x <= y -> (floor_log2 x <= floor_log2 y)%Z.
Proof.
  intros Hx Hxy.
  destruct (floor_log2_spec x Hx) as [H1 H2].
  destruct (floor_log2_spec y ltac:(lra)) as [H3 H4].
  destruct (Z_le_gt_dec (floor_log2 x) (floor_log2 y)) as [|Hgt]; [assumption|exfalso].
  pose proof (pow2_le (floor_log2 y + 1) (floor_log2 x) ltac:(lia)). lra.
Qed.

Lemma rne_Q_mono t u : t <= u -> (rne_Q t <= rne_Q u)%Z.
Proof. intros H. apply rne_mono; [reflexivity | reflexivity | exact H]. Qed.

Lemma rne_Q_Z t n : t == inject_Z n -> rne_Q t = n.
Proof.
  intros H.
  assert (E : rne_Q (inject_Z n) = n).
  { unfold rne_Q. simpl. rewrite <- (Z.mul_1_r n) at 1. apply rne_exact. lia. }
  apply Z.le_antisymm.
  - rewrite <- E at 1. apply rne_Q_mono. rewrite H. apply Qle_refl.
  - rewrite <- E at 1. apply rne_Q_mono. rewrite H. apply Qle_refl.
Qed.

(** The significand of a positive number lies in [2^52, 2^53). *)
Lemma scaled_bounds x : 0 < x ->
  pow2 52 <= x / pow2 (floor_log2 x - 52) < pow2 53.
Proof.
  intros Hx. destruct (floor_log2_spec x Hx) as [H1 H2].
  set (e := floor_log2 x) in *.
  pose proof (pow2_pos (e - 52)) as Hu.
  assert (E1 : pow2 52 * pow2 (e - 52) == pow2 e).
  { rewrite <- pow2_plus. f_equiv. lia. }
  assert (E2 : pow2 53 * pow2 (e - 52) == pow2 (e + 1)).
  { rewrite <- pow2_plus. f_equiv. lia. }
  split.
  - apply Qle_shift_div_l; [assumption|]. rewrite E1. assumption.
  - apply Qlt_shift_div_r; [assumption|]. rewrite E2. assumption.
Qed.

Lemma significand_bounds x : 0 < x ->
  (2 ^ 52 <= rne_Q (x / pow2 (floor_log2 x - 52)) <= 2 ^ 53)%Z.
Proof.
  intros Hx. destruct (scaled_bounds x Hx) as [H1 H2].
  change (pow2 52) with (inject_Z (2 ^ 52)) in H1.
  change (pow2 53) with (inject_Z (2 ^ 53)) in H2. split.
  - pose proof (rne_Q_mono _ _ H1) as H.
    rewrite (rne_Q_Z (inject_Z (2 ^ 52)) (2 ^ 52)) in H by reflexivity. exact H.
  - pose proof (rne_Q_mono _ _ (Qlt_le_weak _ _ H2)) as H.
    rewrite (rne_Q_Z (inject_Z (2 ^ 53)) (2 ^ 53)) in H by reflexivity. exact H.
Qed.

Lemma fl_pos_pos x : 0 < x -> 0 < fl_pos x.
Proof.
  intros Hx. unfold fl_pos.
  pose proof (significand_bounds x Hx) as [H _].
  pose proof (pow2_pos (floor_log2 x - 52)).
  apply Qmult_lt_0_compat; [|assumption].
  change 0 with (inject_Z 0). rewrite <- Zlt_Qlt. lia.
Qed.

Lemma fl_pos_mono x y : 0 < x -> x <= y -> fl_pos x <= fl_pos y.
Proof.
  intros Hx Hxy. assert (Hy : 0 < y) by lra.
  pose proof (floor_log2_mono x y Hx Hxy) as He.
  unfold fl_pos.
  pose proof (significand_bounds x Hx) as [_ Hmx].
  pose proof (significand_bounds y Hy) as [Hmy _].
  set (ex := floor_log2 x) in *. set (ey := floor_log2 y) in *.
  pose proof (pow2_pos (ex - 52)) as Hux.
  destruct (Z.eq_dec ex ey) as [Heq | Hne].
  - rewrite <- Heq. apply Qmult_le_compat_r; [|lra].
    rewrite <- Zle_Qle. apply rne_Q_mono.
    apply Qmult_le_compat_r; [assumption|].
    apply Qlt_le_weak, Qinv_lt_0_compat. assumption.
  - apply Qle_trans with (pow2 (ex + 1)).
    + assert (E : pow2 53 * pow2 (ex - 52) == pow2 (ex + 1)).
      { rewrite <- pow2_plus. f_equiv. lia. }
      rewrite <- E. apply Qmult_le_compat_r; [|lra].
      change (pow2 53) with (inject_Z (2 ^ 53)). rewrite <- Zle_Qle. assumption.
    + apply Qle_trans with (pow2 ey); [apply pow2_le; lia|].
      assert (E : pow2 52 * pow2 (ey - 52) == pow2 ey).
      { rewrite <- pow2_plus. f_equiv. lia. }
      rewrite <- E. apply Qmult_le_compat_r; [|apply Qlt_le_weak, pow2_pos].
      change (pow2 52) with (inject_Z (2 ^ 52)). rewrite <- Zle_Qle. assumption.
Qed.

Lemma fl_pos_proper x y : 0 < x -> x == y -> fl_pos x == fl_pos y.
Proof.
  intros Hx Hxy. apply Qle_antisym; apply fl_pos_mono; lra.
Qed.

(** A number with a 53-bit significand is its own rounding. *)
Lemma fl_pos_representable m e :
  (2 ^ 52 <= m < 2 ^ 53)%Z ->
  fl_pos (inject_Z m * pow2 (e - 52)) == inject_Z m * pow2 (e - 52).
Proof.
  intros Hm. set (y := inject_Z m * pow2 (e - 52)).
  pose proof (pow2_pos (e - 52)) as Hu.
  assert (Hm1 : pow2 52 <= inject_Z m)
    by (change (pow2 52) with (inject_Z (2 ^ 52)); rewrite <- Zle_Qle; lia).
  assert (Hm2 : inject_Z m < pow2 53)
    by (change (pow2 53) with (inject_Z (2 ^ 53)); rewrite <- Zlt_Qlt; lia).
  assert (Hpos52 := pow2_pos 52).
  assert (Hy : 0 < y) by (unfold y; nra).
  assert (He : floor_log2 y = e).
  { apply floor_log2_unique; [assumption|].
    assert (E1 : pow2 52 * pow2 (e - 52) == pow2 e).
    { rewrite <- pow2_plus. f_equiv. lia. }
    assert (E2 : pow2 53 * pow2 (e - 52) == pow2 (e + 1)).
    { rewrite <- pow2_plus. f_equiv. lia. }
    unfold y. split; nra. }
  unfold fl_pos. rewrite He.
  rewrite (rne_Q_Z (y / pow2 (e - 52)) m); [reflexivity|].
  unfold y. field. lra.
Qed.

Lemma fl_pos_idem x : 0 < x -> fl_pos (fl_pos x) == fl_pos x.
Proof.
  intros Hx. pose proof (significand_bounds x Hx) as [H1 H2].
  pose proof (fl_pos_pos x Hx) as Hpos.
  change (fl_pos x) with
    (inject_Z (rne_Q (x / pow2 (floor_log2 x - 52))) * pow2 (floor_log2 x - 52)) in *.
  set (m := rne_Q _) in *. set (e := floor_log2 x) in *.
  destruct (Z.eq_dec m (2 ^ 53)%Z) as [Htop | Hne].
  - assert (E : inject_Z m * pow2 (e - 52) == inject_Z (2 ^ 52) * pow2 (e + 1 - 52)).
    { rewrite Htop. replace (e + 1 - 52)%Z with (1 + (e - 52))%Z by lia.
      rewrite pow2_plus. change (pow2 1) with 2.
      change (inject_Z (2 ^ 53)) with (2 * inject_Z (2 ^ 52)). ring. }
    rewrite (fl_pos_proper _ _ Hpos E).
    rewrite E. apply fl_pos_representable. lia.
  - apply fl_pos_representable. lia.
Qed.

(** ** [fl] on the non-negative rationals *)

Lemma fl_of_pos x : 0 < x -> fl x = fl_pos x.
Proof.
  intros Hx. apply Qnum_pos in Hx. unfold fl.
  destruct (Qnum x); [lia | reflexivity | lia].
Qed.

Lemma fl_of_zero x : x == 0 -> fl x = 0.
Proof.
  intros Hx. unfold fl. unfold Qeq in Hx. simpl in Hx.
  replace (Qnum x) with 0%Z by lia. reflexivity.
Qed.

Lemma fl_nonneg x : 0 <= x -> 0 <= fl x.
Proof.
  intros Hx. destruct (Qlt_le_dec 0 x) as [Hpos | Hle].
  - rewrite fl_of_pos by assumption. apply Qlt_le_weak, fl_pos_pos. assumption.
  - rewrite fl_of_zero by lra. apply Qle_refl.
Qed.

Lemma fl_mono x y : 0 <= x -> x <= y -> fl x <= fl y.
Proof.
  intros Hx Hxy. destruct (Qlt_le_dec 0 x) as [Hpos | Hle].
  - rewrite !fl_of_pos by lra. apply fl_pos_mono; assumption.
  - rewrite (fl_of_zero x) by lra. apply fl_nonneg. lra.
Qed.

Lemma fl_idem x : 0 <= x -> fl (fl x) == fl x.
Proof.
  intros Hx. destruct (Qlt_le_dec 0 x) as [Hpos | Hle].
  - rewrite (fl_of_pos x) by assumption.
    rewrite fl_of_pos by (apply fl_pos_pos; assumption).
    apply fl_pos_idem. assumption.
  - rewrite (fl_of_zero x) by lra. reflexivity.
Qed.

Lemma fl_proper x y : 0 <= x -> x == y -> fl x == fl y.
Proof. intros Hx Hxy. apply Qle_antisym; apply fl_mono; lra. Qed.
End Rounding.

(** ** Substrings *)

Lemma substring_refl (s : str) : substring s s.
Proof. exists [], []. by rewrite app_nil_r. Qed.

Lemma substring_trans (a b c : str) :
  substring a b -> substring b c -> substring a c.
Proof.
  intros (p1 & q1 & ->) (p2 & q2 & ->).
  exists (p2 ++ p1), (q1 ++ q2). by rewrite !app_assoc.
Qed.

Lemma prefix_substring (a b : str) : a `prefix_of` b -> substring a b.
Proof. intros [k ->]. by exists [], k. Qed.

Lemma suffix_substring (a b : str) : a `suffix_of` b -> substring a b.
Proof. intros [k ->]. exists k, []. by rewrite app_nil_r. Qed.

Lemma substring_cons (a b : str) (c : N) : substring a b -> substring a (c :: b).
Proof. intros (p & q & ->). by exists (c :: p), q. Qed.

Lemma lstrip_suffix (s : str) : lstrip s `suffix_of` s.
Proof.
  induction s as [|c s IH]; simpl; [done|].
  destruct (is_space c); [by apply suffix_cons_r | done].
Qed.

Lemma rstrip_prefix (s : str) : rstrip s `prefix_of` s.
Proof.
  unfold rstrip. destruct (lstrip_suffix (rev s)) as [k Hk].
  exists (rev k). apply (f_equal (@rev N)) in Hk.
  by rewrite rev_involutive, rev_app_distr in Hk.
Qed.

Lemma strip_substring (s : str) : substring (strip s) s.
Proof.
  unfold strip. eapply substring_trans.
  - apply prefix_substring, rstrip_prefix.
  - apply suffix_substring, lstrip_suffix.
Qed.

Lemma starts_with_prefix (p s : str) : starts_with p s = true <-> p `prefix_of` s.
Proof.
  revert s. induction p as [|a p IH]; intros [|b s]; simpl.
  - split; [intros _; apply prefix_nil | done].
  - split; [intros _; apply prefix_nil | done].
  - split; [done | intros [k Hk]; discriminate].
  - rewrite andb_true_iff, N.eqb_eq, IH. split.
    + intros [-> H]. by apply prefix_cons.
    + intros [k Hk]. simpl in Hk. simplify_eq. split; [done | by exists k].
Qed.

Lemma str_in_substring (needle hay : str) :
  str_in needle hay = true <-> substring needle hay.
Proof.
  induction hay as [|c hay IH]; simpl.
  - rewrite orb_false_r, starts_with_prefix. split.
    + apply prefix_substring.
    + intros (p & q & H). symmetry in H.
      apply app_eq_nil in H as [-> H]. apply app_eq_nil in H as [-> _].
      apply prefix_nil.
  - rewrite orb_true_iff, starts_with_prefix, IH. split.
    + intros [H | H]; [by apply prefix_substring | by apply substring_cons].
    + intros ([|x p] & q & H); simpl in H.
      * left. by exists q.
      * right. simplify_eq. by exists p, q.
Qed.

(** ** [re.split] and [re.sub] return parts of their argument *)

Lemma split_scan_pieces (r : regex) (s : str) :
  forall prev skip, exists h t,
    split_scan r prev s skip = h :: t /\
    h `prefix_of` drop skip s /\
    Forall (fun p => substring p s) t.
Proof.
  induction s as [|c s IH]; intros prev skip; simpl.
  - exists [], []. split; [done|]. split; [|done].
    destruct skip; apply prefix_nil.
  - destruct skip as [|n].
    + destruct (match_len r prev (c :: s)) as [[|m]|].
      * destruct (IH (Some c) 0) as (h & t & -> & Hh & Ht). simpl.
        exists (c :: h), t. repeat split; [by apply prefix_cons|].
        eapply Forall_impl; [exact Ht|]. intros; by apply substring_cons.
      * destruct (IH (Some c) m) as (h & t & -> & Hh & Ht).
        exists [], (h :: t). repeat split; [apply prefix_nil|].
        constructor.
        -- apply substring_cons. eapply substring_trans.
           ++ by apply prefix_substring.
           ++ apply suffix_substring, suffix_drop.
        -- eapply Forall_impl; [exact Ht|]. intros; by apply substring_cons.
      * destruct (IH (Some c) 0) as (h & t & -> & Hh & Ht). simpl.
        exists (c :: h), t. repeat split; [by apply prefix_cons|].
        eapply Forall_impl; [exact Ht|]. intros; by apply substring_cons.
    + destruct (IH (Some c) n) as (h & t & -> & Hh & Ht).
      exists h, t. repeat split; [done|].
      eapply Forall_impl; [exact Ht|]. intros; by apply substring_cons.
Qed.

Lemma re_split_substring (r : regex) (s piece : str) :
  piece ∈ re_split r s -> substring piece s.
Proof.
  unfold re_split.
  destruct (split_scan_pieces r s None 0) as (h & t & -> & Hh & Ht).
  intros [-> | Hin]%elem_of_cons.
  - by apply prefix_substring.
  - rewrite Forall_forall in Ht. by apply Ht.
Qed.

Lemma re_split_nonempty (r : regex) (s : str) : re_split r s <> [].
Proof.
  unfold re_split.
  destruct (split_scan_pieces r s None 0) as (h & t & -> & _). done.
Qed.


Lemma anchored_Seq_Bol (r : regex) : anchored (Seq Bol r).
Proof. intros c s. reflexivity. Qed.

Lemma sub_scan_anchored (r : regex) (repl : str) :
  anchored r ->
  forall s c skip, sub_scan r repl (Some c) s skip = drop skip s.
Proof.
  intros Hr. induction s as [|x s IH]; intros c skip; simpl.
  - by destruct skip.
  - destruct skip as [|n]; [|apply IH].
    rewrite Hr, IH. done.
Qed.

Lemma re_sub_anchored_suffix (r : regex) (s : str) :
  anchored r -> re_sub r [] s `suffix_of` s.
Proof.
  intros Hr. unfold re_sub. destruct s as [|c s]; simpl; [done|].
  destruct (match_len r None (c :: s)) as [[|m]|];
    rewrite ?(sub_scan_anchored r [] Hr); simpl; try done.
  apply suffix_cons_r, suffix_drop.
Qed.

(** ** The accumulator of bullets *)

Section Accumulator.
Variable text : str.


Lemma bullets_ok_nil : bullets_ok text [].
Proof. split; constructor. Qed.

Lemma append_new_ok bullets b :
  substring b text -> bullets_ok text bullets -> bullets_ok text (append_new bullets b).
Proof.
  intros Hb [Hnd Hsub]. unfold append_new. case_bool_decide; [done|].
  split.
  - apply NoDup_app. repeat split; [done| |apply NoDup_singleton].
    intros x Hx ->%list_elem_of_singleton. done.
  - apply Forall_app. split; [done|]. by constructor.
Qed.

Lemma foldl_ok {A} (f : list str -> A -> list str) (P : A -> Prop) (l : list A) :
  (forall bs x, P x -> bullets_ok text bs -> bullets_ok text (f bs x)) ->
  Forall P l ->
  forall bs, bullets_ok text bs -> bullets_ok text (foldl f bs l).
Proof.
  intros Hf Hl. induction Hl as [|x l Hx _ IH]; intros bs Hbs; simpl; [done|].
  apply IH. by apply Hf.
Qed.

Lemma sentences_substring para :
  substring para text ->
  Forall (fun s => substring s text) (sentences_of para).
Proof.
  intros Hp. apply Forall_forall. intros s Hs.
  eapply substring_trans; [|exact Hp]. by eapply re_split_substring.
Qed.

Lemma paragraphs_substring :
  Forall (fun p => substring p text) (paragraphs_of text).
Proof. apply Forall_forall. intros p Hp. by eapply re_split_substring. Qed.

Lemma clean_sentence_substring sentence :
  substring (strip (re_sub LEADING_MARKER [] sentence)) sentence.
Proof.
  eapply substring_trans; [apply strip_substring|].
  apply suffix_substring, re_sub_anchored_suffix, anchored_Seq_Bol.
Qed.

Lemma phase1_sentence_ok bs sentence :
  substring sentence text -> bullets_ok text bs -> bullets_ok text (phase1_sentence bs sentence).
Proof.
  intros Hs Hbs. unfold phase1_sentence.
  destruct (_ <? 15); [done|].
  destruct (_ || _); [|done].
  pose proof (clean_sentence_substring sentence) as Hc.
  destruct (strip _) as [|c cs]; [done|].
  apply append_new_ok; [|done]. by eapply substring_trans.
Qed.

Lemma phase1_ok bs : bullets_ok text bs -> bullets_ok text (phase1 (paragraphs_of text) bs).
Proof.
  apply (foldl_ok phase1_paragraph (fun p => substring p text));
    [|apply paragraphs_substring].
  intros bs' para Hp Hbs. unfold phase1_paragraph.
  destruct (_ <? 20); [done|].
  eapply foldl_ok; [|by apply sentences_substring|done].
  intros; by apply phase1_sentence_ok.
Qed.

Lemma phase2_sentence_ok bs sentence :
  substring sentence text -> bullets_ok text bs -> bullets_ok text (phase2_sentence bs sentence).
Proof.
  intros Hs Hbs. unfold phase2_sentence.
  destruct (_ <? 15); [done|].
  destruct (any_in _ _); [by apply append_new_ok | done].
Qed.

Lemma phase2_ok bs : bullets_ok text bs -> bullets_ok text (phase2 (paragraphs_of text) bs).
Proof.
  intros Hbs. unfold phase2. destruct (_ <? 15); [|done].
  revert bs Hbs.
  apply (foldl_ok phase2_paragraph (fun p => substring p text));
    [|apply paragraphs_substring].
  intros bs' para Hp Hbs. unfold phase2_paragraph.
  destruct (_ <? 20); [done|].
  pose proof (sentences_substring para Hp) as Hall.
  eapply (foldl_ok phase2_sentence (fun s => substring s text)).
  - intros; by apply phase2_sentence_ok.
  - destruct (sentences_of para) as [|first rest]; [done|].
    simpl. rewrite drop_0. by inversion Hall.
  - destruct (sentences_of para) as [|first rest]; [done|].
    destruct (15 <? _); [|done].
    apply append_new_ok; [by inversion Hall | done].
Qed.

Lemma phase3_ok bs : bullets_ok text bs -> bullets_ok text (phase3 (paragraphs_of text) bs).
Proof.
  apply (foldl_ok _ (fun p => substring p text)); [|apply paragraphs_substring].
  intros bs' para Hp Hbs.
  eapply foldl_ok; [|by apply sentences_substring|done].
  intros bs'' s Hs Hbs''. unfold phase3_sentence.
  destruct (_ || _); [by apply append_new_ok | done].
Qed.

Lemma phase4_ok bs : bullets_ok text bs -> bullets_ok text (phase4 (paragraphs_of text) bs).
Proof.
  apply (foldl_ok _ (fun p => substring p text)); [|apply paragraphs_substring].
  intros bs' para Hp Hbs.
  eapply foldl_ok; [|by apply sentences_substring|done].
  intros bs'' s Hs Hbs''. unfold phase4_sentence.
  destruct (_ && _); [by apply append_new_ok | done].
Qed.

Lemma collect_bullets_ok : bullets_ok text (collect_bullets text).
Proof.
  unfold collect_bullets.
  apply phase4_ok, phase3_ok, phase2_ok, phase1_ok, bullets_ok_nil.
Qed.
End Accumulator.

(** ** Rendering and prefix removal *)

Lemma strip_render (cb : category * str) :
  strip_category_prefix (render_bullet cb) = snd cb.
Proof. destruct cb as [[] b]; reflexivity. Qed.

Lemma stripped_bullets (pd : processed_doc) (language : string) :
  strip_category_prefix <$> extract_bullet_points pd language =
  take 20 (collect_bullets (pd_text pd)).
Proof.
  unfold extract_bullet_points, categorized_bullets.
  rewrite fmap_take. f_equal.
  rewrite <- list_fmap_compose, fmap_imap.
  rewrite <- (list_fmap_id (collect_bullets _)) at 2.
  rewrite <- imap_const. apply imap_ext. intros i b _. simpl.
  apply strip_render.
Qed.

(** ** Bullets: size, provenance, duplicates *)

(** C1: for every document, [extract_bullet_points] returns at most 20
    bullets, and every bullet, once its category prefix is removed, is a
    literal contiguous part of the document text. *)
Theorem extract_bullet_points_bounded_substrings
    (pd : processed_doc) (language : string) :
  length (extract_bullet_points pd language) <= 20 /\
  Forall (fun b => substring (strip_category_prefix b) (pd_text pd))
         (extract_bullet_points pd language).
Proof.
  split.
  - unfold extract_bullet_points. rewrite length_take. lia.
  - apply Forall_forall. intros b Hb.
    apply (list_elem_of_fmap_2 strip_category_prefix) in Hb.
    rewrite stripped_bullets in Hb.
    pose proof (collect_bullets_ok (pd_text pd)) as [_ Hsub].
    apply (Forall_take _ 20) in Hsub. rewrite Forall_forall in Hsub.
    by apply Hsub.
Qed.

(** C2: for every document, no two bullets returned by
    [extract_bullet_points] have the same text once the category prefix
    is removed, whichever phase produced them. *)
Theorem extract_bullet_points_no_duplicates
    (pd : processed_doc) (language : string) :
  NoDup (strip_category_prefix <$> extract_bullet_points pd language).
Proof.
  rewrite stripped_bullets.
  eapply sublist_NoDup; [|apply sublist_take].
  apply (collect_bullets_ok (pd_text pd)).
Qed.

(** C5: on the sentence "1) Apples are red fruit.", accepted by the
    indicator phase because it begins with a numbered-list marker, and
    on "- Apples are red fruit.", accepted because it begins with a
    bullet glyph, the marker is still there in the stored bullet. *)
Theorem leading_marker_is_kept :
  let numbered := lit "1) Apples are red fruit." in
  let bulleted := lit "- Apples are red fruit." in
  re_match NUMBERED numbered = true /\
  any_in indicators (lower numbered) = false /\
  phase1 (paragraphs_of numbered) [] = [numbered] /\
  re_match BULLETED bulleted = true /\
  any_in indicators (lower bulleted) = false /\
  phase1 (paragraphs_of bulleted) [] = [bulleted] /\
  extract_bullet_points
    {| pd_analysed := Chunks []; pd_text := numbered; pd_language := "English" |}
    "English" = [lit "Introduction: 1) Apples are red fruit."].
Proof. vm_compute. repeat split. Qed.

(** ** Computations that return *)


Lemma returns_ret {A} (a : A) : returns (ret a).
Proof. intros g. by exists a, g. Qed.

Lemma returns_bind {A B} (m : M A) (f : A -> M B) :
  returns m -> (forall a, returns (f a)) -> returns (bind m f).
Proof.
  intros Hm Hf g. unfold bind.
  destruct (Hm g) as (a & g' & ->). apply Hf.
Qed.

Lemma returns_try_except {A} (body handler : M A) :
  returns handler -> returns (try_except body handler).
Proof.
  intros Hh g. unfold try_except.
  destruct (body g) as [[a|exn] g']; [by exists a, g' | apply Hh].
Qed.

Lemma returns_for_each {A B} (f : A -> B -> M A) (l : list B) :
  (forall acc x, returns (f acc x)) -> forall acc, returns (for_each l acc f).
Proof.
  intros Hf. induction l as [|x l IH]; intros acc; simpl.
  - apply returns_ret.
  - apply returns_bind; [apply Hf | done].
Qed.

(** ** Summaries *)

Section SummarizerFacts.
Variable summarizer : str -> kwargs -> M pyresult.

Lemma summarize_paragraph_returns max_length min_length para :
  returns (summarize_paragraph summarizer max_length min_length para).
Proof. apply returns_try_except, returns_ret. Qed.

Lemma paragraph_summaries_returns max_length min_length paragraphs :
  returns (paragraph_summaries summarizer max_length min_length paragraphs).
Proof.
  apply returns_for_each. intros acc para.
  destruct (200 <? _).
  - apply returns_bind; [apply summarize_paragraph_returns|].
    intros; apply returns_ret.
  - apply returns_ret.
Qed.

Lemma combine_summaries_returns max_length min_length summaries :
  returns (combine_summaries summarizer max_length min_length summaries).
Proof.
  unfold combine_summaries. destruct (1000 <? _).
  - apply returns_try_except, returns_ret.
  - apply returns_ret.
Qed.

Lemma get_summary_with_returns pd language :
  returns (get_summary_with summarizer pd language).
Proof.
  unfold get_summary_with. destruct (1000 <? _).
  - apply returns_bind; [apply paragraph_summaries_returns|].
    intros [|s1 [|s2 rest]]; try apply returns_ret.
    apply combine_summaries_returns.
  - apply returns_try_except, returns_ret.
Qed.

(** The loop over the paragraphs leaves the paragraphs of at most 200
    trimmed characters alone. *)
Lemma paragraph_summaries_skip max_length min_length paragraphs summaries g :
  List.filter (fun p => 200 <? length (strip p)) paragraphs = [] ->
  for_each paragraphs summaries
    (fun summaries para =>
       if 200 <? length (strip para) then
         let* para_summary := summarize_paragraph summarizer max_length min_length para in
         ret (summaries ++ [para_summary])
       else ret summaries) g = (Return summaries, g).
Proof.
  induction paragraphs as [|p ps IH]; intros Hf; simpl in *; [done|].
  destruct (200 <? length (strip p)); [done|].
  unfold bind at 1, ret at 1. by apply IH.
Qed.

Lemma paragraph_summaries_single max_length min_length paragraphs para g :
  List.filter (fun p => 200 <? length (strip p)) paragraphs = [para] ->
  exists s g',
    summarize_paragraph summarizer max_length min_length para g = (Return s, g') /\
    paragraph_summaries summarizer max_length min_length paragraphs g = (Return [s], g').
Proof.
  unfold paragraph_summaries.
  induction paragraphs as [|p ps IH]; intros Hf; simpl in *; [done|].
  destruct (200 <? length (strip p)) eqn:Hp.
  - injection Hf as -> Hrest.
    destruct (summarize_paragraph_returns max_length min_length para g)
      as (s & g' & Hs).
    exists s, g'. split; [done|].
    unfold bind at 1. unfold bind at 1. rewrite Hs. unfold ret at 1.
    by apply paragraph_summaries_skip.
  - unfold bind at 1, ret at 1. by apply IH.
Qed.
End SummarizerFacts.

(** C7: [get_summary] always returns a string, whatever the
    summarization model does: a failure of the single pass over a text
    of at most 1000 characters gives the first three sentences joined
    by single spaces and an ellipsis; a failure on a paragraph gives the
    first 100 characters of the paragraph and an ellipsis. *)
Theorem get_summary_catches_failures
    (summarizer : str -> kwargs -> M pyresult)
    (pd : processed_doc) (language : string) (g : rng) :
  let text := pd_text pd in
  let max_length := min 150 (length text / 4) in
  let min_length := min 30 (max_length / 2) in
  (exists summary g', get_summary_with summarizer pd language g = (Return summary, g')) /\
  (forall exn g',
     length text <= 1000 ->
     summarizer text (summary_kwargs max_length min_length) g = (Raise exn, g') ->
     get_summary_with summarizer pd language g =
       (Return (join SPACE (take 3 (sentences_of text)) ++ ELLIPSIS), g')) /\
  (forall para exn g1 g',
     summarizer para (summary_kwargs (max_length / 2) (min_length / 2)) g1 = (Raise exn, g') ->
     summarize_paragraph summarizer max_length min_length para g1 =
       (Return (take 100 para ++ ELLIPSIS), g')).
Proof.
  intros text max_length min_length. split; [|split].
  - apply get_summary_with_returns.
  - intros exn g' Hlen Hraise. unfold get_summary_with.
    fold text. fold max_length. fold min_length.
    destruct (Nat.ltb_spec 1000 (length text)); [lia|].
    unfold summarize_directly, try_except, bind. by rewrite Hraise.
  - intros para exn g1 g' Hraise.
    unfold summarize_paragraph, try_except, bind. by rewrite Hraise.
Qed.

Lemma generate_summary_shape (text : str) (max_length min_length : nat) :
  exists summary,
    _generate_summary text max_length min_length = RList [IDict (Some summary)].
Proof. unfold _generate_summary. cbv zeta. eexists. reflexivity. Qed.

Lemma long_text_budget (text : str) :
  1000 < length text ->
  min 150 (length text / 4) = 150 /\ min 30 (min 150 (length text / 4) / 2) = 30.
Proof.
  intros Hlen.
  assert (250 <= length text / 4) by (apply Nat.div_le_lower_bound; lia).
  assert (Hmax : min 150 (length text / 4) = 150) by lia.
  rewrite Hmax. split; [done|]. reflexivity.
Qed.

(** With one paragraph of more than 200 trimmed characters in a text of
    more than 1000, the result is what the [try] of the loop gives for
    that paragraph. *)
Lemma single_paragraph_path
    (summarizer : str -> kwargs -> M pyresult)
    (pd : processed_doc) (language : string) (g : rng) (para : str) :
  1000 < length (pd_text pd) ->
  List.filter (fun p => 200 <? length (strip p)) (paragraphs_of (pd_text pd)) = [para] ->
  get_summary_with summarizer pd language g =
    summarize_paragraph summarizer 150 30 para g.
Proof.
  intros Hlen Hone. unfold get_summary_with. cbv zeta.
  destruct (long_text_budget _ Hlen) as [-> ->].
  destruct (Nat.ltb_spec 1000 (length (pd_text pd))); [|lia].
  destruct (paragraph_summaries_single summarizer 150 30 _ _ g Hone)
    as (s & g' & Hs & Hall).
  unfold bind. by rewrite Hall, Hs.
Qed.

(** C8: for a document of more than 1000 characters in which exactly
    one paragraph has more than 200 trimmed characters, [get_summary]
    returns the summary of that paragraph as it is, nothing joined and
    nothing summarized again.  The model is called on the paragraph
    with [max_length = 75] and [min_length = 15], half of 150 and of
    30; the result is the ["summary_text"] of the first element of the
    list the model returns, and the first 100 characters of the
    paragraph with an ellipsis when the model returns something of
    another shape or raises.  With the pipeline of the repository the
    result is the text [_generate_summary] builds from the paragraph. *)
Theorem single_paragraph_summary_unchanged
    (summarizer : str -> kwargs -> M pyresult)
    (pd : processed_doc) (language : string) (g : rng) (para : str) :
  let text := pd_text pd in
  let budget := {| kw_max_length := Some 75; kw_min_length := Some 15;
                   kw_candidate_labels := None |} in
  let fallback := take 100 para ++ lit "..." in
  1000 < length text ->
  List.filter (fun p => 200 <? length (strip p)) (paragraphs_of text) = [para] ->
  (forall summary rest g',
     summarizer para budget g = (Return (RList (IDict (Some summary) :: rest)), g') ->
     get_summary_with summarizer pd language g = (Return summary, g')) /\
  (forall result g',
     summarizer para budget g = (Return result, g') ->
     (forall summary rest, result <> RList (IDict (Some summary) :: rest)) ->
     get_summary_with summarizer pd language g = (Return fallback, g')) /\
  (forall exn g',
     summarizer para budget g = (Raise exn, g') ->
     get_summary_with summarizer pd language g = (Return fallback, g')) /\
  (exists summary,
     _generate_summary para 75 15 = RList [IDict (Some summary)] /\
     get_summary pd language g = (Return summary, g)).
Proof.
  intros text budget fallback Hlen Hone.
  assert (Hpath : forall model,
            get_summary_with model pd language g =
            summarize_paragraph model 150 30 para g)
    by (intros model; by apply single_paragraph_path).
  assert (Hcall : forall model,
            summarize_paragraph model 150 30 para g =
            match model para budget g with
            | (Return result, g') =>
                (Return match result with
                        | RList (IDict (Some summary) :: _) => summary
                        | _ => fallback
                        end, g')
            | (Raise _, g') => (Return fallback, g')
            end).
  { intros model. unfold summarize_paragraph, try_except, bind, summary_kwargs.
    change (150 / 2) with 75. change (30 / 2) with 15. fold budget.
    destruct (model para budget g) as [[result|exn] g']; [|reflexivity].
    by destruct result as [[|[[summary|]|] rest]| | |]. }
  split; [|split; [|split]].
  - intros summary rest g' Hrun. by rewrite Hpath, Hcall, Hrun.
  - intros result g' Hrun Hshape. rewrite Hpath, Hcall, Hrun.
    destruct result as [[|[[summary|]|] rest]| | |]; try reflexivity.
    by destruct (Hshape summary rest).
  - intros exn g' Hrun. by rewrite Hpath, Hcall, Hrun.
  - destruct (generate_summary_shape para 75 15) as [summary Hshape].
    exists summary. split; [exact Hshape|].
    unfold get_summary. rewrite Hpath, Hcall.
    change (pipeline_call (get_transformer_model "summarization" language) para budget g)
      with (Return (_generate_summary para 75 15), g).
    by rewrite Hshape.
Qed.

(** ** The language argument *)

Lemma pd_text_process_document finditer text language :
  pd_text (process_document finditer text language) = text.
Proof. unfold process_document. by destruct (_ <=? _). Qed.

Lemma summarization_ignores_language language1 language2 :
  pipeline_call (get_transformer_model "summarization" language1) =
  pipeline_call (get_transformer_model "summarization" language2).
Proof. reflexivity. Qed.

Lemma classification_ignores_language language1 language2 :
  pipeline_call (get_transformer_model "zero-shot-classification" language1) =
  pipeline_call (get_transformer_model "zero-shot-classification" language2).
Proof. reflexivity. Qed.

(** C10: on the same text, and from the same state of the random
    generator, [get_summary], [extract_bullet_points] and
    [classify_intent] return the same results for any two values of the
    language argument; the language only selects the entity table of
    [process_document]. *)
Theorem results_do_not_depend_on_language
    (finditer : string -> str -> list (nat * nat))
    (text : str) (language1 language2 : string) (g : rng) :
  let pd1 := process_document finditer text language1 in
  let pd2 := process_document finditer text language2 in
  get_summary pd1 language1 g = get_summary pd2 language2 g /\
  extract_bullet_points pd1 language1 = extract_bullet_points pd2 language2 /\
  classify_intent pd1 language1 g = classify_intent pd2 language2 g.
Proof.
  intros pd1 pd2. split; [|split].
  - unfold get_summary, get_summary_with, pd1, pd2.
    rewrite !pd_text_process_document.
    by rewrite (summarization_ignores_language language1 language2).
  - unfold extract_bullet_points, pd1, pd2.
    by rewrite !pd_text_process_document.
  - unfold classify_intent, classify_intent_with, pd1, pd2.
    rewrite !pd_text_process_document.
    by rewrite (classification_ignores_language language1 language2).
Qed.

(** ** The stable descending sort *)


Section Sorting.
Variable key : string -> Z.


Lemma before_cons a b x l : before a b l -> before a b (x :: l).
Proof. intros (l1 & l2 & l3 & ->). by exists (x :: l1), l2, l3. Qed.

Lemma before_head a b l : b ∈ l -> before a b (a :: l).
Proof.
  intros (l2 & l3 & ->)%list_elem_of_split. by exists [], l2, l3.
Qed.

Lemma before_inv a b x l :
  before a b (x :: l) -> (a = x /\ b ∈ l) \/ before a b l.
Proof.
  intros ([|y l1] & l2 & l3 & H); simpl in H; simplify_eq.
  - left. split; [done|]. set_solver.
  - right. by exists l1, l2, l3.
Qed.

Lemma insert_desc_perm x l : insert_desc key x l ≡ₚ x :: l.
Proof.
  induction l as [|y l IH]; simpl; [done|].
  destruct (key x <? key y)%Z; [|done].
  rewrite IH. apply Permutation_swap.
Qed.

Lemma sorted_desc_perm l : sorted_desc key l ≡ₚ l.
Proof.
  induction l as [|x l IH]; simpl; [done|].
  by rewrite insert_desc_perm, IH.
Qed.

Lemma insert_desc_descending x l :
  descending key l -> descending key (insert_desc key x l).
Proof.
  unfold descending. induction 1 as [|y l Hl IH Hy]; simpl.
  - repeat constructor.
  - destruct (Z.ltb_spec (key x) (key y)).
    + constructor; [done|]. rewrite insert_desc_perm.
      constructor; [lia | done].
    + constructor; [by constructor|].
      constructor; [done|].
      eapply Forall_impl; [exact Hy|]. simpl. intros; lia.
Qed.

Lemma sorted_desc_descending l : descending key (sorted_desc key l).
Proof.
  induction l as [|x l IH]; simpl; [constructor|].
  by apply insert_desc_descending.
Qed.

Lemma insert_desc_keeps a b x l :
  before a b l -> before a b (insert_desc key x l).
Proof.
  induction l as [|y l IH]; simpl; intros Hab.
  - by apply before_cons.
  - destruct (key x <? key y)%Z; [|by apply before_cons].
    apply before_inv in Hab as [[-> Hb] | Hab].
    + apply before_head. rewrite insert_desc_perm. set_solver.
    + by apply before_cons, IH.
Qed.

Lemma insert_desc_front x b l :
  b ∈ l -> (key b <= key x)%Z -> before x b (insert_desc key x l).
Proof.
  induction l as [|y l IH]; simpl; intros Hb Hk; [by inversion Hb|].
  destruct (Z.ltb_spec (key x) (key y)).
  - apply before_cons, IH; [|done].
    apply elem_of_cons in Hb as [-> | Hb]; [lia | done].
  - by apply before_head.
Qed.

(** Stability: an element stays ahead of the later elements whose key is
    not greater. *)
Lemma sorted_desc_stable a b l :
  before a b l -> (key b <= key a)%Z -> before a b (sorted_desc key l).
Proof.
  induction l as [|x l IH]; simpl; intros Hab Hk.
  - destruct Hab as ([|??] & ? & ? & ?); discriminate.
  - apply before_inv in Hab as [[-> Hb] | Hab].
    + apply insert_desc_front; [|done]. by rewrite sorted_desc_perm.
    + by apply insert_desc_keeps, IH.
Qed.
End Sorting.

(** ** The scores of the classifier *)



Lemma foldl_invariant {A B} (P : A -> Prop) (f : A -> B -> A) (l : list B) :
  (forall a x, x ∈ l -> P a -> P (f a x)) ->
  forall a, P a -> P (foldl f a l).
Proof.
  induction l as [|x l IH]; intros Hf a Ha; simpl; [done|].
  apply IH.
  - intros a' y Hy. apply Hf. by right.
  - apply Hf; [by left | done].
Qed.

Lemma increment_positive scores category :
  positive_scores scores -> positive_scores (increment scores category).
Proof.
  intros H label n. unfold increment. rewrite lookup_insert.
  case_decide; [|apply H].
  intros [= <-]. destruct (scores !! category) as [m|] eqn:E; simpl; [|lia].
  apply H in E. lia.
Qed.

Lemma count_keywords_positive text_lower :
  positive_scores (count_keywords text_lower).
Proof.
  unfold count_keywords.
  apply (foldl_invariant positive_scores).
  - intros scores [category keywords] _ Hs.
    apply (foldl_invariant positive_scores); [|done].
    intros scores' keyword _ Hs'.
    destruct (str_in keyword text_lower); [|done].
    by apply increment_positive.
  - intros label n. by rewrite lookup_empty.
Qed.

Lemma count_keywords_none text_lower :
  no_keyword text_lower -> count_keywords text_lower = ∅.
Proof.
  intros Hno. unfold count_keywords.
  apply (foldl_invariant (fun scores => scores = ∅)); [|done].
  intros scores [category keywords] Hc ->.
  apply (foldl_invariant (fun scores => scores = ∅)); [|done].
  intros scores' keyword Hk ->.
  destruct (str_in keyword text_lower) eqn:Hin; [|done].
  apply str_in_substring in Hin. by destruct (Hno _ _ _ Hc Hk).
Qed.

Section Scores.
Local Open Scope Q_scope.

Lemma random_random_spec g :
  exists r, random_random g =
              (Return r, {| tape := tape g; drawn := S (drawn g) |}) /\
            0 <= r /\ r < 1.
Proof.
  unfold random_random. eexists. split; [reflexivity|].
  pose proof (N.mod_lt (tape g (drawn g)) (2 ^ 53)%N ltac:(done)) as Hlt.
  set (k := (tape g (drawn g) mod 2 ^ 53)%N) in *.
  assert (0 <= Z.of_N k < 2 ^ 53)%Z as [H0 H1].
  { split; [lia|]. change (2 ^ 53)%Z with (Z.of_N (2 ^ 53)). lia. }
  unfold Qle, Qlt. simpl. split; [lia|].
  change (Z.pos (2 ^ 53)) with (2 ^ 53)%Z. lia.
Qed.

Lemma float_of_Z_9 : float_of_Z 9 == 9.
Proof. vm_compute. reflexivity. Qed.

Lemma fl_1 : fl 1 == 1.
Proof. vm_compute. reflexivity. Qed.

Lemma int_of_float_bounds x n :
  0 <= x -> x <= inject_Z n -> (0 <= int_of_float x <= n)%Z.
Proof.
  intros H0 Hn. unfold int_of_float.
  apply Qle_bool_iff in H0 as Hb. rewrite Hb.
  apply Qfloor_resp_le in H0, Hn.
  rewrite Qfloor_Z in Hn. change (Qfloor 0) with 0%Z in H0. lia.
Qed.

Lemma random_score_spec g :
  exists v, random_score g =
              (Return v, {| tape := tape g; drawn := S (drawn g) |}) /\
            (1 <= v <= 10)%Z.
Proof.
  destruct (random_random_spec g) as (r & Hr & H0 & H1).
  unfold random_score, bind. rewrite Hr. unfold ret.
  eexists. split; [reflexivity|].
  assert (Hprod : 0 <= r * float_of_Z 9 /\ r * float_of_Z 9 <= 9).
  { pose proof float_of_Z_9. split; nra. }
  destruct Hprod as [Hp0 Hp9].
  pose proof (fl_nonneg _ Hp0) as Hf0.
  pose proof (fl_mono _ _ Hp0 Hp9) as Hf9.
  assert (E9 : fl 9 == 9) by (vm_compute; reflexivity).
  assert (Hf9' : fl (r * float_of_Z 9) <= inject_Z 9)
    by (change (inject_Z 9) with 9; lra).
  pose proof (int_of_float_bounds (fmul r (float_of_Z 9)) 9 Hf0 Hf9').
  lia.
Qed.
End Scores.

Lemma assign_loop_spec labels scores g :
  exists scores' g',
    for_each labels scores assign_random g = (Return scores', g') /\
    forall label,
      (label ∈ labels ->
         exists n, scores' !! label = Some n /\ (1 <= n <= 10)%Z) /\
      (label ∉ labels -> scores' !! label = scores !! label).
Proof.
  revert scores g. induction labels as [|x labels IH]; intros scores g; simpl.
  - exists scores, g. split; [done|]. intros label. split; [|done].
    by intros ?%elem_of_nil.
  - destruct (random_score_spec g) as (v & Hv & Hrange).
    destruct (IH (<[x := v]> scores) {| tape := tape g; drawn := S (drawn g) |})
      as (scores' & g' & Hloop & Hspec).
    exists scores', g'. split.
    { unfold bind at 1. unfold assign_random at 1. unfold bind at 1.
      rewrite Hv. unfold ret at 1. exact Hloop. }
    intros label. destruct (Hspec label) as [Hin Hout]. split.
    + intros Hl. destruct (decide (label ∈ labels)) as [Hr|Hr]; [by apply Hin|].
      apply elem_of_cons in Hl as [-> | Hl]; [|done].
      exists v. split; [|done]. by rewrite Hout, lookup_insert_eq.
    + intros Hl. apply not_elem_of_cons in Hl as [Hne Hl].
      by rewrite Hout, lookup_insert_ne.
Qed.

Lemma fallback_scores_spec scores labels g :
  exists scores' g',
    fallback_scores scores labels g = (Return scores', g') /\
    (scores <> ∅ -> scores' = scores) /\
    (scores = ∅ ->
       forall label, label ∈ labels ->
         exists n, scores' !! label = Some n /\ (1 <= n <= 10)%Z) /\
    (positive_scores scores -> positive_scores scores').
Proof.
  unfold fallback_scores. case_bool_decide as Hempty.
  - destruct (assign_loop_spec labels scores g) as (scores' & g' & Hloop & Hspec).
    exists scores', g'. split; [exact Hloop|]. split; [done|]. split.
    + intros _ label Hl. by apply Hspec.
    + intros _ label n Hn.
      destruct (decide (label ∈ labels)) as [Hl|Hl].
      * apply Hspec in Hl as (m & Hm & Hr). simplify_eq. lia.
      * apply Hspec in Hl. subst scores. by rewrite Hl, lookup_empty in Hn.
  - exists scores, g. by repeat split.
Qed.

Lemma final_scores_spec text labels g :
  exists scores g',
    final_scores text labels g = (Return scores, g') /\
    positive_scores scores /\
    (no_keyword (lower text) ->
       forall label, label ∈ labels ->
         exists n, scores !! label = Some n /\ (1 <= n <= 10)%Z).
Proof.
  unfold final_scores.
  destruct (fallback_scores_spec (count_keywords (lower text)) labels g)
    as (scores & g' & Hrun & _ & Hfall & Hpos).
  exists scores, g'. split; [done|]. split.
  - apply Hpos, count_keywords_positive.
  - intros Hno. by apply Hfall, count_keywords_none.
Qed.

(** C4: when no keyword of any category occurs in the lower-cased
    classification sample, every one of the four categories is given an
    integer score between 1 and 10. *)
Theorem fallback_scores_in_range (pd : processed_doc) (g : rng) :
  let sample_text := take 1000 (pd_text pd) in
  no_keyword (lower sample_text) ->
  exists scores g',
    final_scores sample_text categories g = (Return scores, g') /\
    forall category, category ∈ categories ->
      exists n, scores !! category = Some n /\ (1 <= n <= 10)%Z.
Proof.
  intros sample_text Hno.
  destruct (final_scores_spec sample_text categories g)
    as (scores & g' & Hrun & _ & Hfall).
  exists scores, g'. split; [done|]. by apply Hfall.
Qed.

(** ** Normalized scores *)

Section Normalization.
Local Open Scope Q_scope.

Lemma fl_tenth_pos : 0 < fl (1 # 10).
Proof. vm_compute. reflexivity. Qed.

Lemma weight_spec scores label :
  positive_scores scores ->
  exists q, weight scores label = fl q /\ 1 # 10 <= q.
Proof.
  intros Hpos. unfold weight.
  destruct (scores !! label) as [n|] eqn:E.
  - exists (inject_Z n). split; [done|]. apply Hpos in E.
    apply Qle_trans with (inject_Z 1); [discriminate|].
    by rewrite <- Zle_Qle.
  - exists (1 # 10). split; [done | apply Qle_refl].
Qed.

Lemma weight_pos scores label :
  positive_scores scores -> 0 < weight scores label.
Proof.
  intros Hpos. destruct (weight_spec scores label Hpos) as (q & -> & Hq).
  eapply Qlt_le_trans; [apply fl_tenth_pos|].
  apply fl_mono; [discriminate | done].
Qed.

Lemma weight_representable scores label :
  positive_scores scores -> fl (weight scores label) == weight scores label.
Proof.
  intros Hpos. destruct (weight_spec scores label Hpos) as (q & -> & Hq).
  apply fl_idem. apply Qle_trans with (1 # 10); [discriminate | done].
Qed.

Lemma float_sum_ge (l : list Q) (acc c : Q) :
  fl c == c -> 0 <= c -> c <= acc ->
  Forall (fun x => 0 <= x) l ->
  c <= foldl fadd acc l.
Proof.
  intros Hc H0. revert acc.
  induction l as [|x l IH]; intros acc Hacc Hl; simpl; [done|].
  inversion Hl as [|? ? Hx Hl']; subst.
  apply IH; [|done]. unfold fadd.
  rewrite <- Hc. apply fl_mono; [done|]. lra.
Qed.

(** The sum of the weights is at least the first weight. *)
Lemma total_ge_first scores label labels :
  positive_scores scores ->
  weight scores label <= float_sum (weight scores <$> (label :: labels)).
Proof.
  intros Hpos. unfold float_sum. simpl.
  pose proof (weight_pos scores label Hpos) as Hw.
  pose proof (weight_representable scores label Hpos) as Hr.
  apply float_sum_ge; [done | lra | |].
  - unfold fadd. rewrite <- Hr at 1. apply fl_mono; lra.
  - apply Forall_fmap, Forall_forall. intros l _. simpl.
    apply Qlt_le_weak, weight_pos. done.
Qed.

Lemma float_div_returns x total g :
  0 < total -> float_div x total g = (Return (fdiv x total), g).
Proof.
  intros Ht. unfold float_div.
  destruct (Qeq_bool total 0) eqn:E; [|done].
  apply Qeq_bool_iff in E. lra.
Qed.

Lemma normalized_scores_return scores total labels g :
  0 < total ->
  list_comprehension (fun label => float_div (weight scores label) total) labels g =
    (Return ((fun label => fdiv (weight scores label) total) <$> labels), g).
Proof.
  intros Ht. induction labels as [|l labels IH]; simpl; [done|].
  unfold bind at 1. rewrite float_div_returns by done.
  unfold bind at 1. by rewrite IH.
Qed.

Lemma fdiv_unit_interval x total :
  0 < x -> x <= total -> 0 <= fdiv x total /\ fdiv x total <= 1.
Proof.
  intros Hx Hle. unfold fdiv.
  assert (Hq : 0 <= x / total /\ x / total <= 1).
  { split.
    - apply Qle_shift_div_l; lra.
    - apply Qle_shift_div_r; lra. }
  destruct Hq as [H0 H1]. split.
  - by apply fl_nonneg.
  - rewrite <- fl_1. by apply fl_mono.
Qed.
End Normalization.

(** What [_classify_text] returns on the four categories. *)
Lemma classify_text_spec text g :
  exists scores g' top rest,
    final_scores text categories g = (Return scores, g') /\
    positive_scores scores /\
    sorted_desc (fun label => default 0%Z (scores !! label)) categories = top :: rest /\
    top ∈ categories /\
    _classify_text text classify_kwargs g =
      (Return (RClassification (Some (top :: rest))
                 (Some ((fun label =>
                           fdiv (weight scores label)
                                (float_sum (weight scores <$> top :: rest)))
                        <$> top :: rest))
                 (if 100 <? length text then take 100 text ++ ELLIPSIS else text)),
       g') /\
    (0 <= fdiv (weight scores top) (float_sum (weight scores <$> top :: rest)))%Q /\
    (fdiv (weight scores top) (float_sum (weight scores <$> top :: rest)) <= 1)%Q.
Proof.
  destruct (final_scores_spec text categories g) as (scores & g' & Hrun & Hpos & _).
  set (key := fun label => default 0%Z (scores !! label)).
  assert (Hperm : sorted_desc key categories ≡ₚ categories) by apply sorted_desc_perm.
  destruct (sorted_desc key categories) as [|top rest] eqn:Hord.
  { apply Permutation_length in Hperm. discriminate. }
  exists scores, g', top, rest.
  assert (Htop : top ∈ categories) by (rewrite <- Hperm; by left).
  pose proof (total_ge_first scores top rest Hpos) as Hge.
  set (total := float_sum (weight scores <$> top :: rest)) in *.
  pose proof (weight_pos scores top Hpos) as Hw.
  assert (Htotal : (0 < total)%Q) by lra.
  split; [done|]. split; [done|]. split; [done|]. split; [done|]. split.
  - unfold _classify_text. simpl kw_candidate_labels. simpl default.
    change default_candidate_labels with categories.
    unfold bind at 1. rewrite Hrun. fold key. rewrite Hord. fold total.
    unfold bind at 1. by rewrite normalized_scores_return.
  - by apply fdiv_unit_interval.
Qed.

(** ** The explanation *)


(** Closed decidable goals, by evaluation. *)
Ltac by_evaluation := apply (bool_decide_unpack _); vm_compute; exact I.

Lemma substring_has_chars (b t : str) (c : N) :
  substring b t -> c ∈ b -> c ∈ t.
Proof. intros (p & q & ->) Hc. set_solver. Qed.

Lemma no_capital_K_no_header (s : str) :
  CAPITAL_K ∉ s -> ~ substring (lit "Keywords detected:") s.
Proof.
  intros Hk Hsub. apply Hk.
  eapply substring_has_chars; [exact Hsub|]. by left.
Qed.

Lemma digits_no_capital_K (u : Decimal.uint) :
  CAPITAL_K ∉ lit (NilEmpty.string_of_uint u).
Proof.
  induction u; simpl; [by intros ?%elem_of_nil|..];
    (intros [Hc|Hc]%elem_of_cons; [by vm_compute in Hc | by apply IHu]).
Qed.

Lemma decimal_no_capital_K (n : N) : CAPITAL_K ∉ decimal n.
Proof.
  unfold decimal, NilZero.string_of_uint.
  destruct (N.to_uint n) eqn:E; try apply digits_no_capital_K.
  by_evaluation.
Qed.

Lemma format_2f_no_capital_K (x : Q) : CAPITAL_K ∉ format_2f x.
Proof.
  unfold format_2f.
  assert (forall a b c,
    CAPITAL_K ∉ decimal a ++ lit "." ++ decimal b ++ decimal c) as Hbody.
  { intros a b c. rewrite !not_elem_of_app.
    split_and!; try apply decimal_no_capital_K. by_evaluation. }
  destruct (_ <? _)%Z; [|apply Hbody].
  rewrite not_elem_of_app. split; [by_evaluation | apply Hbody].
Qed.

Lemma explanations_no_capital_K intent entry :
  explanations !! intent = Some entry ->
  (CAPITAL_K ∉ fst entry) /\ Forall (fun detail => CAPITAL_K ∉ detail) (snd entry).
Proof.
  intros H. apply elem_of_list_to_map_2 in H.
  repeat (apply elem_of_cons in H as [H | H];
          [injection H as _ ->; split; [by_evaluation | repeat constructor; by_evaluation]|]).
  by apply elem_of_nil in H.
Qed.

Lemma confidence_texts_no_capital_K level :
  (CAPITAL_K ∉ confidence_phrases level) /\ (CAPITAL_K ∉ confidence_explanations level).
Proof. destruct level; split; by_evaluation. Qed.

Lemma not_elem_of_concat (c : N) (parts : list str) :
  Forall (fun part => c ∉ part) parts -> c ∉ concat parts.
Proof.
  induction 1 as [|p parts Hp _ IH]; simpl; [by intros ?%elem_of_nil|].
  rewrite not_elem_of_app. done.
Qed.

Lemma explanation_without_keywords intent entry keywords score text :
  explanations !! intent = Some entry ->
  found_keywords keywords text = [] ->
  ~ substring (lit "Keywords detected:") (explanation_text entry keywords score text).
Proof.
  intros Hentry Hfound. apply no_capital_K_no_header.
  unfold explanation_text. rewrite Hfound.
  destruct (explanations_no_capital_K _ _ Hentry) as [Hmain Hdetails].
  destruct (confidence_texts_no_capital_K (confidence_level score)) as [Hphrase Hexpl].
  apply not_elem_of_concat. rewrite !Forall_app. split_and!.
  - apply Forall_cons. split; [|apply Forall_cons; split; [by_evaluation | done]].
    rewrite !not_elem_of_app.
    split_and!;
      [ assumption | by_evaluation | assumption | by_evaluation
      | apply format_2f_no_capital_K | by_evaluation ].
  - apply Forall_fmap. eapply Forall_impl; [exact Hdetails|].
    intros detail Hd. simpl. rewrite !not_elem_of_cons.
    split_and!; try assumption; by_evaluation.
  - apply Forall_cons. split; [|done].
    rewrite not_elem_of_cons. split; [by_evaluation | done].
Qed.

Lemma substring_concat_part (parts1 parts2 : list str) (part : str) :
  substring part (concat (parts1 ++ [part] ++ parts2)).
Proof.
  rewrite !concat_app. exists (concat parts1), (concat parts2).
  simpl. by rewrite app_nil_r.
Qed.

Lemma explanation_with_keywords entry keywords score text :
  found_keywords keywords text <> [] ->
  substring (keywords_line (found_keywords keywords text))
            (explanation_text entry keywords score text).
Proof.
  intros Hfound. unfold explanation_text.
  destruct (found_keywords keywords text) as [|w ws] eqn:E; [done|].
  rewrite <- app_assoc. apply substring_concat_part.
Qed.

(** ** [classify_intent] *)

Lemma lookups_of_category intent :
  intent ∈ categories ->
  is_Some (explanations !! intent) /\ is_Some (intent_keywords !! intent).
Proof.
  intros H.
  repeat (apply elem_of_cons in H as [-> | H]; [split; by_evaluation|]).
  by apply elem_of_nil in H.
Qed.

Lemma explain_of_category intent score text g :
  intent ∈ categories ->
  exists entry keywords,
    explanations !! intent = Some entry /\
    intent_keywords !! intent = Some keywords /\
    explain intent score text g =
      (Return (explanation_text entry keywords score text), g).
Proof.
  intros [[entry He] [keywords Hk]]%lookups_of_category.
  exists entry, keywords. split; [done|]. split; [done|].
  unfold explain, getitem, bind. by rewrite He, Hk.
Qed.

Lemma explain_inv intent score text g explanation g' :
  explain intent score text g = (Return explanation, g') ->
  exists entry keywords,
    explanations !! intent = Some entry /\
    intent_keywords !! intent = Some keywords /\
    explanation = explanation_text entry keywords score text.
Proof.
  unfold explain, getitem, bind.
  destruct (explanations !! intent) as [entry|]; [|discriminate].
  destruct (intent_keywords !! intent) as [keywords|]; [|discriminate].
  intros [= <- _]. by exists entry, keywords.
Qed.

Section ClassifierFacts.
Variable classifier : str -> kwargs -> M pyresult.

Lemma top_intent_returns sample_text : returns (top_intent classifier sample_text).
Proof. apply returns_try_except, returns_ret. Qed.

Lemma top_intent_on_failure sample_text g exn g' :
  classifier sample_text classify_kwargs g = (Raise exn, g') ->
  top_intent classifier sample_text g = (Return (first_category, 1 # 2), g').
Proof. intros H. unfold top_intent, try_except, bind. by rewrite H. Qed.

Lemma classify_intent_with_inv pd language g label explanation g' :
  classify_intent_with classifier pd language g = (Return (label, explanation), g') ->
  exists score g1,
    top_intent classifier (take 1000 (pd_text pd)) g = (Return (label, score), g1) /\
    explain label score (pd_text pd) g1 = (Return explanation, g').
Proof.
  unfold classify_intent_with, bind.
  destruct (top_intent classifier _ g) as [[[label0 score]|exn] g1]; [|discriminate].
  simpl.
  destruct (explain label0 score (pd_text pd) g1) as [[e|exn] g2] eqn:He;
    [|discriminate].
  intros [= <- <- <-]. by exists score, g1.
Qed.

Lemma classify_intent_with_category pd language g label score g1 :
  top_intent classifier (take 1000 (pd_text pd)) g = (Return (label, score), g1) ->
  label ∈ categories ->
  exists explanation,
    classify_intent_with classifier pd language g = (Return (label, explanation), g1).
Proof.
  intros Htop Hl.
  destruct (explain_of_category label score (pd_text pd) g1 Hl)
    as (entry & keywords & _ & _ & He).
  eexists. unfold classify_intent_with, bind. rewrite Htop. simpl.
  by rewrite He.
Qed.
End ClassifierFacts.

Lemma top_intent_of_mock language sample_text g :
  exists scores g' top rest score,
    final_scores sample_text categories g = (Return scores, g') /\
    sorted_desc (fun label => default 0%Z (scores !! label)) categories = top :: rest /\
    top ∈ categories /\
    top_intent
      (pipeline_call (get_transformer_model "zero-shot-classification" language))
      sample_text g = (Return (top, score), g') /\
    (0 <= score)%Q /\ (score <= 1)%Q.
Proof.
  destruct (classify_text_spec sample_text g)
    as (scores & g' & top & rest & Hrun & _ & Hord & Htop & Hcall & H0 & H1).
  exists scores, g', top, rest. eexists.
  split; [done|]. split; [done|]. split; [done|].
  split; [|split; [exact H0 | exact H1]].
  unfold top_intent, try_except, bind.
  change (pipeline_call (get_transformer_model "zero-shot-classification" language))
    with _classify_text.
  by rewrite Hcall.
Qed.

(** C3: [classify_intent] returns one of the four categories, and the
    score of that label is between 0 and 1; when the classifier raises,
    the label is the first category and the score is 0.5. *)
Theorem classify_intent_label_and_score
    (pd : processed_doc) (language : string) (g : rng) :
  let sample_text := take 1000 (pd_text pd) in
  (exists label score explanation g',
     top_intent
       (pipeline_call (get_transformer_model "zero-shot-classification" language))
       sample_text g = (Return (label, score), g') /\
     classify_intent pd language g = (Return (label, explanation), g') /\
     label ∈ categories /\ (0 <= score)%Q /\ (score <= 1)%Q) /\
  (forall classifier exn g',
     classifier sample_text classify_kwargs g = (Raise exn, g') ->
     top_intent classifier sample_text g = (Return ("Complaint"%string, 1 # 2), g') /\
     exists explanation,
       classify_intent_with classifier pd language g =
         (Return ("Complaint"%string, explanation), g')).
Proof.
  intros sample_text. split.
  - destruct (top_intent_of_mock language sample_text g)
      as (scores & g' & top & rest & score & _ & _ & Htop & Hrun & H0 & H1).
    destruct (classify_intent_with_category _ pd language g top score g' Hrun Htop)
      as (explanation & Hc).
    by exists top, score, explanation, g'.
  - intros classifier exn g' Hraise.
    pose proof (top_intent_on_failure classifier sample_text g exn g' Hraise) as Htop.
    split; [exact Htop|].
    apply (classify_intent_with_category classifier pd language g _ _ g' Htop).
    by left.
Qed.

Lemma classify_intent_label_and_score_witness :
  top_intent failing_model (take 1000 (lit "Please help.")) zero_rng =
    (Return ("Complaint"%string, 1 # 2), zero_rng).
Proof.
  apply (proj2 (classify_intent_label_and_score
                  (document (lit "Please help.")) "English" zero_rng)
               failing_model "RuntimeError" zero_rng).
  reflexivity.
Defined.

(** C6: the classifier orders the four categories by descending score,
    categories of equal score staying in the order Complaint, Request,
    Update/Notification, Appreciation, and [classify_intent] returns the
    first of the ordered categories as the label. *)
Theorem classifier_ranks_categories
    (pd : processed_doc) (language : string) (g : rng) :
  let sample_text := take 1000 (pd_text pd) in
  exists scores g' ordered_labels,
    final_scores sample_text categories g = (Return scores, g') /\
    (exists normalized_scores sequence,
       _classify_text sample_text classify_kwargs g =
         (Return (RClassification (Some ordered_labels) (Some normalized_scores)
                    sequence), g')) /\
    let score_of := fun label => default 0%Z (scores !! label) in
    Permutation ordered_labels categories /\
    StronglySorted (fun a b => (score_of b <= score_of a)%Z) ordered_labels /\
    (forall a b, before a b categories -> score_of a = score_of b ->
                 before a b ordered_labels) /\
    exists top explanation,
      head ordered_labels = Some top /\
      classify_intent pd language g = (Return (top, explanation), g').
Proof.
  intros sample_text.
  destruct (classify_text_spec sample_text g)
    as (scores & g' & top & rest & Hrun & _ & Hord & Htop & Hcall & _).
  destruct (top_intent_of_mock language sample_text g)
    as (scores2 & g2 & top2 & rest2 & score & Hrun2 & Hord2 & _ & Hti & _).
  rewrite Hrun in Hrun2. injection Hrun2 as <- <-.
  rewrite Hord in Hord2. injection Hord2 as <- <-.
  exists scores, g', (top :: rest). split; [done|]. split; [by eauto|].
  intros score_of. rewrite <- Hord. split; [apply sorted_desc_perm|].
  split; [apply sorted_desc_descending|]. split.
  - intros a b Hab Heq. apply sorted_desc_stable; [done|].
    apply Z.eq_le_incl. symmetry. exact Heq.
  - rewrite Hord.
    destruct (classify_intent_with_category _ pd language g top score g' Hti Htop)
      as (explanation & Hc).
    by exists top, explanation.
Qed.

Lemma classifier_ranks_categories_witness :
  exists label explanation g',
    classify_intent (document (lit "Thank you. Please send the update.")) "English"
                    zero_rng = (Return (label, explanation), g') /\
    label ∈ categories.
Proof.
  destruct (classifier_ranks_categories
              (document (lit "Thank you. Please send the update.")) "English" zero_rng)
    as (scores & g' & ordered & _ & _ & Hperm & _ & _ & top & explanation & Hhead & Hc).
  exists top, explanation, g'. split; [exact Hc|]. clear Hc.
  destruct ordered as [|x rest]; [discriminate Hhead|]. injection Hhead as ->.
  rewrite <- Hperm. apply list_elem_of_here.
Defined.

(** ** The line of detected keywords *)

Lemma filter_sublist {A} (f : A -> bool) (l : list A) : List.filter f l `sublist_of` l.
Proof.
  induction l as [|x l IH]; simpl; [done|].
  destruct (f x); [by apply sublist_skip | by apply sublist_cons].
Qed.

Lemma not_elem_of_join (c : N) (sep : str) (l : list str) :
  c ∉ sep -> Forall (fun part => c ∉ part) l -> c ∉ join sep l.
Proof.
  intros Hsep. induction 1 as [|x l Hx Hl IH]; [by intros ?%elem_of_nil|].
  destruct l as [|y l]; [done|].
  change (join sep (x :: y :: l)) with (x ++ sep ++ join sep (y :: l)).
  rewrite !not_elem_of_app. done.
Qed.

Lemma intent_keywords_no_newline label keywords :
  intent_keywords !! label = Some keywords ->
  Forall (fun word => NL ∉ word) keywords.
Proof.
  intros H. apply elem_of_list_to_map_2 in H.
  repeat (apply elem_of_cons in H as [H | H];
          [injection H as _ ->; repeat constructor; by_evaluation|]).
  by apply elem_of_nil in H.
Qed.

Lemma Forall_filter_take {A} (P : A -> Prop) (f : A -> bool) (n : nat) (l : list A) :
  Forall P l -> Forall P (take n (List.filter f l)).
Proof.
  intros H. apply Forall_take. rewrite Forall_forall in *.
  intros x Hx%list_elem_of_In%filter_In. apply H, list_elem_of_In, Hx.
Qed.

(** The explanation is its opening parts, then the line of keywords if
    a keyword was found, then the sentence on the confidence. *)
Lemma explanation_text_parts entry keywords score text :
  exists head,
    (forall intent, explanations !! intent = Some entry -> CAPITAL_K ∉ head) /\
    explanation_text entry keywords score text =
      head ++
      match found_keywords keywords text with
      | [] => []
      | _ :: _ => keywords_line (found_keywords keywords text)
      end ++ NL :: confidence_explanations (confidence_level score).
Proof.
  unfold explanation_text. cbv zeta.
  match goal with
  | |- context [concat (match _ with [] => ?parts | _ :: _ => _ end ++ _)] =>
      set (opening := parts)
  end.
  exists (concat opening). split.
  - intros intent Hentry.
    destruct (explanations_no_capital_K _ _ Hentry) as [Hmain Hdetails].
    destruct (confidence_texts_no_capital_K (confidence_level score)) as [Hphrase _].
    apply not_elem_of_concat. unfold opening. rewrite !Forall_app. split.
    + apply Forall_cons. split; [|apply Forall_cons; split; [by_evaluation | done]].
      rewrite !not_elem_of_app.
      split_and!;
        [ assumption | by_evaluation | assumption | by_evaluation
        | apply format_2f_no_capital_K | by_evaluation ].
    + apply Forall_fmap. eapply Forall_impl; [exact Hdetails|].
      intros detail Hd. simpl. rewrite !not_elem_of_cons.
      split_and!; try assumption; by_evaluation.
  - clearbody opening.
    destruct (found_keywords keywords text) as [|w ws];
      rewrite !concat_app; cbn [concat app]; rewrite ?app_nil_r, <- ?app_assoc;
      reflexivity.
Qed.

(** C9, as the code has it: the keyword list searched for the line is
    the table [intent_keywords] of [classify_intent] (not the table the
    classifier scores with).  The matched terms are the terms of that
    list for the returned label that occur in the lower-cased first
    2000 characters of the text.  If there is one, the explanation has
    exactly one line that starts with "Keywords detected:", and that
    line is "Keywords detected: " followed by the first five matched
    terms, in the order of the list, joined by ", ", and nothing else;
    if there is none, "Keywords detected:" does not occur in the
    explanation. *)
Theorem keywords_line_of_explanation
    (classifier : str -> kwargs -> M pyresult)
    (pd : processed_doc) (language : string) (g : rng)
    (label : string) (explanation : str) (g' : rng) :
  classify_intent_with classifier pd language g = (Return (label, explanation), g') ->
  exists keywords,
    intent_keywords !! label = Some keywords /\
    let text_sample := lower (take 2000 (pd_text pd)) in
    let found := List.filter (fun word => str_in word text_sample) keywords in
    let listed := join (lit ", ") (take 5 found) in
    (found <> [] ->
     exists head tail,
       explanation =
         head ++ NL :: lit "Keywords detected: " ++ listed ++ NL :: tail /\
       (NL ∉ listed) /\
       ~ substring (lit "Keywords detected:") head /\
       ~ substring (lit "Keywords detected:") tail) /\
    (found = [] -> ~ substring (lit "Keywords detected:") explanation) /\
    length (take 5 found) <= 5 /\
    take 5 found `sublist_of` keywords.
Proof.
  intros (score & g1 & _ & Hexplain)%classify_intent_with_inv.
  apply explain_inv in Hexplain as (entry & keywords & Hentry & Hkeywords & ->).
  exists keywords. split; [done|]. intros text_sample found listed.
  destruct (explanation_text_parts entry keywords score (pd_text pd))
    as (head & Hhead & Htext).
  change (found_keywords keywords (pd_text pd)) with found in Htext.
  split_and!.
  - intros Hfound.
    exists head, (confidence_explanations (confidence_level score)).
    split_and!.
    + rewrite Htext. destruct found as [|w ws] eqn:E; [done|].
      unfold keywords_line. fold listed.
      rewrite <- ?app_assoc. reflexivity.
    + apply not_elem_of_join; [by_evaluation|].
      by apply Forall_filter_take, intent_keywords_no_newline with (label := label).
    + apply no_capital_K_no_header. by apply (Hhead label).
    + apply no_capital_K_no_header, confidence_texts_no_capital_K.
  - intros Hfound. by apply (explanation_without_keywords label).
  - rewrite length_take. lia.
  - etransitivity; [apply sublist_take | apply filter_sublist].
Qed.

Lemma keywords_line_of_explanation_witness :
  exists explanation head tail,
    classify_intent (document (lit "Kindly provide the documents, please."))
                    "English" zero_rng =
      (Return ("Request"%string, explanation), zero_rng) /\
    explanation =
      head ++ NL :: lit "Keywords detected: " ++ lit "please, kindly, provide" ++
      NL :: tail.
Proof.
  set (pd := document (lit "Kindly provide the documents, please.")).
  assert (exists e, classify_intent pd "English" zero_rng =
                      (Return ("Request"%string, e), zero_rng)) as [e Hrun]
    by (eexists; vm_compute; reflexivity).
  exists e.
  destruct (keywords_line_of_explanation _ pd "English" zero_rng "Request" e zero_rng Hrun)
    as (keywords & Hk & Hfound & _).
  vm_compute in Hk. injection Hk as <-.
  destruct Hfound as (head & tail & Hline & _); [by vm_compute|].
  exists head, tail. split; [exact Hrun|].
  rewrite Hline. vm_compute. reflexivity.
Defined.

(** The claim C9 read with the keyword list of the classifier: "bad" is
    a Complaint keyword of [_classify_text] and makes the label
    Complaint, it occurs in the text, and the explanation has no
    "Keywords detected:" line. *)
Lemma keywords_line_counterexample :
  let pd := document (lit "bad service") in
  exists explanation,
    classify_intent pd "English" zero_rng =
      (Return ("Complaint"%string, explanation), zero_rng) /\
    (exists keywords,
       ("Complaint"%string, keywords) ∈ keyword_categories /\
       lit "bad" ∈ keywords /\
       str_in (lit "bad") (lower (take 2000 (pd_text pd))) = true) /\
    ~ substring (lit "Keywords detected:") explanation.
Proof.
  eexists. split; [vm_compute; reflexivity|]. split.
  - eexists. split; [apply list_elem_of_here|]. split; [by_evaluation | reflexivity].
  - intros H%str_in_substring. vm_compute in H. discriminate H.
Qed.

(** ** Instances *)

Lemma no_keyword_by_evaluation (text_lower : str) :
  forallb (fun '(_, keywords) =>
             forallb (fun keyword => negb (str_in keyword text_lower)) keywords)
          keyword_categories = true ->
  no_keyword text_lower.
Proof.
  intros H category keywords keyword Hc Hk Hsub.
  rewrite forallb_forall in H. apply list_elem_of_In, H in Hc.
  rewrite forallb_forall in Hc. apply list_elem_of_In, Hc in Hk.
  apply str_in_substring in Hsub. by rewrite Hsub in Hk.
Qed.

Lemma fallback_scores_in_range_witness :
  exists scores g',
    final_scores (take 1000 (lit "Nothing to see here.")) categories zero_rng =
      (Return scores, g') /\
    forall category, category ∈ categories ->
      exists n, scores !! category = Some n /\ (1 <= n <= 10)%Z.
Proof.
  apply (fallback_scores_in_range (document (lit "Nothing to see here.")) zero_rng).
  apply no_keyword_by_evaluation. vm_compute. reflexivity.
Defined.

Lemma get_summary_catches_failures_witness :
  get_summary_with failing_model (document (lit "One. Two. Three. Four.")) "English"
                   zero_rng =
    (Return (lit "One. Two. Three...."), zero_rng).
Proof.
  apply (proj1 (proj2 (get_summary_catches_failures
                         failing_model (document (lit "One. Two. Three. Four."))
                         "English" zero_rng))
               "RuntimeError" zero_rng).
  - vm_compute. lia.
  - reflexivity.
Defined.

Lemma single_paragraph_summary_unchanged_witness :
  get_summary_with failing_model (document long_paragraph) "English" zero_rng =
    (Return (take 100 long_paragraph ++ lit "..."), zero_rng) /\
  exists summary,
    _generate_summary long_paragraph 75 15 = RList [IDict (Some summary)] /\
    get_summary (document long_paragraph) "English" zero_rng =
      (Return summary, zero_rng).
Proof.
  assert (Hlen : 1000 < length (pd_text (document long_paragraph)))
    by (apply Nat.ltb_lt; vm_compute; reflexivity).
  assert (Hone : List.filter (fun p => 200 <? length (strip p))
                   (paragraphs_of (pd_text (document long_paragraph))) =
                 [long_paragraph])
    by (vm_compute; reflexivity).
  split.
  - apply (proj1 (proj2 (proj2
             (single_paragraph_summary_unchanged
                failing_model (document long_paragraph) "English" zero_rng
                long_paragraph Hlen Hone)))
           "RuntimeError" zero_rng).
    reflexivity.
  - apply (proj2 (proj2 (proj2
             (single_paragraph_summary_unchanged
                failing_model (document long_paragraph) "English" zero_rng
                long_paragraph Hlen Hone)))).
Defined.

(** ** The summarizer of the mock pipeline *)

Lemma generate_summary_length (text : str) (max_length min_length : nat) :
  exists summary,
    _generate_summary text max_length min_length = RList [IDict (Some summary)] /\
    length summary <= max_length + 3.
Proof.
  unfold _generate_summary.
  match goal with
  | |- context [RList [IDict (Some (if max_length <? length ?s then _ else _))]] =>
      set (summary := s)
  end.
  eexists. split; [reflexivity|].
  destruct (Nat.ltb_spec max_length (length summary)).
  - rewrite length_app, length_take. change (length ELLIPSIS) with 3. lia.
  - lia.
Qed.

(** X1: The summarization pipeline returns a list of one dictionary whose
    ["summary_text"] has at most [max_length] characters and three
    more for the ellipsis ([max_length] is 300 when the caller gives
    none); it never raises and leaves the random generator alone. *)
Theorem summarization_pipeline_bounded
    (language : string) (text : str) (kw : kwargs) (g : rng) :
  exists summary,
    pipeline_call (get_transformer_model "summarization" language) text kw g =
      (Return (RList [IDict (Some summary)]), g) /\
    length summary <= default 300 (kw_max_length kw) + 3.
Proof.
  destruct (generate_summary_length text (default 300 (kw_max_length kw))
              (default 150 (kw_min_length kw))) as (s & Hs & Hlen).
  exists s. split; [|done].
  unfold pipeline_call, ret. simpl. by rewrite Hs.
Qed.

Lemma mock_summarizer_call language text max_length min_length g :
  exists summary,
    mock_summarizer language text (summary_kwargs max_length min_length) g =
      (Return (RList [IDict (Some summary)]), g) /\
    length summary <= max_length + 3.
Proof.
  destruct (generate_summary_length text max_length min_length) as (s & Hs & Hlen).
  exists s. split; [|done].
  unfold mock_summarizer, pipeline_call, ret. simpl. by rewrite Hs.
Qed.

Lemma mock_summarize_paragraph language max_length min_length para g :
  exists s,
    summarize_paragraph (mock_summarizer language) max_length min_length para g =
      (Return s, g) /\
    length s <= max_length / 2 + 3.
Proof.
  destruct (mock_summarizer_call language para (max_length / 2) (min_length / 2) g)
    as (s & Hs & Hlen).
  exists s. split; [|done].
  unfold summarize_paragraph, try_except, bind. by rewrite Hs.
Qed.

Lemma mock_paragraph_loop language max_length min_length paragraphs summaries g :
  Forall (fun s => length s <= max_length / 2 + 3) summaries ->
  exists summaries',
    for_each paragraphs summaries
      (fun summaries para =>
         if 200 <? length (strip para) then
           let* para_summary :=
             summarize_paragraph (mock_summarizer language) max_length min_length para in
           ret (summaries ++ [para_summary])
         else ret summaries) g = (Return summaries', g) /\
    Forall (fun s => length s <= max_length / 2 + 3) summaries'.
Proof.
  revert summaries. induction paragraphs as [|p ps IH]; intros summaries Hall; simpl.
  - by exists summaries.
  - destruct (200 <? length (strip p)).
    + destruct (mock_summarize_paragraph language max_length min_length p g)
        as (s & Hs & Hlen).
      destruct (IH (summaries ++ [s])) as (l & Hl & Hall').
      { apply Forall_app. split; [done|]. by constructor. }
      exists l. split; [|done].
      unfold bind at 1. unfold bind at 1. rewrite Hs. unfold ret at 1. exact Hl.
    + destruct (IH summaries Hall) as (l & Hl & Hall').
      exists l. split; [|done]. unfold bind at 1, ret at 1. exact Hl.
Qed.

Lemma mock_combine_summaries language max_length min_length summaries g :
  exists s,
    combine_summaries (mock_summarizer language) max_length min_length summaries g =
      (Return s, g) /\
    length s <= Nat.max 1000 (max_length + 3).
Proof.
  unfold combine_summaries.
  destruct (Nat.ltb_spec 1000 (length (join SPACE summaries))).
  - destruct (mock_summarizer_call language (join SPACE summaries) max_length min_length g)
      as (s & Hs & Hlen).
    exists s. split; [|lia]. unfold try_except, bind. by rewrite Hs.
  - eexists. split; [reflexivity|]. lia.
Qed.

(** X2: With the pipeline of the repository, [get_summary] returns, does
    not touch the random generator, and gives at most 1000 characters. *)
Theorem get_summary_bounded (pd : processed_doc) (language : string) (g : rng) :
  exists summary,
    get_summary pd language g = (Return summary, g) /\
    length summary <= 1000.
Proof.
  unfold get_summary. fold (mock_summarizer language). unfold get_summary_with.
  set (text := pd_text pd).
  set (max_length := Nat.min 150 (length text / 4)).
  set (min_length := Nat.min 30 (max_length / 2)).
  assert (Hmax : max_length <= 150) by apply Nat.le_min_l.
  assert (Hhalf : max_length / 2 + 3 <= 78).
  { pose proof (Nat.Div0.div_le_mono max_length 150 2 Hmax) as H.
    change (150 / 2) with 75 in H. lia. }
  destruct (1000 <? length text).
  - destruct (mock_paragraph_loop language max_length min_length (paragraphs_of text) [] g)
      as (summaries & Hrun & Hall); [constructor|].
    unfold bind. unfold paragraph_summaries. rewrite Hrun.
    destruct summaries as [|s1 [|s2 rest]].
    + eexists. split; [reflexivity|].
      rewrite length_app, length_take. change (length ELLIPSIS) with 3. lia.
    + exists s1. split; [reflexivity|]. inversion Hall; subst. lia.
    + destruct (mock_combine_summaries language max_length min_length (s1 :: s2 :: rest) g)
        as (s & Hs & Hlen).
      exists s. split; [exact Hs | lia].
  - destruct (mock_summarizer_call language text max_length min_length g)
      as (s & Hs & Hlen).
    exists s. split; [|lia].
    unfold summarize_directly, try_except, bind. by rewrite Hs.
Qed.

(** X3: When no paragraph of a long text has more than 200 trimmed
    characters, the summary is the first 150 characters and an
    ellipsis, and the model is not called. *)
Theorem summary_without_long_paragraph
    (summarizer : str -> kwargs -> M pyresult)
    (pd : processed_doc) (language : string) (g : rng) :
  1000 < length (pd_text pd) ->
  List.filter (fun p => 200 <? length (strip p)) (paragraphs_of (pd_text pd)) = [] ->
  get_summary_with summarizer pd language g =
    (Return (take 150 (pd_text pd) ++ ELLIPSIS), g).
Proof.
  intros Hlen Hnone. unfold get_summary_with.
  destruct (Nat.ltb_spec 1000 (length (pd_text pd))); [|lia].
  unfold bind, paragraph_summaries.
  rewrite (paragraph_summaries_skip summarizer _ _ _ [] g Hnone).
  assert (Hquarter : 150 <= length (pd_text pd) / 4).
  { apply Nat.div_le_lower_bound; lia. }
  by rewrite Nat.min_l.
Qed.

Lemma summary_without_long_paragraph_witness :
  get_summary_with failing_model (document short_paragraphs) "English" zero_rng =
    (Return (take 150 short_paragraphs ++ ELLIPSIS), zero_rng).
Proof.
  apply (summary_without_long_paragraph failing_model (document short_paragraphs)).
  - apply Nat.ltb_lt. vm_compute. reflexivity.
  - vm_compute. reflexivity.
Defined.


(** ** The accumulator only grows *)

Lemma appends_keeps {A} Q P (f : list str -> A -> list str) :
  appends Q f -> kept_by_appending Q P -> forall bs x, P bs -> P (f bs x).
Proof.
  intros Hf HP bs x Hbs. destruct (Hf bs x) as [-> | (b & Hb & ->)]; [done|].
  by apply HP.
Qed.

Lemma appends_foldl {A B} Q (f : list str -> A -> list str)
    (items : B -> list A) P :
  appends Q f -> kept_by_appending Q P ->
  forall (l : list B) bs, P bs -> P (foldl (fun bs y => foldl f bs (items y)) bs l).
Proof.
  intros Hf HP l bs Hbs. apply (foldl_invariant P); [|done].
  intros a y _ Ha. apply (foldl_invariant P); [|done].
  intros a' x _ Ha'. by apply (appends_keeps Q P f).
Qed.

Lemma phase1_sentence_appends : appends (fun b => b <> []) phase1_sentence.
Proof.
  intros bs s. unfold phase1_sentence.
  destruct (_ <? 15); [by left|].
  destruct (_ || _); [|by left].
  destruct (strip _) as [|c cs] eqn:E; [by left|].
  right. by exists (c :: cs).
Qed.

Lemma strip_length_nonempty (s : str) n :
  (length (strip s) <? S n) = false -> s <> [].
Proof. intros H ->. done. Qed.

Lemma phase2_sentence_appends : appends (fun b => b <> []) phase2_sentence.
Proof.
  intros bs s. unfold phase2_sentence.
  destruct (_ <? 15) eqn:E; [by left|].
  destruct (any_in _ _); [|by left].
  right. exists s. split; [|done]. by eapply strip_length_nonempty.
Qed.

Lemma phase3_sentence_appends : appends (fun b => b <> []) phase3_sentence.
Proof.
  intros bs s. unfold phase3_sentence.
  destruct (_ || _) eqn:E; [|by left].
  right. exists s. split; [|done]. intros ->. by vm_compute in E.
Qed.

Lemma phase4_sentence_appends : appends (fun b => b <> []) phase4_sentence.
Proof.
  intros bs s. unfold phase4_sentence.
  destruct (_ && _) eqn:E; [|by left].
  right. exists s. split; [|done]. intros ->. by vm_compute in E.
Qed.

Section Growth.
Variable P : list str -> Prop.
Hypothesis P_kept : kept_by_appending (fun b => b <> []) P.

Lemma phase1_paragraph_keeps bs para : P bs -> P (phase1_paragraph bs para).
Proof.
  intros Hbs. unfold phase1_paragraph. destruct (_ <? 20); [done|].
  apply (foldl_invariant P); [|done].
  intros a' s _ Ha'. by apply (appends_keeps _ P _ phase1_sentence_appends).
Qed.

Lemma phase1_keeps ps bs : P bs -> P (phase1 ps bs).
Proof.
  intros Hbs. unfold phase1. apply (foldl_invariant P); [|done].
  intros a para _ Ha. by apply phase1_paragraph_keeps.
Qed.

Lemma phase2_paragraph_keeps bs para : P bs -> P (phase2_paragraph bs para).
Proof.
  intros Hbs. unfold phase2_paragraph. destruct (_ <? 20); [done|].
  apply (foldl_invariant P).
  - intros a' s _ Ha'. by apply (appends_keeps _ P _ phase2_sentence_appends).
  - destruct (sentences_of para) as [|first rest]; [done|].
    destruct (Nat.ltb_spec 15 (length first)); [|done].
    apply P_kept; [|done]. intros ->. simpl in *. lia.
Qed.

Lemma phase2_keeps ps bs : P bs -> P (phase2 ps bs).
Proof.
  intros Hbs. unfold phase2. destruct (_ <? 15); [|done].
  apply (foldl_invariant P); [|done].
  intros a para _ Ha. by apply phase2_paragraph_keeps.
Qed.

Lemma phase3_keeps ps bs : P bs -> P (phase3 ps bs).
Proof. apply (appends_foldl _ _ sentences_of P phase3_sentence_appends P_kept). Qed.

Lemma phase4_keeps ps bs : P bs -> P (phase4 ps bs).
Proof. apply (appends_foldl _ _ sentences_of P phase4_sentence_appends P_kept). Qed.
End Growth.

Lemma nonempty_kept : kept_by_appending (fun b => b <> []) (Forall (fun b => b <> [])).
Proof.
  intros bs b Hb Hbs. unfold append_new. case_bool_decide; [done|].
  apply Forall_app. split; [done|]. by constructor.
Qed.

Lemma prefix_kept (bs0 : list str) :
  kept_by_appending (fun b => b <> []) (fun bs => bs0 `prefix_of` bs).
Proof.
  intros bs b _ Hbs. unfold append_new. case_bool_decide; [done|].
  by apply prefix_app_r.
Qed.

Lemma member_kept (b0 : str) :
  kept_by_appending (fun b => b <> []) (fun bs => b0 ∈ bs).
Proof.
  intros bs b _ Hbs. unfold append_new. case_bool_decide; [done|].
  apply elem_of_app. by left.
Qed.

(** X4: No returned bullet is a bare category prefix. *)
Theorem bullets_are_not_empty (pd : processed_doc) (language : string) :
  Forall (fun b => strip_category_prefix b <> []) (extract_bullet_points pd language).
Proof.
  apply Forall_forall. intros b Hb.
  apply (list_elem_of_fmap_2 strip_category_prefix) in Hb.
  rewrite stripped_bullets in Hb.
  assert (Hall : Forall (fun b => b <> []) (collect_bullets (pd_text pd))).
  { unfold collect_bullets.
    pose proof nonempty_kept as Hk.
    apply (phase4_keeps _ Hk), (phase3_keeps _ Hk), (phase2_keeps _ Hk),
      (phase1_keeps _ Hk).
    constructor. }
  apply (Forall_take _ 20) in Hall. rewrite Forall_forall in Hall. by apply Hall.
Qed.

(** X5: Each phase keeps what the phases before it collected, in the same
    order, at the front of the accumulator. *)
Theorem phases_only_append (text : str) :
  let paragraphs := paragraphs_of text in
  let bullets1 := phase1 paragraphs [] in
  let bullets2 := phase2 paragraphs bullets1 in
  let bullets3 := phase3 paragraphs bullets2 in
  bullets1 `prefix_of` bullets2 /\
  bullets2 `prefix_of` bullets3 /\
  bullets3 `prefix_of` collect_bullets text.
Proof.
  intros paragraphs bullets1 bullets2 bullets3. split_and!.
  - by apply (phase2_keeps _ (prefix_kept bullets1)).
  - by apply (phase3_keeps _ (prefix_kept bullets2)).
  - by apply (phase4_keeps _ (prefix_kept bullets3)).
Qed.

(** ** What the phases are sure to collect *)

Lemma foldl_reaches {A B} (Q : A -> Prop) (f : A -> B -> A) (l : list B) (x : B) :
  x ∈ l ->
  (forall a y, Q a -> Q (f a y)) ->
  (forall a, Q (f a x)) ->
  forall a, Q (foldl f a l).
Proof.
  intros (l1 & l2 & ->)%list_elem_of_split Hkeep Hx a.
  rewrite foldl_app. simpl.
  apply (foldl_invariant Q); [|apply Hx].
  intros a' y _. apply Hkeep.
Qed.

Lemma append_new_member (bs : list str) (b : str) : b ∈ append_new bs b.
Proof.
  unfold append_new. case_bool_decide; [done|].
  apply elem_of_app. right. by left.
Qed.

(** X6: Every sentence with a question mark and more than 20 characters is
    collected. *)
Theorem questions_are_collected (text para sentence : str) :
  para ∈ paragraphs_of text ->
  sentence ∈ sentences_of para ->
  str_in [QUESTION_MARK] sentence = true ->
  20 < length sentence ->
  sentence ∈ collect_bullets text.
Proof.
  intros Hpara Hsentence Hq Hlen. unfold collect_bullets, phase4.
  apply (foldl_reaches (fun bs => sentence ∈ bs) _ _ para Hpara).
  - intros a y Ha. apply (foldl_invariant (fun bs => sentence ∈ bs)); [|done].
    intros a' s _. apply (appends_keeps _ _ _ phase4_sentence_appends (member_kept sentence)).
  - intros a. apply (foldl_reaches (fun bs => sentence ∈ bs) _ _ sentence Hsentence).
    + intros a' s. apply (appends_keeps _ _ _ phase4_sentence_appends (member_kept sentence)).
    + intros a'. unfold phase4_sentence. rewrite Hq.
      apply Nat.ltb_lt in Hlen. rewrite Hlen. apply append_new_member.
Qed.

(** X7: Every sentence with a percentage, a dollar amount, four digits in a
    row, or a number of millions, billions or trillions is collected,
    whatever its length. *)
Theorem quantities_are_collected (text para sentence : str) :
  para ∈ paragraphs_of text ->
  sentence ∈ sentences_of para ->
  re_search PERCENTAGE sentence || re_search MONEY sentence ||
    re_search YEAR sentence || re_search LARGE_NUMBER (lower sentence) = true ->
  sentence ∈ collect_bullets text.
Proof.
  intros Hpara Hsentence Hq. unfold collect_bullets.
  apply (phase4_keeps _ (member_kept sentence)). unfold phase3.
  apply (foldl_reaches (fun bs => sentence ∈ bs) _ _ para Hpara).
  - intros a y Ha. apply (foldl_invariant (fun bs => sentence ∈ bs)); [|done].
    intros a' s _. apply (appends_keeps _ _ _ phase3_sentence_appends (member_kept sentence)).
  - intros a. apply (foldl_reaches (fun bs => sentence ∈ bs) _ _ sentence Hsentence).
    + intros a' s. apply (appends_keeps _ _ _ phase3_sentence_appends (member_kept sentence)).
    + intros a'. unfold phase3_sentence. rewrite Hq. apply append_new_member.
Qed.

(** X8: A sentence of a paragraph of at least 20 trimmed characters that has
    at least 15 trimmed characters and contains an indicator, or begins
    with a list marker, is collected in its cleaned form. *)
Theorem indicator_sentences_are_collected (text para sentence : str) :
  para ∈ paragraphs_of text ->
  20 <= length (strip para) ->
  sentence ∈ sentences_of para ->
  15 <= length (strip sentence) ->
  any_in indicators (lower sentence) || re_match NUMBERED sentence ||
    re_match BULLETED sentence = true ->
  strip (re_sub LEADING_MARKER [] sentence) <> [] ->
  strip (re_sub LEADING_MARKER [] sentence) ∈ collect_bullets text.
Proof.
  intros Hpara Hplen Hsentence Hslen Hcond Hclean.
  set (clean := strip (re_sub LEADING_MARKER [] sentence)) in *.
  unfold collect_bullets.
  apply (phase4_keeps _ (member_kept clean)), (phase3_keeps _ (member_kept clean)),
    (phase2_keeps _ (member_kept clean)).
  unfold phase1.
  apply (foldl_reaches (fun bs => clean ∈ bs) _ _ para Hpara).
  - intros a y. apply (phase1_paragraph_keeps _ (member_kept clean)).
  - intros a. unfold phase1_paragraph.
    destruct (Nat.ltb_spec (length (strip para)) 20); [lia|].
    apply (foldl_reaches (fun bs => clean ∈ bs) _ _ sentence Hsentence).
    + intros a' s. apply (appends_keeps _ _ _ phase1_sentence_appends (member_kept clean)).
    + intros a'. unfold phase1_sentence.
      destruct (Nat.ltb_spec (length (strip sentence)) 15); [lia|].
      rewrite Hcond. fold clean.
      destruct clean as [|c cs] eqn:E; [done|]. apply append_new_member.
Qed.

(** X9: When the indicator phase collects fewer than 15 bullets, the first
    sentence of every paragraph of at least 20 trimmed characters is
    collected if it has more than 15 characters, and so is every later
    sentence of at least 15 trimmed characters with a topic indicator. *)
Theorem topic_sentences_are_collected (text para first : str) (rest : list str) :
  length (phase1 (paragraphs_of text) []) < 15 ->
  para ∈ paragraphs_of text ->
  20 <= length (strip para) ->
  sentences_of para = first :: rest ->
  (15 < length first -> first ∈ collect_bullets text) /\
  (forall sentence,
     sentence ∈ rest ->
     15 <= length (strip sentence) ->
     any_in topic_sentence_indicators (lower sentence) = true ->
     sentence ∈ collect_bullets text).
Proof.
  intros Hfew Hpara Hplen Hsentences.
  assert (Hreach : forall s,
            (forall a, s ∈ phase2_paragraph a para) -> s ∈ collect_bullets text).
  { intros s Hs. unfold collect_bullets.
    apply (phase4_keeps _ (member_kept s)), (phase3_keeps _ (member_kept s)).
    unfold phase2. apply Nat.ltb_lt in Hfew. rewrite Hfew.
    apply (foldl_reaches (fun bs => s ∈ bs) _ _ para Hpara); [|done].
    intros a y. apply (phase2_paragraph_keeps _ (member_kept s)). }
  split.
  - intros Hlen. apply Hreach. intros a. unfold phase2_paragraph.
    destruct (Nat.ltb_spec (length (strip para)) 20); [lia|].
    rewrite Hsentences. apply Nat.ltb_lt in Hlen. rewrite Hlen.
    apply (foldl_invariant (fun bs => first ∈ bs)); [|apply append_new_member].
    intros a' s _.
    apply (appends_keeps _ _ _ phase2_sentence_appends (member_kept first)).
  - intros sentence Hin Hslen Htopic. apply Hreach. intros a. unfold phase2_paragraph.
    destruct (Nat.ltb_spec (length (strip para)) 20); [lia|].
    rewrite Hsentences. simpl drop. rewrite drop_0.
    apply (foldl_reaches (fun bs => sentence ∈ bs) _ _ sentence Hin).
    + intros a' s.
      apply (appends_keeps _ _ _ phase2_sentence_appends (member_kept sentence)).
    + intros a'. unfold phase2_sentence.
      destruct (Nat.ltb_spec (length (strip sentence)) 15); [lia|].
      rewrite Htopic. apply append_new_member.
Qed.

Lemma questions_are_collected_witness :
  lit "Why did the committee approve the plan?" ∈ collect_bullets budget_text.
Proof.
  apply (questions_are_collected budget_text budget_text).
  - by_evaluation.
  - by_evaluation.
  - reflexivity.
  - apply Nat.ltb_lt. reflexivity.
Defined.

Lemma quantities_are_collected_witness :
  lit "The budget grew by 12% in 2023." ∈ collect_bullets budget_text.
Proof.
  apply (quantities_are_collected budget_text budget_text).
  - by_evaluation.
  - by_evaluation.
  - vm_compute. reflexivity.
Defined.

Lemma indicator_sentences_are_collected_witness :
  strip (re_sub LEADING_MARKER [] important_text) ∈ collect_bullets important_text.
Proof.
  apply (indicator_sentences_are_collected important_text important_text).
  - by_evaluation.
  - apply Nat.leb_le. vm_compute. reflexivity.
  - by_evaluation.
  - apply Nat.leb_le. vm_compute. reflexivity.
  - vm_compute. reflexivity.
  - vm_compute. discriminate.
Defined.

Lemma topic_sentences_are_collected_witness :
  lit "The council met on Monday." ∈ collect_bullets council_text /\
  lit "They discussed the new road." ∈ collect_bullets council_text.
Proof.
  assert (Hfew : length (phase1 (paragraphs_of council_text) []) < 15)
    by (apply Nat.ltb_lt; vm_compute; reflexivity).
  assert (Hpara : council_text ∈ paragraphs_of council_text) by by_evaluation.
  assert (Hlen : 20 <= length (strip council_text))
    by (apply Nat.leb_le; vm_compute; reflexivity).
  assert (Hsentences : sentences_of council_text =
            lit "The council met on Monday." :: [lit "They discussed the new road."])
    by (vm_compute; reflexivity).
  destruct (topic_sentences_are_collected council_text council_text _ _
              Hfew Hpara Hlen Hsentences) as [Hfirst Hrest].
  split.
  - apply Hfirst. apply Nat.ltb_lt. vm_compute. reflexivity.
  - apply Hrest.
    + apply list_elem_of_here.
    + apply Nat.leb_le. vm_compute. reflexivity.
    + vm_compute. reflexivity.
Defined.


(** ** Sentences are split at every boundary *)

Lemma star_greedy_rest (p : N -> bool) (prev : option N) (s : str) :
  exists rest,
    star_greedy p (fun _ rest => Some rest) prev s = Some rest /\
    length rest <= length s.
Proof.
  revert prev. induction s as [|c s IH]; intros prev; simpl; [by eexists|].
  destruct (p c); [|by eexists].
  destruct (IH (Some c)) as (rest & -> & Hlen). exists rest. split; [done | lia].
Qed.

Lemma sentence_sep_match (prev : option N) (c : N) (s : str) :
  match prev with
  | Some t => terminator t && is_space c
  | None => false
  end = true ->
  exists m, match_len SENTENCE_SEP prev (c :: s) = Some (S m).
Proof.
  intros H. destruct prev as [t|]; [|done].
  apply andb_true_iff in H as [Ht Hc].
  unfold match_len, SENTENCE_SEP, Cat. cbn [rmatch].
  change (one_of (lit ".!?") t) with (terminator t). rewrite Ht, Hc.
  destruct (star_greedy_rest is_space (Some c) s) as (rest & -> & Hlen).
  exists (length s - length rest). f_equal. simpl length. lia.
Qed.

Lemma sentence_sep_no_match (prev : option N) (c : N) (s : str) :
  match prev with
  | Some t => terminator t && is_space c
  | None => false
  end = false ->
  match_len SENTENCE_SEP prev (c :: s) = None.
Proof.
  intros H. unfold match_len, SENTENCE_SEP, Cat. cbn [rmatch].
  destruct prev as [t|]; [|done].
  change (one_of (lit ".!?") t) with (terminator t).
  destruct (terminator t); [|done]. simpl in H. by rewrite H.
Qed.

Lemma split_scan_sentences (s : str) :
  forall prev skip, exists h t,
    split_scan SENTENCE_SEP prev s skip = h :: t /\
    has_boundary None h = false /\
    (skip = 0 -> has_boundary prev h = false) /\
    Forall (fun piece => has_boundary None piece = false) t.
Proof.
  induction s as [|c s IH]; intros prev skip; simpl.
  - by exists [], [].
  - destruct skip as [|n].
    + destruct (match prev with
                | Some t => terminator t && is_space c
                | None => false
                end) eqn:Hb.
      * destruct (sentence_sep_match prev c s Hb) as (m & ->).
        destruct (IH (Some c) m) as (h & t & -> & Hh & _ & Ht).
        exists [], (h :: t). split_and!; try done. by constructor.
      * rewrite (sentence_sep_no_match prev c s Hb).
        destruct (IH (Some c) 0) as (h & t & -> & Hh & Hhead & Ht).
        exists (c :: h), t. simpl. split_and!; try done.
        -- by apply Hhead.
        -- intros _. rewrite Hb. by apply Hhead.
    + destruct (IH (Some c) n) as (h & t & -> & Hh & _ & Ht).
      exists h, t. split_and!; try done.
Qed.

Lemma has_boundary_inside (prev : option N) (pre post : str) (c1 c2 : N) :
  has_boundary prev (pre ++ c1 :: c2 :: post) = false ->
  terminator c1 && is_space c2 = false.
Proof.
  revert prev. induction pre as [|x pre IH]; intros prev; simpl.
  - intros H. apply orb_false_iff in H as [_ H]. by apply orb_false_iff in H as [H _].
  - intros H. apply orb_false_iff in H as [_ H]. by apply (IH (Some x)).
Qed.

(** X10: No sentence holds a terminator directly followed by white space:
    the splitter cuts at every such place. *)
Theorem sentences_have_no_boundary (text sentence pre post : str) (c1 c2 : N) :
  sentence ∈ sentences_of text ->
  sentence = pre ++ c1 :: c2 :: post ->
  terminator c1 && is_space c2 = false.
Proof.
  intros Hin ->. apply (has_boundary_inside None pre post).
  unfold sentences_of, re_split in Hin.
  destruct (split_scan_sentences text None 0) as (h & t & Hsplit & Hh & _ & Ht).
  rewrite Hsplit in Hin. apply elem_of_cons in Hin as [-> | Hin]; [done|].
  rewrite Forall_forall in Ht. by apply Ht.
Qed.

Lemma sentences_have_no_boundary_witness :
  terminator 46 && is_space 53 = false.
Proof.
  apply (sentences_have_no_boundary
           (lit "Version 3.5 was released. It works.")
           (lit "Version 3.5 was released.")
           (lit "Version 3") (lit " was released.")).
  - by_evaluation.
  - reflexivity.
Defined.


(** ** [process_document] *)

Lemma chunks_of_concat (fuel size : nat) (s : str) :
  0 < size -> length s <= fuel -> concat (chunks_of fuel size s) = s.
Proof.
  intros Hsize. revert s. induction fuel as [|fuel IH]; intros s Hlen.
  - destruct s; [done | simpl in Hlen; lia].
  - destruct s as [|c s]; [done|].
    change (chunks_of (S fuel) size (c :: s))
      with (take size (c :: s) :: chunks_of fuel size (drop size (c :: s))).
    simpl concat. rewrite IH; [apply take_drop|].
    rewrite length_drop. simpl in *. lia.
Qed.

Lemma chunks_of_sizes (fuel size : nat) (s : str) :
  0 < size ->
  Forall (fun chunk => 0 < length chunk <= size) (chunks_of fuel size s).
Proof.
  intros Hsize. revert s. induction fuel as [|fuel IH]; intros s; [constructor|].
  destruct s as [|c s]; [constructor|].
  change (chunks_of (S fuel) size (c :: s))
    with (take size (c :: s) :: chunks_of fuel size (drop size (c :: s))).
  constructor; [|apply IH].
  rewrite length_take. simpl length. lia.
Qed.

Lemma max_chunk_size_positive : 0 < max_chunk_size.
Proof. unfold max_chunk_size. lia. Qed.

(** X11: [process_document] keeps the whole text: a text of at most 100000
    characters is analysed as one document, a longer one as chunks of
    at most 100000 characters each whose texts, put end to end, are the
    text; every part carries the language asked for. *)
Theorem process_document_keeps_text
    (finditer : string -> str -> list (nat * nat))
    (text : str) (language : string) :
  match pd_analysed (process_document finditer text language) with
  | Whole d =>
      length text <= max_chunk_size /\ doc_text d = text /\ doc_language d = language
  | Chunks ds =>
      max_chunk_size < length text /\
      concat (doc_text <$> ds) = text /\
      Forall (fun d => 0 < length (doc_text d) <= max_chunk_size /\
                       doc_language d = language) ds
  end.
Proof.
  unfold process_document.
  destruct (Nat.leb_spec (length text) max_chunk_size); simpl; [done|].
  split; [done|]. rewrite <- list_fmap_compose. split.
  - assert (Hid : forall l : list str,
                     (doc_text ∘ nlp finditer language) <$> l = l)
      by (induction l as [|x l IH]; [done | by rewrite fmap_cons, IH]).
    rewrite Hid.
    apply chunks_of_concat; [apply max_chunk_size_positive | done].
  - apply Forall_fmap.
    eapply Forall_impl; [apply (chunks_of_sizes _ _ _ max_chunk_size_positive)|].
    by intros chunk Hc.
Qed.

(** X12: A language outside the four of the table is annotated with the
    English patterns. *)
Theorem unknown_language_uses_english
    (finditer : string -> str -> list (nat * nat))
    (language : string) (text : str) :
  language ∉ ["English"; "Hindi"; "Marathi"; "Tamil"]%string ->
  _extract_mock_entities finditer language text =
  _extract_mock_entities finditer "English" text.
Proof.
  intros Hl. unfold _extract_mock_entities.
  assert (entity_patterns !! language = None) as ->.
  { apply not_elem_of_list_to_map. exact Hl. }
  simpl default at 1.
  by destruct (entity_patterns !! "English"%string).
Qed.

Lemma unknown_language_uses_english_witness :
  _extract_mock_entities (fun _ _ => [(0, 4)]) "French" (lit "Jean Dupont") =
  _extract_mock_entities (fun _ _ => [(0, 4)]) "English" (lit "Jean Dupont").
Proof.
  apply unknown_language_uses_english.
  apply (bool_decide_unpack _). vm_compute. exact I.
Defined.

(** ** The cache of models *)

Lemma cache_ok_empty : cache_ok ∅.
Proof. intros language nlp. by rewrite lookup_empty. Qed.

(** X13: From a cache in which every model is stored under its language,
    [load_model_for_language] returns a model of the language asked
    for, stores it under that language, leaves the other entries alone,
    and a second call returns the same model without changing the
    cache. *)
Theorem load_model_for_language_cached
    (language : string) (loaded : gmap string MockNLPModel) :
  cache_ok loaded ->
  let nlp := fst (load_model_for_language language loaded) in
  let loaded' := snd (load_model_for_language language loaded) in
  model_language nlp = language /\
  cache_ok loaded' /\
  loaded' !! language = Some nlp /\
  (forall other, other <> language -> loaded' !! other = loaded !! other) /\
  load_model_for_language language loaded' = (nlp, loaded').
Proof.
  intros Hok. unfold load_model_for_language.
  destruct (loaded !! language) as [nlp|] eqn:E; simpl.
  - split_and!; try done; [by apply Hok | by rewrite E].
  - split_and!; try done.
    + intros l m. rewrite lookup_insert. case_decide; [|apply Hok].
      by intros [= <-].
    + by rewrite lookup_insert_eq.
    + intros other Hne. by rewrite lookup_insert_ne.
    + by rewrite lookup_insert_eq.
Qed.

Lemma load_model_for_language_cached_witness :
  load_model_for_language "Hindi" (snd (load_model_for_language "Hindi" ∅)) =
  load_model_for_language "Hindi" ∅.
Proof.
  destruct (load_model_for_language_cached "Hindi" ∅ cache_ok_empty)
    as (_ & _ & _ & _ & H).
  rewrite H. by destruct (load_model_for_language "Hindi" ∅).
Defined.


(** ** The keyword counts *)

Lemma count_one_category (category : string) (text_lower : str)
    (keywords : list str) :
  forall scores : gmap string Z,
    foldl (fun scores keyword =>
             if str_in keyword text_lower then increment scores category
             else scores)
          scores keywords =
    match matches keywords text_lower with
    | 0 => scores
    | S n => <[category := (default 0 (scores !! category) + Z.of_nat (S n))%Z]> scores
    end.
Proof.
  unfold matches.
  induction keywords as [|keyword keywords IH]; intros scores; simpl; [done|].
  rewrite IH. destruct (str_in keyword text_lower); [|done]. simpl length.
  unfold increment. rewrite lookup_insert_eq. simpl default.
  destruct (length _) as [|n].
  - f_equal; lia.
  - rewrite insert_insert_eq. f_equal; lia.
Qed.

Lemma count_keywords_lookup
    (text_lower : str) (category : string) (keywords : list str) :
  (category, keywords) ∈ keyword_categories ->
  count_keywords text_lower !! category =
    match matches keywords text_lower with
    | 0 => None
    | S n => Some (Z.of_nat (S n))
    end.
Proof.
  intros Hin.
  unfold count_keywords, keyword_categories in *. cbn [foldl].
  rewrite !count_one_category.
  repeat (apply elem_of_cons in Hin as [[= -> ->] | Hin]);
    [..|by apply elem_of_nil in Hin];
    repeat (destruct (matches _ text_lower)); by simplify_map_eq.
Qed.

(** X14: The score of a category is the number of its keywords that occur in
    the text, each counted once; a category none of whose keywords
    occurs has no entry; no score exceeds 8. *)
Theorem count_keywords_counts_matches
    (text_lower : str) (category : string) (keywords : list str) :
  (category, keywords) ∈ keyword_categories ->
  count_keywords text_lower !! category =
    match matches keywords text_lower with
    | 0 => None
    | S n => Some (Z.of_nat (S n))
    end /\
  matches keywords text_lower <= 8.
Proof.
  intros Hin. split; [by apply count_keywords_lookup|].
  unfold matches.
  etransitivity; [apply filter_length_le|].
  unfold keyword_categories in Hin.
  repeat (apply elem_of_cons in Hin as [[= -> ->] | Hin]);
    [..|by apply elem_of_nil in Hin]; simpl; lia.
Qed.

Lemma count_keywords_counts_matches_witness :
  count_keywords (lit "please, i need the update") !! "Request"%string = Some 2%Z.
Proof.
  destruct (count_keywords_counts_matches
              (lit "please, i need the update") "Request"
              (lit <$> ["please"; "request"; "kindly"; "could you"; "would you";
                        "need"; "want"; "asking"]%string)) as [Hscore _].
  - by_evaluation.
  - rewrite Hscore. vm_compute. reflexivity.
Defined.

Lemma keyword_occurrence_counts
    (text_lower : str) (category : string) (keywords : list str)
    (keyword : str) :
  (category, keywords) ∈ keyword_categories ->
  keyword ∈ keywords ->
  str_in keyword text_lower = true ->
  count_keywords text_lower <> ∅.
Proof.
  intros Hc Hk Hin Hempty.
  pose proof (count_keywords_lookup text_lower category keywords Hc) as Hlookup.
  rewrite Hempty, lookup_empty in Hlookup.
  assert (keyword ∈ List.filter (fun keyword => str_in keyword text_lower) keywords)
    as Hf by (apply list_elem_of_In, filter_In; by rewrite <- list_elem_of_In).
  unfold matches in Hlookup.
  destruct (List.filter _ keywords); [by apply elem_of_nil in Hf | done].
Qed.

(** ** Random draws *)

Lemma assign_loop_state (labels : list string) (scores : gmap string Z) (g : rng) :
  exists scores',
    for_each labels scores assign_random g =
      (Return scores', {| tape := tape g; drawn := drawn g + length labels |}).
Proof.
  revert scores g. induction labels as [|x labels IH]; intros scores g; simpl.
  - exists scores. unfold ret. destruct g as [t d]. simpl. do 2 f_equal. lia.
  - destruct (random_score_spec g) as (v & Hv & _).
    destruct (IH (<[x := v]> scores) {| tape := tape g; drawn := S (drawn g) |})
      as (scores' & Hloop).
    exists scores'.
    unfold bind at 1. unfold assign_random at 1. unfold bind at 1.
    rewrite Hv. unfold ret at 1. rewrite Hloop. simpl. do 3 f_equal. lia.
Qed.

Section Draws.
Variables (pd : processed_doc) (language : string) (g : rng).

Lemma classify_intent_state :
  exists scores label explanation g',
    final_scores (take 1000 (pd_text pd)) categories g = (Return scores, g') /\
    classify_intent pd language g = (Return (label, explanation), g').
Proof.
  destruct (top_intent_of_mock language (take 1000 (pd_text pd)) g)
    as (scores & g' & top & rest & score & Hrun & _ & Htop & Hti & _).
  destruct (classify_intent_with_category _ pd language g top score g' Hti Htop)
    as (explanation & Hc).
  by exists scores, top, explanation, g'.
Qed.

(** X15: When a keyword of the classifier occurs in the lower-cased first
    1000 characters, [classify_intent] does not touch the random
    generator. *)
Theorem classification_with_keyword_is_not_random
    (category : string) (keywords : list str) (keyword : str) :
  (category, keywords) ∈ keyword_categories ->
  keyword ∈ keywords ->
  str_in keyword (lower (take 1000 (pd_text pd))) = true ->
  exists label explanation,
    classify_intent pd language g = (Return (label, explanation), g).
Proof.
  intros Hc Hk Hin.
  destruct classify_intent_state as (scores & label & explanation & g' & Hrun & Hcall).
  exists label, explanation. rewrite Hcall. do 2 f_equal.
  assert (Hfinal : final_scores (take 1000 (pd_text pd)) categories g =
                   (Return (count_keywords (lower (take 1000 (pd_text pd)))), g)).
  { unfold final_scores, fallback_scores.
    rewrite bool_decide_false by (by eapply keyword_occurrence_counts).
    reflexivity. }
  rewrite Hfinal in Hrun. congruence.
Qed.

(** X16: When no keyword of the classifier occurs there, [classify_intent]
    draws exactly four random numbers. *)
Theorem classification_without_keyword_draws_four :
  no_keyword (lower (take 1000 (pd_text pd))) ->
  exists label explanation,
    classify_intent pd language g =
      (Return (label, explanation), {| tape := tape g; drawn := drawn g + 4 |}).
Proof.
  intros Hno.
  destruct classify_intent_state as (scores & label & explanation & g' & Hrun & Hcall).
  exists label, explanation. rewrite Hcall. do 2 f_equal.
  destruct (assign_loop_state categories ∅ g) as (scores' & Hloop).
  change (length categories) with 4 in Hloop.
  assert (Hfinal : final_scores (take 1000 (pd_text pd)) categories g =
                   (Return scores', {| tape := tape g; drawn := drawn g + 4 |})).
  { unfold final_scores, fallback_scores.
    rewrite (count_keywords_none _ Hno).
    rewrite bool_decide_true by done. exact Hloop. }
  rewrite Hfinal in Hrun. congruence.
Qed.
End Draws.

Lemma classification_with_keyword_is_not_random_witness :
  exists label explanation,
    classify_intent (document (lit "Please help.")) "English" zero_rng =
      (Return (label, explanation), zero_rng).
Proof.
  apply (classification_with_keyword_is_not_random
           (document (lit "Please help.")) "English" zero_rng "Request"
           (lit <$> ["please"; "request"; "kindly"; "could you"; "would you";
                     "need"; "want"; "asking"]%string)
           (lit "please")).
  - by_evaluation.
  - by_evaluation.
  - vm_compute. reflexivity.
Defined.

Lemma classification_without_keyword_draws_four_witness :
  exists label explanation,
    classify_intent (document (lit "Nothing to see here.")) "English" zero_rng =
      (Return (label, explanation),
       {| tape := tape zero_rng; drawn := drawn zero_rng + 4 |}).
Proof.
  apply (classification_without_keyword_draws_four
           (document (lit "Nothing to see here.")) "English" zero_rng).
  apply no_keyword_by_evaluation. vm_compute. reflexivity.
Defined.

(** ** The range of the fallback scores *)

Section Range.
Local Open Scope Q_scope.

Lemma random_random_below_one g :
  exists r, random_random g =
              (Return r, {| tape := tape g; drawn := S (drawn g) |}) /\
            0 <= r /\ r <= (2 ^ 53 - 1) # 2 ^ 53.
Proof.
  unfold random_random. eexists. split; [reflexivity|].
  pose proof (N.mod_lt (tape g (drawn g)) (2 ^ 53)%N ltac:(done)) as Hlt.
  set (k := (tape g (drawn g) mod 2 ^ 53)%N) in *.
  assert (0 <= Z.of_N k < 2 ^ 53)%Z as [H0 H1].
  { split; [lia|]. change (2 ^ 53)%Z with (Z.of_N (2 ^ 53)). lia. }
  unfold Qle. simpl. split; [lia|].
  change (Z.pos (2 ^ 53)) with (2 ^ 53)%Z. lia.
Qed.

(** X17: The fallback score [1 + int(random.random() * 9)] is between 1 and
    9: the product never reaches 9, so 10 is never assigned. *)
Theorem random_score_at_most_nine (g : rng) :
  exists v, random_score g =
              (Return v, {| tape := tape g; drawn := S (drawn g) |}) /\
            (1 <= v <= 9)%Z.
Proof.
  destruct (random_random_below_one g) as (r & Hr & H0 & H1).
  unfold random_score, bind. rewrite Hr. unfold ret.
  eexists. split; [reflexivity|].
  set (top := ((2 ^ 53 - 1) # 2 ^ 53) * float_of_Z 9).
  assert (E9 : float_of_Z 9 == 9) by apply float_of_Z_9.
  assert (Hp0 : 0 <= r * float_of_Z 9) by nra.
  assert (Hp1 : r * float_of_Z 9 <= top) by (unfold top; nra).
  pose proof (fl_nonneg _ Hp0) as Hf0.
  pose proof (fl_mono _ _ Hp0 Hp1) as Hf1.
  unfold fmul, int_of_float.
  apply Qle_bool_iff in Hf0 as Hb. rewrite Hb.
  apply Qfloor_resp_le in Hf0, Hf1.
  change (Qfloor 0) with 0%Z in Hf0.
  assert (Etop : Qfloor (fl top) = 8%Z) by (vm_compute; reflexivity).
  lia.
Qed.
End Range.

(** ** The scores the classifier returns *)

Section Ordered.
Local Open Scope Q_scope.

Lemma weight_monotone (scores : gmap string Z) (a b : string) :
  positive_scores scores ->
  (default 0 (scores !! b) <= default 0 (scores !! a))%Z ->
  weight scores b <= weight scores a.
Proof.
  intros Hpos Hkey. unfold weight.
  destruct (scores !! a) as [na|] eqn:Ea; destruct (scores !! b) as [nb|] eqn:Eb;
    simpl in Hkey.
  - apply Hpos in Eb. unfold float_of_Z. apply fl_mono.
    + change 0 with (inject_Z 0). rewrite <- Zle_Qle. lia.
    + by rewrite <- Zle_Qle.
  - apply Hpos in Ea. unfold float_of_Z. apply fl_mono; [discriminate|].
    apply Qle_trans with (inject_Z 1); [discriminate|]. by rewrite <- Zle_Qle.
  - apply Hpos in Eb. lia.
  - apply Qle_refl.
Qed.

Lemma fdiv_monotone (x y total : Q) :
  0 <= x -> x <= y -> 0 < total -> fdiv x total <= fdiv y total.
Proof.
  intros Hx Hxy Ht. unfold fdiv. apply fl_mono.
  - apply Qle_shift_div_l; lra.
  - apply Qmult_le_compat_r; [done|]. apply Qlt_le_weak, Qinv_lt_0_compat, Ht.
Qed.

(** X18: The classifier returns four scores, each between 0 and 1, in
    descending order. *)
Theorem normalized_scores_descend (text : str) (g : rng) :
  exists labels scores sequence g',
    _classify_text text classify_kwargs g =
      (Return (RClassification (Some labels) (Some scores) sequence), g') /\
    length labels = 4%nat /\ length scores = 4%nat /\
    Forall (fun x => 0 <= x /\ x <= 1) scores /\
    StronglySorted (fun x y => y <= x) scores.
Proof.
  destruct (classify_text_spec text g)
    as (scores & g' & top & rest & _ & Hpos & Hord & _ & Hcall & _ & _).
  set (key := fun label => default 0%Z (scores !! label)) in *.
  set (total := float_sum (weight scores <$> top :: rest)) in *.
  do 4 eexists. split; [exact Hcall|].
  assert (Hlen : length (top :: rest) = 4%nat).
  { rewrite <- Hord.
    apply (Permutation_length (sorted_desc_perm key categories)). }
  pose proof (sorted_desc_descending key categories) as Hsorted.
  rewrite Hord in Hsorted.
  pose proof (total_ge_first scores top rest Hpos) as Hge. fold total in Hge.
  pose proof (weight_pos scores top Hpos) as Hw.
  assert (Htotal : 0 < total) by lra.
  assert (Hall : Forall (fun label => weight scores label <= total) (top :: rest)).
  { constructor; [done|].
    inversion Hsorted as [|? ? _ Hhead]; subst.
    eapply Forall_impl; [exact Hhead|]. intros label Hk. simpl in Hk.
    apply Qle_trans with (weight scores top); [|done].
    by apply weight_monotone. }
  split; [done|]. split; [by rewrite length_fmap|]. split.
  - apply Forall_fmap. eapply Forall_impl; [exact Hall|].
    intros label Hl. simpl. apply fdiv_unit_interval; [|done].
    by apply weight_pos.
  - eapply StronglySorted_fmap; [|exact Hsorted].
    intros a b Hk. simpl in Hk. apply fdiv_monotone; [| |done].
    + apply Qlt_le_weak. by apply weight_pos.
    + by apply weight_monotone.
Qed.
End Ordered.

(** ** A label outside the four categories *)

(** X19: [classify_intent] looks the label up without a guard: when the
    classifier answers with a first label that is not one of the four
    categories, [KeyError] is raised. *)
Theorem foreign_label_raises_key_error
    (classifier : str -> kwargs -> M pyresult)
    (pd : processed_doc) (language : string) (g g' : rng)
    (label : string) (labels : list string) (scores : list Q) (sequence : str) :
  classifier (take 1000 (pd_text pd)) classify_kwargs g =
    (Return (RClassification (Some (label :: labels)) (Some scores) sequence), g') ->
  label ∉ categories ->
  classify_intent_with classifier pd language g = (Raise "KeyError", g').
Proof.
  intros Hcall Hforeign.
  assert (explanations !! label = None) as Hnone.
  { apply not_elem_of_list_to_map. exact Hforeign. }
  unfold classify_intent_with, top_intent, try_except, bind. rewrite Hcall.
  unfold ret. simpl. unfold explain, getitem, bind. by rewrite Hnone.
Qed.

Lemma foreign_label_raises_key_error_witness :
  classify_intent_with
    (fun _ _ => ret (RClassification (Some ["Spam"%string]) (Some [1%Q]) []))
    (document (lit "Buy now.")) "English" zero_rng = (Raise "KeyError", zero_rng).
Proof.
  apply (foreign_label_raises_key_error _ _ _ _ _ "Spam" [] [1%Q] []).
  - reflexivity.
  - apply (bool_decide_unpack _). vm_compute. exact I.
Defined.


(** ** The text of the PDF report *)

Lemma replace_char_app c repl a b :
  replace_char c repl (a ++ b) = replace_char c repl a ++ replace_char c repl b.
Proof. apply flat_map_app. Qed.

Lemma replace_all_app rs a b :
  foldl (fun text '(char, replacement) => replace_char char replacement text)
        (a ++ b) rs =
  foldl (fun text '(char, replacement) => replace_char char replacement text) a rs ++
  foldl (fun text '(char, replacement) => replace_char char replacement text) b rs.
Proof.
  revert a b; induction rs as [|[c r] rs IH]; intros a b; [done|].
  simpl. by rewrite replace_char_app, IH.
Qed.

Lemma clean_text_for_pdf_app a b :
  _clean_text_for_pdf (Some (a ++ b)) =
  _clean_text_for_pdf (Some a) ++ _clean_text_for_pdf (Some b).
Proof.
  unfold _clean_text_for_pdf, latin1_replace.
  by rewrite replace_all_app, fmap_app.
Qed.

Lemma clean_text_for_pdf_cons c s :
  _clean_text_for_pdf (Some (c :: s)) =
  _clean_text_for_pdf (Some [c]) ++ _clean_text_for_pdf (Some s).
Proof. apply (clean_text_for_pdf_app [c] s). Qed.

Lemma clean_char_other c :
  c ∉ replacements.*1 ->
  _clean_text_for_pdf (Some [c]) = [if (c <=? 255)%N then c else QUESTION_MARK].
Proof.
  intros Hout.
  assert (Hne : forall k, k ∈ replacements.*1 -> (c =? k)%N = false).
  { intros k Hk. apply N.eqb_neq. by intros ->. }
  unfold _clean_text_for_pdf, replacements. cbn [foldl].
  unfold replace_char. cbn [flat_map].
  repeat (rewrite Hne by (cbn; set_solver); cbn [flat_map app]).
  reflexivity.
Qed.

Lemma clean_char_cases c :
  c ∈ replacements.*1 \/
  ((c ∉ replacements.*1) /\
   _clean_text_for_pdf (Some [c]) = [if (c <=? 255)%N then c else QUESTION_MARK]).
Proof.
  destruct (decide (c ∈ replacements.*1)) as [Hin|Hout]; [by left|right].
  split; [done|]. by apply clean_char_other.
Qed.

Lemma clean_char_plain c :
  plain_latin1 c -> _clean_text_for_pdf (Some [c]) = [c].
Proof.
  intros (Hle & H96 & H180).
  destruct (clean_char_cases c) as [Hin|[_ ->]].
  - cbn in Hin. repeat (apply elem_of_cons in Hin as [->|Hin]; [done || lia|]).
    by apply elem_of_nil in Hin.
  - by destruct (N.leb_spec c 255); [|lia].
Qed.

Lemma clean_char_latin1 c :
  Forall plain_latin1 (_clean_text_for_pdf (Some [c])).
Proof.
  destruct (clean_char_cases c) as [Hin|[Hout ->]].
  - cbn in Hin. repeat (apply elem_of_cons in Hin as [->|Hin];
      [vm_compute; repeat constructor; (done || lia)|]).
    by apply elem_of_nil in Hin.
  - constructor; [|constructor].
    destruct (N.leb_spec c 255) as [Hle|Hgt].
    + split; [done|]. split; intros ->; apply Hout; cbn; set_solver.
    + by vm_compute.
Qed.

Lemma clean_char_length c :
  1 <= length (_clean_text_for_pdf (Some [c])) <= 3.
Proof.
  destruct (clean_char_cases c) as [Hin|[Hout ->]].
  - cbn in Hin. repeat (apply elem_of_cons in Hin as [->|Hin]; [vm_compute; lia|]).
    by apply elem_of_nil in Hin.
  - simpl. lia.
Qed.

Lemma clean_text_for_pdf_latin1 (text : option str) :
  Forall plain_latin1 (_clean_text_for_pdf text).
Proof.
  destruct text as [s|]; [|constructor].
  induction s as [|c s IH]; [constructor|].
  rewrite clean_text_for_pdf_cons. apply Forall_app. split; [apply clean_char_latin1|done].
Qed.

Lemma clean_text_for_pdf_plain (s : str) :
  Forall plain_latin1 s -> _clean_text_for_pdf (Some s) = s.
Proof.
  induction 1 as [|c s Hc Hs IH]; [done|].
  by rewrite clean_text_for_pdf_cons, clean_char_plain, IH.
Qed.

(** X20: The text [_clean_text_for_pdf] returns fits Latin-1 and holds
    neither a backtick nor an acute accent. *)
Theorem clean_text_for_pdf_is_latin1 (text : option str) :
  Forall (fun c => (c <= 255)%N /\ c <> 96%N /\ c <> 180%N)
         (_clean_text_for_pdf text).
Proof. apply clean_text_for_pdf_latin1. Qed.

(** X21: The texts [_clean_text_for_pdf] leaves unchanged are exactly the
    Latin-1 texts without backtick and acute accent; so cleaning twice
    is cleaning once. *)
Theorem clean_text_for_pdf_fixed_points (s : str) (text : option str) :
  (_clean_text_for_pdf (Some s) = s <->
   Forall (fun c => (c <= 255)%N /\ c <> 96%N /\ c <> 180%N) s) /\
  _clean_text_for_pdf (Some (_clean_text_for_pdf text)) = _clean_text_for_pdf text.
Proof.
  split; [split|].
  - intros <-. apply clean_text_for_pdf_latin1.
  - apply clean_text_for_pdf_plain.
  - apply clean_text_for_pdf_plain, clean_text_for_pdf_latin1.
Qed.

(** X22: The cleaning works character by character: no replacement makes
    the text shorter, and none more than three times as long. *)
Theorem clean_text_for_pdf_length (s : str) :
  length s <= length (_clean_text_for_pdf (Some s)) <= 3 * length s.
Proof.
  induction s as [|c s IH]; [simpl; lia|].
  rewrite clean_text_for_pdf_cons, length_app.
  change (length (c :: s)) with (S (length s)).
  pose proof (clean_char_length c). lia.
Qed.

(** ** Bullets in the report *)

Lemma split_once_first (name rest : str) :
  Forall (fun c => c <> 58%N) name ->
  split_once (lit ": ") (name ++ lit ": " ++ rest) = Some (name, rest).
Proof.
  induction 1 as [|c name Hc Hname IH].
  - reflexivity.
  - change (lit ": ") with [58%N; 32%N] in *.
    cbn [app split_once drop_prefix].
    destruct (N.eqb_spec 58 c); [congruence|].
    cbn [app] in IH. by rewrite IH.
Qed.

Lemma report_item_drops_category (cb : category * str) :
  item_text (render_bullet cb) = _clean_text_for_pdf (Some (snd cb)).
Proof.
  destruct cb as [c b]. unfold item_text, render_bullet. cbn [fst snd].
  rewrite clean_text_for_pdf_app.
  assert (Hp : _clean_text_for_pdf (Some (prefix_of_category c)) =
               name_of_category c ++ lit ": ") by (destruct c; vm_compute; reflexivity).
  rewrite Hp, <- app_assoc.
  rewrite split_once_first.
  - rewrite bool_decide_true; [done|]. destruct c; vm_compute; set_solver.
  - destruct c; vm_compute; repeat constructor; done.
Qed.

(** X23: For every bullet of [extract_bullet_points], the text [chapter_body]
    hands to [textwrap.wrap] is without the category prefix: it is the
    cleaned text of the sentence the bullet was made from. *)
Theorem report_items_of_bullets (pd : processed_doc) (language : string) :
  item_text <$> extract_bullet_points pd language =
  (fun b => _clean_text_for_pdf (Some (strip_category_prefix b))) <$>
    extract_bullet_points pd language.
Proof.
  unfold extract_bullet_points. cbv zeta.
  rewrite <- !fmap_take, <- !list_fmap_compose.
  apply list_fmap_ext. intros i cb _. unfold compose.
  rewrite report_item_drops_category, strip_render. reflexivity.
Qed.


(** ** [clean_text] collapses white space *)

Lemma star_greedy_all p prev s :
  star_greedy p (fun _ rest => Some rest) prev s = Some (drop (run p s) s).
Proof.
  revert prev; induction s as [|c s IH]; intros prev; simpl; [reflexivity|].
  destruct (p c); [|reflexivity].
  rewrite IH; reflexivity.
Qed.

Lemma whitespace_match prev c s :
  match_len WHITESPACE prev (c :: s) =
  if is_space c then Some (S (run is_space s)) else None.
Proof.
  unfold match_len, WHITESPACE; cbn [rmatch].
  destruct (is_space c); [|reflexivity].
  rewrite star_greedy_all. f_equal.
  assert (run is_space s <= length s).
  { clear. induction s as [|x s IH]; simpl; [lia|]. destruct (is_space x); simpl; lia. }
  rewrite length_drop. simpl length. lia.
Qed.

Lemma whitespace_match_nil prev : match_len WHITESPACE prev [] = None.
Proof. reflexivity. Qed.

Lemma sub_scan_whitespace s :
  forall prev,
    sub_scan WHITESPACE [SP] prev s 0 = collapse false s /\
    sub_scan WHITESPACE [SP] prev s (run is_space s) = collapse true s.
Proof.
  induction s as [|c s IH]; intros prev; [split; reflexivity|].
  destruct (IH (Some c)) as [IH0 IHrun].
  split.
  - cbn [sub_scan]. rewrite whitespace_match. cbn [collapse].
    destruct (is_space c).
    + rewrite IHrun. reflexivity.
    + rewrite IH0. reflexivity.
  - cbn [run collapse]. destruct (is_space c) eqn:Hc.
    + cbn [sub_scan]. apply IHrun.
    + cbn [sub_scan]. rewrite whitespace_match, Hc, IH0. reflexivity.
Qed.

Lemma re_sub_whitespace s : re_sub WHITESPACE [SP] s = collapse false s.
Proof. apply sub_scan_whitespace. Qed.

Lemma space_is_space : is_space SP = true.
Proof. reflexivity. Qed.

Lemma collapse_single_spaced s :
  single_spaced true (collapse true s) = true /\
  single_spaced false (collapse false s) = true /\
  single_spaced true (collapse false s) = negb (match s with c :: _ => is_space c | [] => false end).
Proof.
  induction s as [|c s (IH1 & IH2 & IH3)]; [repeat split|].
  cbn [collapse]. destruct (is_space c) eqn:Hc.
  - split; [assumption|]. cbn [single_spaced]. rewrite space_is_space, IH1. repeat split.
  - cbn [single_spaced]. rewrite Hc, IH2. repeat split.
Qed.

Lemma single_spaced_weaken b s :
  single_spaced b s = true -> single_spaced false s = true.
Proof.
  destruct s as [|c s]; [done|]. simpl.
  destruct (is_space c); [|done]. destruct b; simpl; [|done].
  rewrite andb_false_r. done.
Qed.

Lemma single_spaced_prefix b a w :
  single_spaced b (a ++ w) = true -> single_spaced b a = true.
Proof.
  revert b; induction a as [|c a IH]; intros b; [done|]. simpl.
  destruct (is_space c); [|apply IH].
  intros H. apply andb_prop in H as [-> H]. simpl. by apply IH.
Qed.

Lemma single_spaced_suffix b a w :
  single_spaced b (a ++ w) = true -> single_spaced false w = true.
Proof.
  revert b; induction a as [|c a IH]; intros b; [apply single_spaced_weaken|]. simpl.
  destruct (is_space c); [|apply IH].
  intros H. apply andb_prop in H as [_ H]. by eapply IH.
Qed.

Lemma single_spaced_adjacent b s pre c1 c2 post :
  single_spaced b s = true -> s = pre ++ c1 :: c2 :: post ->
  is_space c1 && is_space c2 = false.
Proof.
  intros H ->. apply single_spaced_suffix in H. simpl in H.
  destruct (is_space c1); [|done]. destruct (is_space c2); [|done].
  destruct (c1 =? SP)%N, (c2 =? SP)%N; done.
Qed.

Lemma single_spaced_spaces b s :
  single_spaced b s = true -> Forall (fun c => is_space c = true -> c = SP) s.
Proof.
  revert b; induction s as [|c s IH]; intros b H; [constructor|].
  simpl in H. destruct (is_space c) eqn:Hc.
  - apply andb_prop in H as [H1 H]. apply andb_prop in H1 as [H1 _].
    constructor; [intros _; by apply N.eqb_eq|by eapply IH].
  - constructor; [congruence|by eapply IH].
Qed.

Lemma single_spaced_collapse b s :
  single_spaced b s = true -> collapse b s = s.
Proof.
  revert b; induction s as [|c s IH]; intros b H; [done|].
  simpl in *. destruct (is_space c).
  - apply andb_prop in H as [H1 H]. apply andb_prop in H1 as [H1 H2].
    apply N.eqb_eq in H1 as ->. destruct b; [done|]. by rewrite IH.
  - by rewrite IH.
Qed.

(** ** [str.strip] reaches a fixed point *)

Lemma lstrip_idempotent (s : str) : lstrip (lstrip s) = lstrip s.
Proof.
  induction s as [|c s IH]; [done|]. simpl.
  destruct (is_space c) eqn:Hc; [done|]. simpl. by rewrite Hc.
Qed.

Lemma lstrip_app_nonspace (a b : str) c :
  is_space c = false -> lstrip (a ++ c :: b) = lstrip a ++ c :: b.
Proof.
  intros Hc. induction a as [|x a IH]; simpl; [by rewrite Hc|].
  destruct (is_space x); done.
Qed.

Lemma rstrip_cons_nonspace c (s : str) :
  is_space c = false -> rstrip (c :: s) = c :: rstrip s.
Proof.
  intros Hc. unfold rstrip. simpl.
  change (rev s ++ [c]) with (rev s ++ c :: []).
  rewrite lstrip_app_nonspace by done.
  by rewrite rev_app_distr.
Qed.

Lemma rstrip_idempotent (s : str) : rstrip (rstrip s) = rstrip s.
Proof. unfold rstrip. by rewrite rev_involutive, lstrip_idempotent. Qed.

Lemma lstrip_rstrip (s : str) : lstrip s = s -> lstrip (rstrip s) = rstrip s.
Proof.
  destruct s as [|c s]; [done|]. simpl.
  destruct (is_space c) eqn:Hc.
  - intros H. pose proof (lstrip_suffix s) as Hs. rewrite H in Hs.
    apply suffix_length in Hs. simpl in Hs. lia.
  - intros _. rewrite rstrip_cons_nonspace by done. simpl. by rewrite Hc.
Qed.

Lemma strip_idempotent (s : str) : strip (strip s) = strip s.
Proof.
  unfold strip. rewrite lstrip_rstrip by apply lstrip_idempotent.
  apply rstrip_idempotent.
Qed.

Lemma single_spaced_strip s :
  single_spaced false s = true -> single_spaced false (strip s) = true.
Proof.
  intros H. destruct (strip_substring s) as (pre & post & E).
  rewrite E in H. apply single_spaced_suffix in H.
  by apply single_spaced_prefix in H.
Qed.

(** ** Without a newline there is one paragraph *)

Lemma paragraph_sep_no_match prev c s :
  c <> NL -> match_len PARAGRAPH_SEP prev (c :: s) = None.
Proof.
  intros Hc. unfold match_len, PARAGRAPH_SEP, Cat. cbn [rmatch].
  destruct (N.eqb_spec c NL); done.
Qed.

Lemma sub_scan_no_newline repl prev s :
  NL ∉ s -> sub_scan PARAGRAPH_SEP repl prev s 0 = s.
Proof.
  revert prev; induction s as [|c s IH]; intros prev Hs; [done|].
  apply not_elem_of_cons in Hs as [Hc Hs].
  cbn [sub_scan]. rewrite paragraph_sep_no_match by done.
  by rewrite IH.
Qed.

Lemma split_scan_no_newline prev s :
  NL ∉ s -> split_scan PARAGRAPH_SEP prev s 0 = [s].
Proof.
  revert prev; induction s as [|c s IH]; intros prev Hs; [done|].
  apply not_elem_of_cons in Hs as [Hc Hs].
  cbn [split_scan]. rewrite paragraph_sep_no_match by done.
  by rewrite IH.
Qed.

Lemma spaces_no_newline s :
  Forall (fun c => is_space c = true -> c = SP) s -> NL ∉ s.
Proof.
  intros H Hin. rewrite Forall_forall in H. by specialize (H _ Hin eq_refl).
Qed.

(** ** [clean_text] *)

Lemma clean_text_collapse text : clean_text text = strip (collapse false text).
Proof.
  unfold clean_text. rewrite re_sub_whitespace. unfold re_sub.
  rewrite sub_scan_no_newline; [done|].
  apply spaces_no_newline, (single_spaced_spaces false), collapse_single_spaced.
Qed.

Lemma clean_text_single_spaced text : single_spaced false (clean_text text) = true.
Proof.
  rewrite clean_text_collapse. apply single_spaced_strip, collapse_single_spaced.
Qed.

(** X24: [clean_text] leaves single spaces as the only whitespace: every
    whitespace character of the result is U+0020, no two of them are
    adjacent and none is at either end. *)
Theorem clean_text_single_spaces (text : str) :
  Forall (fun c => is_space c = true -> c = SP) (clean_text text) /\
  (forall pre c1 c2 post,
     clean_text text = pre ++ c1 :: c2 :: post ->
     is_space c1 && is_space c2 = false) /\
  strip (clean_text text) = clean_text text.
Proof.
  split; [|split].
  - apply (single_spaced_spaces false), clean_text_single_spaced.
  - intros pre c1 c2 post. apply single_spaced_adjacent with (b := false).
    apply clean_text_single_spaced.
  - rewrite clean_text_collapse. apply strip_idempotent.
Qed.

(** X25: The first substitution of [clean_text] already removes every
    newline, so the second one, meant to keep paragraph breaks, never
    finds a match: the result is one paragraph. *)
Theorem clean_text_has_one_paragraph (text : str) :
  re_sub PARAGRAPH_SEP [NL; NL] (re_sub WHITESPACE [SP] text) =
    re_sub WHITESPACE [SP] text /\
  (NL ∉ clean_text text) /\
  paragraphs_of (clean_text text) = [clean_text text].
Proof.
  assert (Hn : NL ∉ clean_text text).
  { apply spaces_no_newline, (single_spaced_spaces false), clean_text_single_spaced. }
  split; [|split; [done|]].
  - rewrite re_sub_whitespace. apply sub_scan_no_newline.
    apply spaces_no_newline, (single_spaced_spaces false), collapse_single_spaced.
  - by apply split_scan_no_newline.
Qed.

(** X26: Cleaning a cleaned text changes nothing. *)
Theorem clean_text_idempotent (text : str) :
  clean_text (clean_text text) = clean_text text.
Proof.
  rewrite (clean_text_collapse (clean_text text)).
  rewrite single_spaced_collapse by apply clean_text_single_spaced.
  rewrite clean_text_collapse. apply strip_idempotent.
Qed.
